(** * Notification dispatch of the Yetwork cloud functions

    A shallow embedding of [functions/index.js]: the four triggers
    [sendInviteEmail], [sendTaskAssignedEmail], [sendDueDateReminders] and
    [sendCommentNotification], over an explicit model of the document store,
    the mail service and JavaScript exceptions.

    Email templates build strings out of their arguments; a delivery
    call is recorded with the recipient and the template arguments the
    handler computes, not with the rendered HTML.  The one template that
    can throw on its arguments, [generateTaskAssignedHtml], is part of the
    task handler, [task_assigned_rendered]. *)

From stdpp Require Import gmap strings list fin_maps sorting.
From Stdlib Require Import ZArith Ascii String Lia.

#[local] Set Warnings "-register-all".
#[local] Open Scope string_scope.
#[local] Open Scope list_scope.
#[local] Open Scope stdpp_scope.

(** ** JavaScript values, as far as the handlers inspect them *)

(** Numbers are integers here: the handlers only test numbers for
    truthiness.  [JTimestamp] is a store timestamp object. *)
Inductive jsval :=
| JUndefined
| JNull
| JBool (b : bool)
| JNum (z : Z)
| JStr (s : string)
| JTimestamp (t : Z)
| JObj (fields : gmap string jsval).

(** [ToBoolean]. *)
Definition truthy (v : jsval) : bool :=
  match v with
  | JUndefined | JNull => false
  | JBool b => b
  | JNum z => negb (Z.eqb z 0)
  | JStr s => negb (String.eqb s "")
  | JTimestamp _ | JObj _ => true
  end.

(** [a === b].  Two objects read from two snapshots are two references, so
    they are never strictly equal. *)
Definition strict_eq (a b : jsval) : bool :=
  match a, b with
  | JUndefined, JUndefined => true
  | JNull, JNull => true
  | JBool x, JBool y => Bool.eqb x y
  | JNum x, JNum y => Z.eqb x y
  | JStr x, JStr y => String.eqb x y
  | _, _ => false
  end.

(** [a || b]. *)
Definition js_or (a b : jsval) : jsval := if truthy a then a else b.

(** A document's data: a plain object from field names to values. *)
Abbreviation doc := (gmap string jsval).

(** [d.k] on a document: the own field, [undefined] when absent.  None of
    the field names the handlers read is a property of [Object.prototype]. *)
Definition field (d : doc) (k : string) : jsval := default JUndefined (d !! k).

(** [v?.k]: [undefined] on [undefined] and [null]; on a primitive the
    property is looked up on its wrapper, which has none of the preference
    names; on an object it is the own field. *)
Definition opt_chain (v : jsval) (k : string) : jsval :=
  match v with
  | JObj fields => field fields k
  | _ => JUndefined
  end.

(** ** Documents *)

(** Identifier fields ([assignedTo], [updatedBy], [createdBy]) are strings
    when present; [None] is both [undefined] and [null].  The handlers
    compare [undefined] with [null] only where the next guard returns for
    either. *)
Definition id_set (o : option string) : bool :=
  match o with
  | Some s => negb (String.eqb s "")
  | None => false
  end.

Record user := {
  u_name : jsval;
  u_email : jsval;
  u_emailPreferences : jsval }.

Record tenant := { tn_name : jsval; tn_slug : jsval }.

Record project := { pj_title : jsval }.

Record task := {
  tk_title : jsval;
  tk_assignedTo : option string;
  tk_updatedBy : option string;
  tk_dueDate : option Z;
  tk_status : string }.

Record comment := { cm_text : string; cm_createdBy : option string }.

(** One line of a reminder digest: [{...task, id, projectTitle, projectId}]. *)
Record reminder_item := {
  ri_task : task;
  ri_id : string;
  ri_projectTitle : jsval;
  ri_projectId : string }.

(** ** Outbound mail *)

Inductive content :=
| InviteContent (tenantName inviterName : jsval) (roleName inviteId : string)
| TaskAssignedContent (taskTitle projectTitle tenantName assignerName : jsval)
    (taskId : string)
| DueReminderContent (userName tenantName tenantSlug : jsval)
    (tasks : list reminder_item)
| CommentContent (taskTitle projectTitle tenantName commenterName : jsval)
    (commentText : string).

(** The argument of [resend.emails.send]; [from] is the constant
    [FROM_EMAIL]. *)
Record email := { e_to : jsval; e_content : content }.

(** What the mail service resolves to: [{data: {id}, error: null}] or
    [{data: null, error: {message}}]. *)
Inductive send_reply :=
| Delivered (id : string)
| Refused (message : string).

(** ** The platform a handler runs on *)

Record platform := {
  (** [users/{id}] *)
  users : gmap string user;
  (** the documents of [tenants], in the order the store returns them *)
  tenants : list (string * tenant);
  (** the documents of [tenants/{t}/projects] *)
  projects : string → list (string * project);
  (** the documents of [tenants/{t}/projects/{p}/tasks] *)
  tasks : string → string → list (string * task);
  (** local midnight of the current day, and of the day two days later, as
      [Date] computes them from the clock *)
  today : Z;
  dayAfterTomorrow : Z;
  (** the n-th external call of the run rejects with this message *)
  rejects : nat → option string;
  (** the answer of the mail service to the call numbered n *)
  mail_reply : nat → send_reply;
  (** the server timestamp written by the call numbered n *)
  server_time : nat → Z }.

(** What changes while handlers run: the number of external calls made,
    the invite documents, every delivery call made and every document
    update applied. *)
Record state := {
  st_calls : nat;
  st_invites : gmap string doc;
  st_outbox : list email;
  st_writes : list (string * list (string * jsval)) }.

(** A computation either returns or throws an [Error] with a message. *)
Inductive outcome (A : Type) :=
| Ok (a : A)
| Thrown (message : string).
Arguments Ok {A} a.
Arguments Thrown {A} message.

Definition M (A : Type) : Type := state → outcome A * state.

Definition ret {A} (a : A) : M A := fun s => (Ok a, s).

Definition bind {A B} (m : M A) (k : A → M B) : M B :=
  fun s => match m s with
           | (Ok a, s') => k a s'
           | (Thrown e, s') => (Thrown e, s')
           end.

Definition throw {A} (message : string) : M A := fun s => (Thrown message, s).

(** [try { body } catch (error) { handler(error.message) }] *)
Definition try_catch {A} (body : M A) (handler : string → M A) : M A :=
  fun s => match body s with
           | (Ok a, s') => (Ok a, s')
           | (Thrown e, s') => handler e s'
           end.

Notation "'let!' x ':=' m 'in' k" := (bind m (fun x => k))
  (at level 10, x name, m at level 100, k at level 200).
Notation "m '>>' k" := (bind m (fun _ => k))
  (at level 100, k at level 200, right associativity).

(** [for (const x of xs) { body(x) }] *)
Fixpoint for_each {A} (xs : list A) (body : A → M unit) : M unit :=
  match xs with
  | [] => ret tt
  | x :: xs' => body x >> for_each xs' body
  end.

(** The first entry with the given key in a listing. *)
Fixpoint find_doc {A} (id : string) (docs : list (string * A)) : option A :=
  match docs with
  | [] => None
  | (k, d) :: rest => if String.eqb k id then Some d else find_doc id rest
  end.

(** ** Mentions: [/@\[([^\]]+)\]\(([^)]+)\)/g]

    A text is a string of bytes.  The expression only tests for the ASCII
    characters [@], [[], []], [(] and [)], so it cuts an encoded text at the
    same places as it cuts the text itself. *)

(** [[^stop]*] followed by [stop]: the characters before the first [stop],
    and what comes after it. *)
Fixpoint run_until (stop : ascii) (s : string) : option (string * string) :=
  match s with
  | "" => None
  | String c rest =>
      if Ascii.eqb c stop then Some ("", rest)
      else match run_until stop rest with
           | Some (run, after) => Some (String c run, after)
           | None => None
           end
  end.

(** A match of the expression at the start of [s]: the two captures and the
    text after the match.  A greedy [[^\]]+] takes every character up to the
    first bracket; giving characters back only puts a character that is not
    a bracket where the bracket is required, so the longest run is the only
    candidate, and likewise for [[^)]+]. *)
Definition match_here (s : string) : option (string * string * string) :=
  match s with
  | String a (String b s1) =>
      if Ascii.eqb a "@" && Ascii.eqb b "[" then
        match run_until "]" s1 with
        | Some (String c label, String p s2) =>
            if Ascii.eqb p "(" then
              match run_until ")" s2 with
              | Some (String d userId, after) =>
                  Some (String c label, String d userId, after)
              | _ => None
              end
            else None
        | _ => None
        end
      else None
  | _ => None
  end.

(** The text cut at the successive matches, as both the [exec] loop and
    [String.prototype.replace] enumerate them: leftmost first, the search
    resuming where the previous match ended. *)
Inductive piece :=
| Plain (c : ascii)
| Mention (label userId : string).

(** [skip] counts the characters still inside the previous match. *)
Fixpoint pieces_from (skip : nat) (s : string) : list piece :=
  match s with
  | "" => []
  | String c rest =>
      match skip with
      | S k => pieces_from k rest
      | 0 =>
          match match_here s with
          | Some (label, userId, after) =>
              Mention label userId
                :: pieces_from (String.length rest - String.length after) rest
          | None => Plain c :: pieces_from 0 rest
          end
      end
  end.

Definition pieces (s : string) : list piece := pieces_from 0 s.

(** [match[2]] of every match, in order. *)
Definition mentioned (text : string) : list string :=
  omap (fun p => match p with Mention _ userId => Some userId | Plain _ => None end)
       (pieces text).

(** [text.replace(mentionRegex, "$1")] *)
Definition clean_mentions (text : string) : string :=
  foldr (fun p acc => match p with
                      | Plain c => String c acc
                      | Mention label _ => label +:+ acc
                      end) "" (pieces text).

(** [Set.prototype.add] on a set kept in insertion order. *)
Definition set_add (x : string) (set : list string) : list string :=
  if bool_decide (x ∈ set) then set else set ++ [x].

(** One turn of the [exec] loop. *)
Definition add_mention (createdBy : option string) (usersToNotify : list string)
    (mentionedUserId : string) : list string :=
  if bool_decide (Some mentionedUserId ≠ createdBy)
  then set_add mentionedUserId usersToNotify else usersToNotify.

(** The [while ((match = mentionRegex.exec(text)) !== null)] loop. *)
Definition add_mentions (text : string) (createdBy : option string)
    (usersToNotify : list string) : list string :=
  foldl (add_mention createdBy) usersToNotify (mentioned text).

(** [usersToNotify] of a comment on a task. *)
Definition comment_recipients (t : task) (c : comment) : list string :=
  let usersToNotify :=
    match tk_assignedTo t with
    | Some assignee =>
        if negb (String.eqb assignee "")
           && bool_decide (Some assignee ≠ cm_createdBy c)
        then set_add assignee [] else []
    | None => []
    end in
  add_mentions (cm_text c) (cm_createdBy c) usersToNotify.

(** *** Mention markup, as the specification describes it *)

(** [@[label](userId)] *)
Definition markup (label userId : string) : string :=
  "@[" +:+ label +:+ "](" +:+ userId +:+ ")".

(** A text written as plain stretches, each followed by a mention, and a
    plain end. *)
Fixpoint marked_text (mentions : list (string * string * string))
    (rest : string) : string :=
  match mentions with
  | [] => rest
  | (plain, label, userId) :: more =>
      plain +:+ markup label userId +:+ marked_text more rest
  end.

(** The same text with every mention replaced by its label. *)
Fixpoint display_text (mentions : list (string * string * string))
    (rest : string) : string :=
  match mentions with
  | [] => rest
  | (plain, label, userId) :: more =>
      plain +:+ label +:+ display_text more rest
  end.

Fixpoint occurs (c : ascii) (s : string) : bool :=
  match s with
  | "" => false
  | String c' rest => Ascii.eqb c' c || occurs c rest
  end.

(** No [@[] in the text. *)
Fixpoint no_mention_start (s : string) : bool :=
  match s with
  | "" => true
  | String a rest =>
      match rest with
      | String b _ => negb (Ascii.eqb a "@" && Ascii.eqb b "[")
      | "" => true
      end && no_mention_start rest
  end.

(** A plain stretch has no [@[]; a label is not empty and has no closing
    bracket; an identifier is not empty and has no closing parenthesis. *)
Definition well_marked (m : string * string * string) : Prop :=
  let '(plain, label, userId) := m in
  no_mention_start plain = true
  ∧ label ≠ "" ∧ occurs "]" label = false
  ∧ userId ≠ "" ∧ occurs ")" userId = false.

(** The distinct elements of a list, in the order of their first
    occurrence. *)
Fixpoint distinct (l : list string) : list string :=
  match l with
  | [] => []
  | x :: rest => x :: filter (fun y => y ≠ x) (distinct rest)
  end.

(** ** The reminder's [tasksByAssignee] object *)

(** Own properties in insertion order. *)
Abbreviation assignee_table := (list (string * list reminder_item)).

(** The properties an object literal inherits from [Object.prototype]. *)
Definition inherited_keys : list string :=
  ["constructor"; "__defineGetter__"; "__defineSetter__"; "hasOwnProperty";
   "__lookupGetter__"; "__lookupSetter__"; "isPrototypeOf";
   "propertyIsEnumerable"; "toString"; "valueOf"; "__proto__";
   "toLocaleString"].

Definition own (k : string) (o : assignee_table) : option (list reminder_item) :=
  find_doc k o.

(** [o[k].push(item)] on an own array, or [o[k] = [item]] for a new key. *)
Fixpoint push_item (k : string) (item : reminder_item) (o : assignee_table)
  : assignee_table :=
  match o with
  | [] => [(k, [item])]
  | (k', items) :: rest =>
      if String.eqb k' k then (k', items ++ [item]) :: rest
      else (k', items) :: push_item k item rest
  end.

(** One call of the [forEach] callback.  For a key that is not an own
    property but is inherited, [!o[k]] is false, nothing is assigned, and
    [o[k].push] is not a function. *)
Definition group_task (project : project) (projectId : string)
    (o : assignee_table) (taskDoc : string * task) : outcome assignee_table :=
  let (taskId, t) := taskDoc in
  match tk_assignedTo t with
  | Some assignee =>
      if String.eqb assignee "" then Ok o
      else
        let item := {| ri_task := t; ri_id := taskId;
                       ri_projectTitle := pj_title project;
                       ri_projectId := projectId |} in
        match own assignee o with
        | Some _ => Ok (push_item assignee item o)
        | None =>
            if bool_decide (assignee ∈ inherited_keys)
            then Thrown "tasksByAssignee[task.assignedTo].push is not a function"
            else Ok (push_item assignee item o)
        end
  | None => Ok o
  end.

Fixpoint group_tasks (project : project) (projectId : string)
    (o : assignee_table) (taskDocs : list (string * task))
  : outcome assignee_table :=
  match taskDocs with
  | [] => Ok o
  | taskDoc :: rest =>
      match group_task project projectId o taskDoc with
      | Ok o' => group_tasks project projectId o' rest
      | Thrown e => Thrown e
      end
  end.

(** The value of a decimal numeral. *)
Fixpoint decimal_value (acc : N) (s : string) : option N :=
  match s with
  | "" => Some acc
  | String c rest =>
      let n := N_of_ascii c in
      if (48 <=? n)%N && (n <=? 57)%N
      then decimal_value (acc * 10 + (n - 48))%N rest
      else None
  end.

(** A key that is an array index: a canonical numeral below [2^32 - 1]. *)
Definition array_index (k : string) : option N :=
  match k with
  | "" => None
  | String "0" (String _ _) => None
  | _ => match decimal_value 0 k with
         | Some n => if (n <? 4294967295)%N then Some n else None
         | None => None
         end
  end.

Definition index_le (a b : N * (string * list reminder_item)) : Prop :=
  (a.1 ≤ b.1)%N.

#[local] Instance index_le_dec : RelDecision index_le.
Proof. intros a b. unfold index_le. apply _. Defined.

(** [Object.entries(o)]: array-index keys in ascending order, then the other
    keys in insertion order. *)
Definition object_entries (o : assignee_table) : assignee_table :=
  (snd <$> merge_sort index_le
             (omap (fun kv => (fun n => (n, kv)) <$> array_index kv.1) o))
  ++ filter (fun kv => array_index kv.1 = None) o.

Section Handlers.

Variable E : platform.

(** An awaited external call: it takes the next call number, and rejects
    when the platform says so. *)
Definition external {A} (answer : nat → state → outcome A * state) : M A :=
  fun s =>
    let n := st_calls s in
    let s' := {| st_calls := S n; st_invites := st_invites s;
                 st_outbox := st_outbox s; st_writes := st_writes s |} in
    match rejects E n with
    | Some e => (Thrown e, s')
    | None => answer n s'
    end.

(** [collection("users").doc(id).get()]; [None] is [!exists]. *)
Definition get_user (id : string) : M (option user) :=
  external (fun _ => ret (users E !! id)).

Definition get_tenant (tenantId : string) : M (option tenant) :=
  external (fun _ => ret (find_doc tenantId (tenants E))).

Definition get_project (tenantId projectId : string) : M (option project) :=
  external (fun _ => ret (find_doc projectId (projects E tenantId))).

Definition get_task (tenantId projectId taskId : string) : M (option task) :=
  external (fun _ => ret (find_doc taskId (tasks E tenantId projectId))).

(** [resend.emails.send(m)]: the call is recorded when it is made, whatever
    comes back. *)
Definition send (m : email) : M send_reply :=
  fun s =>
    external (fun n => ret (mail_reply E n))
      {| st_calls := st_calls s; st_invites := st_invites s;
         st_outbox := st_outbox s ++ [m]; st_writes := st_writes s |}.

(** Field-wise update of a document. *)
Definition apply_patch (patch : list (string * jsval)) (d : doc) : doc :=
  foldr (fun kv acc => <[kv.1 := kv.2]> acc) d patch.

(** [snapshot.ref.update(patch)] on [invites/{inviteId}]; the store refuses
    to update a document that does not exist. *)
Definition update_invite (inviteId : string) (patch : list (string * jsval))
  : M unit :=
  external (fun _ s =>
    match st_invites s !! inviteId with
    | None => (Thrown "NOT_FOUND: no document to update", s)
    | Some d =>
        (Ok tt, {| st_calls := st_calls s;
                   st_invites := <[inviteId := apply_patch patch d]> (st_invites s);
                   st_outbox := st_outbox s;
                   st_writes := st_writes s ++ [(inviteId, patch)] |})
    end).

(** [FieldValue.serverTimestamp()], resolved by the call that writes it. *)
Definition serverTimestamp : M jsval :=
  fun s => (Ok (JTimestamp (server_time E (st_calls s))), s).

(** What a handler returns: [null], [{success: true, emailId?}] or
    [{success: false, error}]. *)
Inductive result :=
| RNull
| RSuccess (emailId : option string)
| RFailure (error : string).

(** *** [sendInviteEmail] *)

Record invite_event := {
  ie_snapshot : option doc;   (* event.data *)
  ie_inviteId : string }.     (* event.params.inviteId *)

(** [doc(v).get()] on [users] for a value read from a document: the store
    client throws on anything but a non-empty string. *)
Definition get_user_js (v : jsval) : M (option user) :=
  match v with
  | JStr s => if String.eqb s "" then throw "invalid document path" else get_user s
  | _ => throw "invalid document path"
  end.

(** [name || email || fallback] of a user that may not exist. *)
Definition display_name (u : option user) (fallback : string) : jsval :=
  match u with
  | Some usr => js_or (u_name usr) (js_or (u_email usr) (JStr fallback))
  | None => JStr fallback
  end.

Definition upper_ascii (c : ascii) : ascii :=
  let n := nat_of_ascii c in
  if (97 <=? n)%nat && (n <=? 122)%nat then ascii_of_nat (n - 32) else c.

(** [role.charAt(0).toUpperCase() + role.slice(1)]; a [TypeError] when
    [role] is not a string.  Only the letters a-z are upper-cased. *)
Definition role_name (role : jsval) : M string :=
  match role with
  | JStr "" => ret ""
  | JStr (String c rest) => ret (String (upper_ascii c) rest)
  | _ => throw "invite.role.charAt is not a function"
  end.

(** [inviterName], from the [invitedBy] of the invite. *)
Definition inviter_name (invite : doc) : M jsval :=
  if truthy (field invite "invitedBy")
  then let! inviterDoc := get_user_js (field invite "invitedBy") in
       ret (display_name inviterDoc "A team member")
  else ret (JStr "A team member").

(** The body of the [try] block.  [new Resend(resendApiKey.value())] only
    builds the client from the secret bound to the function. *)
Definition invite_attempt (invite : doc) (inviteId : string) : M result :=
  let! inviterName := inviter_name invite in
  let! roleName := role_name (field invite "role") in
  let! reply := send {| e_to := field invite "email";
                        e_content := InviteContent (field invite "tenantName")
                                       inviterName roleName inviteId |} in
  match reply with
  | Refused message => throw message
  | Delivered id =>
      let! now := serverTimestamp in
      update_invite inviteId
        [("emailSent", JBool true); ("emailSentAt", now); ("emailId", JStr id)] >>
      ret (RSuccess (Some id))
  end.

(** The body of the [catch] block. *)
Definition invite_failed (inviteId message : string) : M result :=
  let! now := serverTimestamp in
  update_invite inviteId
    [("emailError", JStr message); ("emailAttemptedAt", now)] >>
  ret (RFailure message).

Definition sendInviteEmail (event : invite_event) : M result :=
  match ie_snapshot event with
  | None => ret RNull
  | Some invite =>
    let inviteId := ie_inviteId event in
    if negb (strict_eq (field invite "status") (JStr "pending")) then ret RNull
    else if truthy (field invite "emailSent") then ret RNull
    else try_catch (invite_attempt invite inviteId) (invite_failed inviteId)
  end.

(** An event whose snapshot is the invite as it stands in the store. *)
Definition invite_event_of (inviteId : string) (s : state) : invite_event :=
  {| ie_snapshot := st_invites s !! inviteId; ie_inviteId := inviteId |}.

(** *** The preference test

    [user.emailPreferences?.category === false], written out in three
    handlers with [taskAssigned], [dueReminders] and [comments]. *)
Definition prefers_off (u : user) (category : string) : bool :=
  strict_eq (opt_chain (u_emailPreferences u) category) (JBool false).

(** *** [sendTaskAssignedEmail] *)

Record task_event := {
  te_before : task;          (* event.data.before.data() *)
  te_after : task;           (* event.data.after.data() *)
  te_tenantId : string;
  te_projectId : string;
  te_taskId : string }.

(** [updatedBy]/[createdBy] resolved to a display name. *)
Definition actor_name (actor : option string) : M jsval :=
  match actor with
  | Some a =>
      if String.eqb a "" then ret (JStr "Someone")
      else let! actorDoc := get_user a in ret (display_name actorDoc "Someone")
  | None => ret (JStr "Someone")
  end.

(** A synchronous computation inside a handler. *)
Definition lift {A} (o : outcome A) : M A := fun s => (o, s).

(** *** The template of the assignment mail

    [generateTaskAssignedHtml] is the one template that can throw: it calls
    [taskDescription.substring] when the description is truthy, and
    [priority.charAt] in any case.  Its other arguments are interpolated,
    and a [dueDate] that is not a timestamp only renders as an invalid
    date. *)

(** The fields of the updated task that only this template reads. *)
Record task_details := {
  td_description : jsval;    (* after.description *)
  td_priority : jsval }.     (* after.priority *)

Definition is_string (v : jsval) : bool :=
  match v with JStr _ => true | _ => false end.

(** The template renders: the description is falsy or a string, and the
    priority is a string. *)
Definition renders (d : task_details) : bool :=
  (negb (truthy (td_description d)) || is_string (td_description d))
  && is_string (td_priority d).

(** What calling the template does beside building the HTML; the
    description is looked at first. *)
Definition generateTaskAssignedHtml (d : task_details) : outcome unit :=
  if truthy (td_description d) && negb (is_string (td_description d))
  then Thrown "taskDescription.substring is not a function"
  else match td_priority d with
       | JStr _ => Ok tt
       | JUndefined =>
           Thrown "Cannot read properties of undefined (reading 'charAt')"
       | JNull => Thrown "Cannot read properties of null (reading 'charAt')"
       | _ => Thrown "priority.charAt is not a function"
       end.

(** The body of the handler's [try] block.  The template is called while
    the argument of [resend.emails.send] is built, so before the call is
    made. *)
Definition task_assigned_rendered (d : task_details) (event : task_event)
    (assignee : string) : M result :=
  let after := te_after event in
  let! userDoc := get_user assignee in
  match userDoc with
  | None => ret RNull
  | Some user =>
      if prefers_off user "taskAssigned" then ret RNull
      else
        let! projectDoc := get_project (te_tenantId event)
                             (te_projectId event) in
        let! tenantDoc := get_tenant (te_tenantId event) in
        let project := default {| pj_title := JStr "Unknown Project" |} projectDoc in
        let tenant := default {| tn_name := JStr "Unknown Organization";
                                 tn_slug := JUndefined |} tenantDoc in
        let! assignerName := actor_name (tk_updatedBy after) in
        let! html := lift (generateTaskAssignedHtml d) in
        send {| e_to := u_email user;
                e_content := TaskAssignedContent (tk_title after)
                               (pj_title project) (tn_name tenant)
                               assignerName (te_taskId event) |} >>
        ret (RSuccess None)
  end.

(** [sendTaskAssignedEmail] on an update whose new task has the details
    [d]. *)
Definition sendTaskAssignedEmail_rendered (d : task_details)
    (event : task_event) : M result :=
  let before := te_before event in
  let after := te_after event in
  if bool_decide (tk_assignedTo before = tk_assignedTo after) then ret RNull
  else
    match tk_assignedTo after with
    | None => ret RNull
    | Some assignee =>
        if String.eqb assignee "" then ret RNull
        else try_catch (task_assigned_rendered d event assignee)
                       (fun message => ret (RFailure message))
    end.

(** *** [sendDueDateReminders] *)

(** The three [where] clauses of the task query.  A range filter only
    matches documents that have the field. *)
Definition due_soon (t : task) : bool :=
  match tk_dueDate t with
  | Some due => (today E <=? due)%Z && (due <? dayAfterTomorrow E)%Z
  | None => false
  end
  && negb (String.eqb (tk_status t) "done").

Definition query_tenants : M (list (string * tenant)) :=
  external (fun _ => ret (tenants E)).

Definition query_projects (tenantId : string) : M (list (string * project)) :=
  external (fun _ => ret (projects E tenantId)).

Definition query_due_tasks (tenantId projectId : string)
  : M (list (string * task)) :=
  external (fun _ =>
    ret (filter (fun taskDoc => due_soon taskDoc.2 = true)
                (tasks E tenantId projectId))).

(** The body of [for (const [userId, tasks] of Object.entries(...))]. *)
Definition remind (t : tenant) (entry : string * list reminder_item) : M unit :=
  let (userId, items) := entry in
  let! userDoc := get_user userId in
  match userDoc with
  | None => ret tt
  | Some user =>
      if prefers_off user "dueReminders" then ret tt
      else
        send {| e_to := u_email user;
                e_content := DueReminderContent (js_or (u_name user) (JStr "there"))
                               (tn_name t) (tn_slug t) items |} >>
        ret tt
  end.

(** The body of [for (const projectDoc of projectsSnapshot.docs)]. *)
Definition remind_project (tenantId : string) (t : tenant)
    (projectDoc : string * project) : M unit :=
  let (projectId, p) := projectDoc in
  let! taskDocs := query_due_tasks tenantId projectId in
  let! tasksByAssignee := lift (group_tasks p projectId [] taskDocs) in
  for_each (object_entries tasksByAssignee) (remind t).

(** The body of [for (const tenantDoc of tenantsSnapshot.docs)]. *)
Definition remind_tenant (tenantDoc : string * tenant) : M unit :=
  let (tenantId, t) := tenantDoc in
  let! projectDocs := query_projects tenantId in
  for_each projectDocs (remind_project tenantId t).

Definition sendDueDateReminders : M result :=
  try_catch
    (let! tenantDocs := query_tenants in
     for_each tenantDocs remind_tenant >>
     ret (RSuccess None))
    (fun message => ret (RFailure message)).

(** *** [sendCommentNotification] *)

Record comment_event := {
  ce_comment : comment;      (* event.data.data() *)
  ce_tenantId : string;
  ce_projectId : string;
  ce_taskId : string }.

(** The body of [for (const userId of usersToNotify)]. *)
Definition notify (c : content) (userId : string) : M unit :=
  let! userDoc := get_user userId in
  match userDoc with
  | None => ret tt
  | Some user =>
      if prefers_off user "comments" then ret tt
      else send {| e_to := u_email user; e_content := c |} >> ret tt
  end.

Definition comment_attempt (event : comment_event) : M result :=
  let c := ce_comment event in
  let! taskDoc := get_task (ce_tenantId event) (ce_projectId event)
                    (ce_taskId event) in
  match taskDoc with
  | None => ret RNull
  | Some t =>
      let! projectDoc := get_project (ce_tenantId event) (ce_projectId event) in
      let! tenantDoc := get_tenant (ce_tenantId event) in
      let project := default {| pj_title := JStr "Unknown Project" |} projectDoc in
      let tenant := default {| tn_name := JStr "Unknown";
                               tn_slug := JStr "unknown" |} tenantDoc in
      let! commenterName := actor_name (cm_createdBy c) in
      let usersToNotify := comment_recipients t c in
      for_each usersToNotify
        (notify (CommentContent (tk_title t) (pj_title project) (tn_name tenant)
                   commenterName (clean_mentions (cm_text c)))) >>
      ret (RSuccess None)
  end.

Definition sendCommentNotification (event : comment_event) : M result :=
  try_catch (comment_attempt event) (fun message => ret (RFailure message)).

End Handlers.

(** The platform with every user's preferences replaced: user [id] gets
    [prefs id u] for [emailPreferences]; nothing else changes. *)
Definition with_preferences (prefs : string → user → jsval) (E : platform)
  : platform :=
  {| users := map_imap (fun id u =>
                Some {| u_name := u_name u; u_email := u_email u;
                        u_emailPreferences := prefs id u |}) (users E);
     tenants := tenants E; projects := projects E; tasks := tasks E;
     today := today E; dayAfterTomorrow := dayAfterTomorrow E;
     rejects := rejects E; mail_reply := mail_reply E;
     server_time := server_time E |}.

(** ** What the fan-out handlers send when nothing is rejected *)

Section Digests.

Variable E : platform.

(** The tasks the query of a project returns. *)
Definition due_tasks (tenantId projectId : string) : list (string * task) :=
  filter (fun taskDoc => due_soon E taskDoc.2 = true) (tasks E tenantId projectId).

(** The non-empty [assignedTo] of a task. *)
Definition assignee_of (t : task) : option string :=
  match tk_assignedTo t with
  | Some a => if String.eqb a "" then None else Some a
  | None => None
  end.

(** No task is assigned to an identifier that names an inherited property:
    the grouping of such a task throws. *)
Definition plain_assignees (taskDocs : list (string * task)) : Prop :=
  ∀ taskDoc a, taskDoc ∈ taskDocs → assignee_of taskDoc.2 = Some a →
               a ∉ inherited_keys.

(** The lines for one user among the tasks of one project, in the order of
    the tasks. *)
Definition items_for (p : project) (projectId userId : string)
    (taskDocs : list (string * task)) : list reminder_item :=
  (fun taskDoc => {| ri_task := taskDoc.2; ri_id := taskDoc.1;
                     ri_projectTitle := pj_title p;
                     ri_projectId := projectId |})
  <$> filter (fun taskDoc => assignee_of taskDoc.2 = Some userId) taskDocs.

(** The digest for one user and a list of lines, unless the user does not
    exist or has turned reminders off. *)
Definition digest_mail (t : tenant) (entry : string * list reminder_item)
  : option email :=
  match users E !! entry.1 with
  | Some user =>
      if prefers_off user "dueReminders" then None
      else Some {| e_to := u_email user;
                   e_content := DueReminderContent
                                  (js_or (u_name user) (JStr "there"))
                                  (tn_name t) (tn_slug t) entry.2 |}
  | None => None
  end.

(** The digests of one project: one for every entry of its table. *)
Definition project_digests (tenantDoc : string * tenant)
    (projectDoc : string * project) : list email :=
  match group_tasks projectDoc.2 projectDoc.1 []
          (due_tasks tenantDoc.1 projectDoc.1) with
  | Ok tasksByAssignee =>
      omap (digest_mail tenantDoc.2) (object_entries tasksByAssignee)
  | Thrown _ => []
  end.

(** The digests of a whole run. *)
Definition run_digests : list email :=
  tenantDoc ← tenants E;
  projectDoc ← projects E tenantDoc.1;
  project_digests tenantDoc projectDoc.

(** No task the run looks at is assigned to an inherited property name. *)
Definition plain_run : Prop :=
  ∀ tenantDoc projectDoc,
    tenantDoc ∈ tenants E → projectDoc ∈ projects E tenantDoc.1 →
    plain_assignees (due_tasks tenantDoc.1 projectDoc.1).

(** The distinct assignees among the due tasks of a project. *)
Definition due_assignees (tenantId projectId : string) : list string :=
  distinct (omap (fun taskDoc => assignee_of taskDoc.2)
                 (due_tasks tenantId projectId)).

(** A task qualifies for the reminder, in the specification's words: its
    due date lies in [[today 00:00, today+2 00:00)] and it is not done. *)
Definition qualifies (t : task) : Prop :=
  ∃ due, tk_dueDate t = Some due
         ∧ (today E ≤ due < dayAfterTomorrow E)%Z
         ∧ tk_status t ≠ "done".

(** A user who allows reminders and is the non-empty assignee of a
    qualifying task of some project of some tenant. *)
Definition reminder_recipient (userId : string) : Prop :=
  userId ≠ ""
  ∧ (∃ user, users E !! userId = Some user
             ∧ prefers_off user "dueReminders" = false)
  ∧ ∃ tenantDoc projectDoc taskDoc,
      tenantDoc ∈ tenants E ∧ projectDoc ∈ projects E tenantDoc.1
      ∧ taskDoc ∈ tasks E tenantDoc.1 projectDoc.1
      ∧ qualifies taskDoc.2 ∧ tk_assignedTo taskDoc.2 = Some userId.

(** [m] is a digest sent to the user [userId]: it goes to that user's
    address and lists tasks assigned to that user. *)
Definition digest_of (userId : string) (m : email) : Prop :=
  ∃ user name tenantName tenantSlug items,
    users E !! userId = Some user
    ∧ m = {| e_to := u_email user;
             e_content := DueReminderContent name tenantName tenantSlug items |}
    ∧ items ≠ []
    ∧ Forall (fun item => tk_assignedTo (ri_task item) = Some userId) items.

(** The notification of one recipient of a comment. *)
Definition comment_mail (c : content) (userId : string) : option email :=
  match users E !! userId with
  | Some user =>
      if prefers_off user "comments" then None
      else Some {| e_to := u_email user; e_content := c |}
  | None => None
  end.

(** The display name [actor_name] resolves to. *)
Definition actor_display (actor : option string) : jsval :=
  match actor with
  | Some a => if String.eqb a "" then JStr "Someone"
              else display_name (users E !! a) "Someone"
  | None => JStr "Someone"
  end.

(** The template arguments of the notifications of a comment on [t]. *)
Definition comment_content (event : comment_event) (t : task) : content :=
  let project := default {| pj_title := JStr "Unknown Project" |}
                   (find_doc (ce_projectId event)
                             (projects E (ce_tenantId event))) in
  let tenant := default {| tn_name := JStr "Unknown"; tn_slug := JStr "unknown" |}
                  (find_doc (ce_tenantId event) (tenants E)) in
  CommentContent (tk_title t) (pj_title project) (tn_name tenant)
    (actor_display (cm_createdBy (ce_comment event)))
    (clean_mentions (cm_text (ce_comment event))).

(** The notifications of a comment on [t]: one for every recipient who
    exists and has not turned comment mails off. *)
Definition comment_mails (event : comment_event) (t : task) : list email :=
  omap (comment_mail (comment_content event t))
       (comment_recipients t (ce_comment event)).

End Digests.

(** ** Predicates on runs *)

(** Two states that differ at most in the number of calls made. *)
Definition quiet (s s' : state) : Prop :=
  st_invites s' = st_invites s ∧ st_outbox s' = st_outbox s
  ∧ st_writes s' = st_writes s.

(** [m] returns [a] after exactly the delivery calls [mails], writing
    nothing. *)
Definition delivers {A} (m : M A) (a : A) (mails : list email) : Prop :=
  ∀ s, ∃ s', m s = (Ok a, s')
             ∧ st_outbox s' = st_outbox s ++ mails
             ∧ st_invites s' = st_invites s ∧ st_writes s' = st_writes s.

(** Whatever is rejected, [m] returns [a] after exactly the delivery calls
    [mails], or throws after the first few of them. *)
Definition attempts {A} (m : M A) (a : A) (mails : list email) : Prop :=
  ∀ s o s', m s = (o, s') →
    ∃ sent, st_outbox s' = st_outbox s ++ sent
            ∧ (o = Ok a ∧ sent = mails
               ∨ (∃ e, o = Thrown e) ∧ sent `prefix_of` mails).

(** Every call [m] makes gets the next call number, and a call that is
    rejected is the last one: [m] throws the rejection there. *)
Definition ends_at_rejection (E : platform) {A} (m : M A) : Prop :=
  ∀ s o s', m s = (o, s') →
    (st_calls s ≤ st_calls s')%nat
    ∧ ∀ n e, (st_calls s ≤ n < st_calls s')%nat → rejects E n = Some e →
             o = Thrown e ∧ st_calls s' = S n.

(** The lines of an assignee in the table, none when there is no entry. *)
Definition table_items (a : string) (o : assignee_table) : list reminder_item :=
  default [] (find_doc a o).

(** ** Further notions for the handlers *)

(** The invite handler's guards reject the event: there is no snapshot, the
    status is not ["pending"], or [emailSent] is truthy. *)
Definition invite_skipped (event : invite_event) : Prop :=
  match ie_snapshot event with
  | None => True
  | Some invite =>
      field invite "status" ≠ JStr "pending"
      ∨ truthy (field invite "emailSent") = true
  end.

(** The fields the invite handler ever writes. *)
Definition delivery_fields : list string :=
  ["emailSent"; "emailSentAt"; "emailId"; "emailError"; "emailAttemptedAt"].


(** [m] makes at most [k] external calls. *)
Definition calls_at_most {A} (k : nat) (m : M A) : Prop :=
  ∀ s o s', m s = (o, s') → (st_calls s' ≤ st_calls s + k)%nat.

(** The [TypeError] of the reminder's grouping. *)
Definition push_error : string :=
  "tasksByAssignee[task.assignedTo].push is not a function".

(** [m] throws [e], from every state. *)
Definition fails_with {A} (e : string) (m : M A) : Prop :=
  ∀ s, ∃ s', m s = (Thrown e, s').

(** [m] returns, or throws [e]. *)
Definition fails_only_with {A} (e : string) (m : M A) : Prop :=
  ∀ s o s', m s = (o, s') → (∃ a, o = Ok a) ∨ o = Thrown e.

(** The text a piece was cut from. *)
Definition piece_source (p : piece) : string :=
  match p with
  | Plain c => String c ""
  | Mention label userId => markup label userId
  end.

(** The pieces put back together. *)
Definition pieces_source (ps : list piece) : string :=
  foldr (fun p acc => piece_source p +:+ acc) "" ps.

Section TaskMail.

Variable E : platform.

(** The mail of a task assignment to the user [usr], with the placeholders
    for a project or tenant document that does not exist. *)
Definition task_assigned_mail (event : task_event) (usr : user) : email :=
  let project := default {| pj_title := JStr "Unknown Project" |}
                   (find_doc (te_projectId event)
                             (projects E (te_tenantId event))) in
  let tenant := default {| tn_name := JStr "Unknown Organization";
                           tn_slug := JUndefined |}
                  (find_doc (te_tenantId event) (tenants E)) in
  {| e_to := u_email usr;
     e_content := TaskAssignedContent (tk_title (te_after event))
                    (pj_title project) (tn_name tenant)
                    (actor_display E (tk_updatedBy (te_after event)))
                    (te_taskId event) |}.

(** The mails of an assignment to [assignee]: one, unless the user does not
    exist or has turned assignment mails off. *)
Definition task_mails (event : task_event) (assignee : string) : list email :=
  match users E !! assignee with
  | Some usr =>
      if prefers_off usr "taskAssigned" then []
      else [task_assigned_mail event usr]
  | None => []
  end.

(** What the [try] block returns when nothing throws. *)
Definition task_result (assignee : string) : result :=
  match users E !! assignee with
  | Some usr => if prefers_off usr "taskAssigned" then RNull else RSuccess None
  | None => RNull
  end.

End TaskMail.

(** ** Scenarios *)

Definition no_calls_yet (invites : gmap string doc) : state :=
  {| st_calls := 0; st_invites := invites; st_outbox := []; st_writes := [] |}.

Definition a_user (name email : string) (prefs : jsval) : user :=
  {| u_name := JStr name; u_email := JStr email; u_emailPreferences := prefs |}.

Definition some_users : gmap string user :=
  {[ "u1" := a_user "Ann" "ann@x.lu" JUndefined;
     "u2" := a_user "Bob" "bob@x.lu" JNull;
     "u3" := a_user "Cara" "cara@x.lu" (JObj {[ "comments" := JBool true ]}) ]}.

Definition a_task (assignee : option string) (due : Z) : task :=
  {| tk_title := JStr "Ship it"; tk_assignedTo := assignee;
     tk_updatedBy := Some "u1"; tk_dueDate := Some due; tk_status := "todo" |}.

(** One tenant with the projects [p1] and [p2]; [today] is 0 and the day
    after tomorrow is 48.  [u2] has a task due today and one due tomorrow in
    [p1], [u3] one due today in [p1], and [u2] one more due today in [p2]. *)
Definition a_platform (rejected : nat → option string) (reply : send_reply)
  : platform :=
  {| users := some_users;
     tenants := [("t1", {| tn_name := JStr "Acme"; tn_slug := JStr "acme" |})];
     projects := fun _ => [("p1", {| pj_title := JStr "Launch" |});
                           ("p2", {| pj_title := JStr "Upkeep" |})];
     tasks := fun _ projectId =>
       if String.eqb projectId "p1"
       then [("k1", a_task (Some "u2") 8); ("k2", a_task (Some "u2") 32);
             ("k3", a_task (Some "u3") 9); ("k4", a_task (Some "u3") 60)]
       else [("k5", a_task (Some "u2") 10)];
     today := 0; dayAfterTomorrow := 48;
     rejects := rejected;
     mail_reply := fun _ => reply;
     server_time := fun n => Z.of_nat n |}.

(** The same with [p1] as the only project. *)
Definition one_project (E : platform) : platform :=
  {| users := users E; tenants := tenants E;
     projects := fun _ => [("p1", {| pj_title := JStr "Launch" |})];
     tasks := tasks E; today := today E; dayAfterTomorrow := dayAfterTomorrow E;
     rejects := rejects E; mail_reply := mail_reply E;
     server_time := server_time E |}.

Definition never : nat → option string := fun _ => None.

(** Only the call numbered [n] is rejected. *)
Definition only (n : nat) (message : string) : nat → option string :=
  fun k => if Nat.eqb k n then Some message else None.

Definition an_invite : doc :=
  {[ "status" := JStr "pending"; "emailSent" := JBool false;
     "email" := JStr "new@x.lu"; "role" := JStr "member";
     "tenantName" := JStr "Acme"; "invitedBy" := JStr "u1" ]}.

Definition invite_created : invite_event :=
  {| ie_snapshot := Some an_invite; ie_inviteId := "i1" |}.

Definition invite_stored : state := no_calls_yet {[ "i1" := an_invite ]}.

(** [u1] assigns an unassigned task to themselves. *)
Definition self_assignment : task_event :=
  {| te_before := a_task None 8;
     te_after := a_task (Some "u1") 8;
     te_tenantId := "t1"; te_projectId := "p1"; te_taskId := "k1" |}.

(** [u1] comments on [k1], assigned to [u2], and mentions [u3]. *)
Definition a_comment : comment_event :=
  {| ce_comment := {| cm_text := "over to @[Cara](u3)";
                      cm_createdBy := Some "u1" |};
     ce_tenantId := "t1"; ce_projectId := "p1"; ce_taskId := "k1" |}.

(** The address and the number of task lines of a mail. *)
Definition summary (m : email) : jsval * nat :=
  (e_to m,
   match e_content m with
   | DueReminderContent _ _ _ items => List.length items
   | _ => 0
   end).

Definition every_preference_off : string → user → jsval :=
  fun _ _ => JObj {[ "taskAssigned" := JBool false;
                     "dueReminders" := JBool false;
                     "comments" := JBool false ]}.

(** The details of a task with a description and a priority, and of a task
    document that has neither. *)
Definition some_details : task_details :=
  {| td_description := JStr "Before the demo"; td_priority := JStr "high" |}.

Definition no_priority : task_details :=
  {| td_description := JUndefined; td_priority := JUndefined |}.

(** [u1] assigns a task to [u4], who has no user document. *)
Definition assignment_to_stranger : task_event :=
  {| te_before := a_task None 8;
     te_after := a_task (Some "u4") 8;
     te_tenantId := "t1"; te_projectId := "p1"; te_taskId := "k1" |}.

(** The same platform where the only task of every project is due and
    assigned to [constructor]. *)
Definition an_inherited_assignee (E : platform) : platform :=
  {| users := users E; tenants := tenants E; projects := projects E;
     tasks := fun _ _ => [("k9", a_task (Some "constructor") 8)];
     today := today E; dayAfterTomorrow := dayAfterTomorrow E;
     rejects := rejects E; mail_reply := mail_reply E;
     server_time := server_time E |}.

(** * Properties *)

(** ** Values *)

Lemma strict_eq_false_iff (v : jsval) :
  strict_eq v (JBool false) = true ↔ v = JBool false.
Proof.
  destruct v as [| |[]| | | |]; simpl; split; intros H; try done.
Qed.

Lemma strict_eq_str_iff (v : jsval) (t : string) :
  strict_eq v (JStr t) = true ↔ v = JStr t.
Proof.
  destruct v; simpl; split; intros H; try done.
  - apply String.eqb_eq in H. by subst.
  - inversion H; subst. apply String.eqb_refl.
Qed.

(** ** The preference gate *)

(** C5: the gate denies exactly when the preferences are an object whose
    field for the category is the boolean [false]; a missing or [null]
    preferences object, a missing field, and any other field value allow. *)
Theorem preference_gate_opt_out (u : user) (category : string) :
  (prefers_off u category = true ↔
     ∃ fields, u_emailPreferences u = JObj fields
               ∧ fields !! category = Some (JBool false))
  ∧ (u_emailPreferences u = JUndefined → prefers_off u category = false)
  ∧ (u_emailPreferences u = JNull → prefers_off u category = false)
  ∧ (∀ fields, u_emailPreferences u = JObj fields →
       fields !! category = None → prefers_off u category = false)
  ∧ (∀ fields v, u_emailPreferences u = JObj fields →
       fields !! category = Some v → v ≠ JBool false →
       prefers_off u category = false).
Proof.
  assert (Hiff : prefers_off u category = true ↔
     ∃ fields, u_emailPreferences u = JObj fields
               ∧ fields !! category = Some (JBool false)).
  { unfold prefers_off. rewrite strict_eq_false_iff. split.
    - destruct (u_emailPreferences u) as [| | | | | |fields]; simpl; try done.
      unfold field. destruct (fields !! category) as [v|] eqn:Hv; simpl; [|done].
      intros ->. by exists fields.
    - intros (fields & -> & Hv). simpl. unfold field. by rewrite Hv. }
  split; [exact Hiff|].
  repeat split.
  - intros Hp. apply not_true_is_false. rewrite Hiff.
    intros (fields & Hf & _). congruence.
  - intros Hp. apply not_true_is_false. rewrite Hiff.
    intros (fields & Hf & _). congruence.
  - intros fields Hp Hnone. apply not_true_is_false. rewrite Hiff.
    intros (fields' & Hf & Hv). congruence.
  - intros fields v Hp Hsome Hne. apply not_true_is_false. rewrite Hiff.
    intros (fields' & Hf & Hv). congruence.
Qed.

(** ** External calls *)

Lemma quiet_refl (s : state) : quiet s s.
Proof. done. Qed.

Lemma quiet_trans (s1 s2 s3 : state) : quiet s1 s2 → quiet s2 s3 → quiet s1 s3.
Proof. unfold quiet. intros (-> & -> & ->) (-> & -> & ->). done. Qed.

Lemma bind_ok {A B} (m : M A) (k : A → M B) (s s1 : state) (a : A) :
  m s = (Ok a, s1) → bind m k s = k a s1.
Proof. unfold bind. by intros ->. Qed.

Lemma bind_thrown {A B} (m : M A) (k : A → M B) (s s1 : state) (e : string) :
  m s = (Thrown e, s1) → bind m k s = (Thrown e, s1).
Proof. unfold bind. by intros ->. Qed.

Section Calls.

Variable E : platform.

(** A call that only reads: it answers unless the platform rejects it. *)
Lemma read_call {A} (a : A) (s s' : state) (o : outcome A) :
  external E (fun _ => ret a) s = (o, s') →
  quiet s s' ∧ st_calls s' = S (st_calls s)
  ∧ match rejects E (st_calls s) with
    | Some e => o = Thrown e
    | None => o = Ok a
    end.
Proof.
  unfold external, ret. destruct (rejects E (st_calls s)); intros [= <- <-]; done.
Qed.

Lemma read_call_ok {A} (a : A) (s : state) :
  rejects E (st_calls s) = None →
  ∃ s', external E (fun _ => ret a) s = (Ok a, s')
        ∧ quiet s s' ∧ st_calls s' = S (st_calls s).
Proof. unfold external, ret. intros ->. eexists. done. Qed.

Lemma send_call (m : email) (s s' : state) (o : outcome send_reply) :
  send E m s = (o, s') →
  st_invites s' = st_invites s ∧ st_writes s' = st_writes s
  ∧ st_outbox s' = st_outbox s ++ [m] ∧ st_calls s' = S (st_calls s)
  ∧ match rejects E (st_calls s) with
    | Some e => o = Thrown e
    | None => o = Ok (mail_reply E (st_calls s))
    end.
Proof.
  unfold send, external, ret. simpl.
  destruct (rejects E (st_calls s)); intros [= <- <-]; done.
Qed.

Lemma update_call (inviteId : string) (patch : list (string * jsval))
    (s s' : state) (o : outcome unit) :
  update_invite E inviteId patch s = (o, s') →
  st_outbox s' = st_outbox s ∧ st_calls s' = S (st_calls s)
  ∧ ((∃ e, o = Thrown e ∧ st_invites s' = st_invites s
           ∧ st_writes s' = st_writes s
           ∧ (rejects E (st_calls s) = Some e
              ∨ rejects E (st_calls s) = None
                ∧ st_invites s !! inviteId = None))
     ∨ (∃ d, o = Ok tt ∧ rejects E (st_calls s) = None
           ∧ st_invites s !! inviteId = Some d
           ∧ st_invites s' = <[inviteId := apply_patch patch d]> (st_invites s)
           ∧ st_writes s' = st_writes s ++ [(inviteId, patch)])).
Proof.
  unfold update_invite, external. simpl.
  destruct (rejects E (st_calls s)) as [e|] eqn:Hr.
  - intros [= <- <-]. simpl. eauto 10.
  - destruct (st_invites s !! inviteId) as [d|] eqn:Hd; intros [= <- <-]; simpl.
    + split; [done|]. split; [done|]. right. exists d. done.
    + split; [done|]. split; [done|]. left. eauto 10.
Qed.

Lemma get_user_js_quiet (v : jsval) (s s' : state) (o : outcome (option user)) :
  get_user_js E v s = (o, s') → quiet s s'.
Proof.
  unfold get_user_js, get_user, throw.
  destruct v as [| | | |id| |]; try (intros [= <- <-]; done).
  destruct (String.eqb id ""); [intros [= <- <-]; done|].
  intros H. by apply read_call in H as (? & _).
Qed.

Lemma inviter_name_quiet (invite : doc) (s s' : state) (o : outcome jsval) :
  inviter_name E invite s = (o, s') → quiet s s'.
Proof.
  unfold inviter_name, bind, ret.
  destruct (truthy _); [|intros [= <- <-]; done].
  destruct (get_user_js E _ s) as [[u|e] s1] eqn:Hu;
    intros [= <- <-]; by apply get_user_js_quiet in Hu.
Qed.

Lemma role_name_pure (role : jsval) (s s' : state) (o : outcome string) :
  role_name role s = (o, s') → s' = s.
Proof.
  unfold role_name, ret, throw.
  destruct role as [| | | |[|c r]| |]; intros [= <- <-]; done.
Qed.

Lemma actor_name_quiet (actor : option string) (s s' : state) (o : outcome jsval) :
  actor_name E actor s = (o, s') → quiet s s'.
Proof.
  unfold actor_name, bind, ret, get_user.
  destruct actor as [a|]; [|intros [= <- <-]; done].
  destruct (String.eqb a ""); [intros [= <- <-]; done|].
  destruct (external E _ s) as [[u|e] s1] eqn:Hu;
    intros [= <- <-]; by apply read_call in Hu as (? & _).
Qed.

Lemma actor_name_ok (actor : option string) (s : state) :
  rejects E (st_calls s) = None →
  ∃ name s', actor_name E actor s = (Ok name, s') ∧ quiet s s'.
Proof.
  intros Hr. unfold actor_name, bind, ret, get_user.
  destruct actor as [a|]; [|by eexists _, _].
  destruct (String.eqb a ""); [by eexists _, _|].
  destruct (read_call_ok (users E !! a) s Hr) as (s' & -> & Hq & _).
  by eexists _, _.
Qed.

End Calls.

(** ** The invite handler *)

(** The [try] block of the invite handler either throws, leaving every
    invite document as it was, after at most one delivery call; or it made
    exactly one delivery call and then marked the invite as sent. *)
Lemma invite_attempt_cases (E : platform) (invite : doc) (inviteId : string)
    (s s' : state) (o : outcome result) :
  invite_attempt E invite inviteId s = (o, s') →
  (∃ e, o = Thrown e
        ∧ st_invites s' = st_invites s ∧ st_writes s' = st_writes s
        ∧ (st_outbox s' = st_outbox s
           ∨ ∃ c, st_outbox s' = st_outbox s
                    ++ [{| e_to := field invite "email"; e_content := c |}]))
  ∨ (∃ id c d now,
        let patch := [("emailSent", JBool true); ("emailSentAt", now);
                      ("emailId", JStr id)] in
        o = Ok (RSuccess (Some id))
        ∧ st_outbox s' = st_outbox s
            ++ [{| e_to := field invite "email"; e_content := c |}]
        ∧ st_invites s !! inviteId = Some d
        ∧ st_invites s' = <[inviteId := apply_patch patch d]> (st_invites s)
        ∧ st_writes s' = st_writes s ++ [(inviteId, patch)]).
Proof.
  unfold invite_attempt, bind at 1.
  destruct (inviter_name E invite s) as [[name|e] s1] eqn:H1;
    apply inviter_name_quiet in H1 as (Hi1 & Ho1 & Hw1);
    [|intros [= <- <-]; left; eauto 10].
  unfold bind at 1.
  destruct (role_name _ s1) as [[role|e] s2] eqn:H2;
    apply role_name_pure in H2 as ->;
    [|intros [= <- <-]; left; eauto 10].
  unfold bind at 1.
  destruct (send E _ s1) as [[reply|e] s3] eqn:H3;
    apply send_call in H3 as (Hi3 & Hw3 & Ho3 & Hc3 & _);
    [|intros [= <- <-]; left; exists e; rewrite Hi3, Hw3, Ho3, Ho1; eauto 10].
  destruct reply as [id|message].
  - unfold bind at 1, serverTimestamp. unfold bind at 1.
    destruct (update_invite E _ _ s3) as [[[]|e] s4] eqn:H4;
      apply update_call in H4 as (Ho4 & Hc4 & [(e' & He & Hi4 & Hw4 & _)|(d & He & _ & Hd & Hi4 & Hw4)]);
      try done; simplify_eq; intros [= <- <-].
    + right. eexists id, _, d, _. simpl.
      rewrite Ho4, Ho3, Ho1, Hi4, Hw4, Hi3, Hw3, Hi1, Hw1.
      rewrite Hi3, Hi1 in Hd. done.
    + left. exists e'. rewrite Hi4, Hw4, Ho4, Hi3, Hw3, Ho3, Ho1. eauto 10.
  - unfold throw. intros [= <- <-]. left. exists message.
    rewrite Hi3, Hw3, Ho3, Ho1. eauto 10.
Qed.

(** The [catch] block makes no delivery call; it either records the
    failure and returns it, or its own write fails and the error leaves the
    handler. *)
Lemma invite_failed_cases (E : platform) (inviteId message : string)
    (s s' : state) (o : outcome result) :
  invite_failed E inviteId message s = (o, s') →
  let patch := [("emailError", JStr message);
                ("emailAttemptedAt", JTimestamp (server_time E (st_calls s)))] in
  st_outbox s' = st_outbox s
  ∧ ((∃ e, o = Thrown e ∧ st_invites s' = st_invites s
          ∧ st_writes s' = st_writes s
          ∧ (rejects E (st_calls s) = Some e
             ∨ rejects E (st_calls s) = None ∧ st_invites s !! inviteId = None))
     ∨ (∃ d, o = Ok (RFailure message) ∧ rejects E (st_calls s) = None
          ∧ st_invites s !! inviteId = Some d
          ∧ st_invites s' = <[inviteId := apply_patch patch d]> (st_invites s)
          ∧ st_writes s' = st_writes s ++ [(inviteId, patch)])).
Proof.
  unfold invite_failed, bind at 1, serverTimestamp. unfold bind at 1.
  destruct (update_invite E _ _ s) as [[[]|e] s1] eqn:H1;
    apply update_call in H1
      as (Ho & _ & [(e' & He & Hi & Hw & Hwhy)|(d & He & Hr & Hd & Hi & Hw)]);
    simplify_eq; intros [= <- <-]; simpl; (split; [done|]).
  - right. exists d. done.
  - left. exists e'. done.
Qed.

Lemma invite_guard_skips (E : platform) (event : invite_event) (invite : doc)
    (s : state) :
  ie_snapshot event = Some invite →
  field invite "status" ≠ JStr "pending" ∨ truthy (field invite "emailSent") = true →
  sendInviteEmail E event s = (Ok RNull, s).
Proof.
  intros Hsnap Hguard. unfold sendInviteEmail. rewrite Hsnap.
  destruct (strict_eq (field invite "status") (JStr "pending")) eqn:Hst; simpl;
    [|done].
  apply strict_eq_str_iff in Hst.
  destruct Hguard as [Hne| ->]; done.
Qed.

(** After the guards, once the inviter's name and the role are there, the
    handler makes its delivery call, whatever happens afterwards. *)
Lemma invite_delivery_attempted (E : platform) (event : invite_event)
    (invite : doc) (s s1 : state) (name : jsval) (role : string) :
  ie_snapshot event = Some invite →
  field invite "status" = JStr "pending" →
  truthy (field invite "emailSent") = false →
  inviter_name E invite s = (Ok name, s1) →
  field invite "role" = JStr role →
  ∃ c o s2, sendInviteEmail E event s = (o, s2)
            ∧ st_outbox s2 = st_outbox s
                ++ [{| e_to := field invite "email"; e_content := c |}].
Proof.
  intros Hsnap Hst Hsent Hname Hrole.
  unfold sendInviteEmail. rewrite Hsnap, Hst, Hsent. simpl.
  unfold try_catch.
  destruct (invite_attempt E invite (ie_inviteId event) s) as [[r|e] s2] eqn:Ha.
  - apply invite_attempt_cases in Ha
      as [(e' & He & _)|(id & c & d & now & _ & Ho & _)]; [done|]. eauto.
  - pose proof Ha as Hcases. revert Ha.
    unfold invite_attempt, bind at 1. rewrite Hname, Hrole.
    apply inviter_name_quiet in Hname as (_ & Ho1 & _).
    unfold bind at 1.
    replace (role_name (JStr role) s1) with
      (@Ok string (match role with "" => "" | String c r => String (upper_ascii c) r end), s1)
      by (by destruct role).
    unfold bind at 1.
    destruct (send E _ s1) as [[reply|e'] s3] eqn:H3.
    + apply send_call in H3 as (_ & _ & Ho3 & _).
      intros Ha.
      assert (Ho2 : st_outbox s2 = st_outbox s3).
      { destruct reply as [id|message].
        - revert Ha. unfold bind at 1, serverTimestamp. unfold bind at 1.
          destruct (update_invite E _ _ s3) as [[[]|e''] s4] eqn:H4;
            apply update_call in H4 as (Ho4 & _); intros [= <- <-]. done.
        - revert Ha. unfold throw. by intros [= <- <-]. }
      destruct (invite_failed E (ie_inviteId event) e s2) as [o s5] eqn:Hf.
      apply invite_failed_cases in Hf as (Ho5 & _).
      eexists _, o, s5. split; [done|]. by rewrite Ho5, Ho2, Ho3, Ho1.
    + apply send_call in H3 as (_ & _ & Ho3 & _). intros [= <- <-].
      destruct (invite_failed E (ie_inviteId event) e' s3) as [o s5] eqn:Hf.
      apply invite_failed_cases in Hf as (Ho5 & _).
      eexists _, o, s5. split; [done|]. by rewrite Ho5, Ho3, Ho1.
Qed.

Lemma display_name_with_preferences (prefs : string → user → jsval)
    (E : platform) (id fallback : string) :
  display_name (users (with_preferences prefs E) !! id) fallback
  = display_name (users E !! id) fallback.
Proof.
  simpl. rewrite map_lookup_imap. by destruct (users E !! id).
Qed.

Lemma inviter_name_with_preferences (prefs : string → user → jsval)
    (E : platform) (invite : doc) (s : state) :
  inviter_name (with_preferences prefs E) invite s = inviter_name E invite s.
Proof.
  unfold inviter_name, bind, get_user_js, get_user, external, ret, throw.
  destruct (truthy _); [|done].
  destruct (field invite "invitedBy") as [| | | |id| |]; try done.
  destruct (String.eqb id ""); [done|].
  cbn [rejects with_preferences].
  destruct (rejects E (st_calls s)); [done|].
  by rewrite display_name_with_preferences.
Qed.

Lemma invite_handler_with_preferences (prefs : string → user → jsval)
    (E : platform) (event : invite_event) (s : state) :
  sendInviteEmail (with_preferences prefs E) event s = sendInviteEmail E event s.
Proof.
  unfold sendInviteEmail.
  destruct (ie_snapshot event) as [invite|]; [|done].
  destruct (negb _); [done|]. destruct (truthy _); [done|].
  unfold try_catch, invite_attempt, bind at 1.
  rewrite inviter_name_with_preferences.
  reflexivity.
Qed.

(** C10: no preference can suppress an invite email.  The handler behaves
    the same whatever [emailPreferences] the user records hold; once the
    guard is passed it makes at most one delivery call, to the invite's
    address; and when the inviter lookup is not rejected and the role is a
    string, it makes exactly one. *)
Theorem invite_ignores_preferences (prefs : string → user → jsval)
    (E : platform) (event : invite_event) (invite : doc) (s : state) :
  ie_snapshot event = Some invite →
  field invite "status" = JStr "pending" →
  truthy (field invite "emailSent") = false →
  sendInviteEmail (with_preferences prefs E) event s = sendInviteEmail E event s
  ∧ (∀ o s', sendInviteEmail (with_preferences prefs E) event s = (o, s') →
       st_outbox s' = st_outbox s
       ∨ ∃ c, st_outbox s' = st_outbox s
                ++ [{| e_to := field invite "email"; e_content := c |}])
  ∧ (rejects E (st_calls s) = None →
     (truthy (field invite "invitedBy") = false
      ∨ ∃ id, field invite "invitedBy" = JStr id) →
     (∃ role, field invite "role" = JStr role) →
     ∃ c o s2,
       sendInviteEmail (with_preferences prefs E) event s = (o, s2)
       ∧ st_outbox s2 = st_outbox s
           ++ [{| e_to := field invite "email"; e_content := c |}]).
Proof.
  intros Hsnap Hst Hsent.
  split; [apply invite_handler_with_preferences|]. split.
  - intros o s'. rewrite invite_handler_with_preferences.
    unfold sendInviteEmail. rewrite Hsnap, Hst, Hsent. simpl.
    unfold try_catch.
    destruct (invite_attempt E invite (ie_inviteId event) s) as [[r|e] s1] eqn:Ha;
      apply invite_attempt_cases in Ha
        as [(e' & He & _ & _ & Ho)|(id & c & d & now & He & Ho & _)];
      simplify_eq.
    + intros [= <- <-]. right. eauto.
    + intros Hf. apply invite_failed_cases in Hf as (Ho2 & _).
      rewrite Ho2. destruct Ho as [Ho|[c Ho]]; rewrite Ho; eauto.
  - intros Hr Hby [role Hrole].
    rewrite invite_handler_with_preferences.
    assert (∃ name s1, inviter_name E invite s = (Ok name, s1)) as (name & s1 & Hn).
    { unfold inviter_name, bind, get_user_js, get_user, external, ret, throw.
      destruct (truthy (field invite "invitedBy")) eqn:Ht; [|eauto].
      destruct Hby as [|[id Hid]]; [done|]. rewrite Hid in *. simpl in Ht.
      destruct (String.eqb id ""); [done|]. rewrite Hr. eauto. }
    by eapply invite_delivery_attempted.
Qed.

(** C9 (amended): when the delivery is refused, or anything else throws
    after the guards, and the failure write goes through, the handler writes
    exactly [emailError] and [emailAttemptedAt] on the invite, leaves every
    other field, [emailSent] included, as it was, and returns the failure;
    the failure write is not protected: when it is rejected, its error
    leaves the handler and nothing is written. *)
Theorem invite_failure_recorded (E : platform) (event : invite_event)
    (invite : doc) (s : state) :
  ie_snapshot event = Some invite →
  field invite "status" = JStr "pending" →
  truthy (field invite "emailSent") = false →
  let inviteId := ie_inviteId event in
  (∀ name role message s1,
     inviter_name E invite s = (Ok name, s1) →
     field invite "role" = JStr role →
     rejects E (st_calls s1) = None →
     mail_reply E (st_calls s1) = Refused message →
     ∃ s2, invite_attempt E invite inviteId s = (Thrown message, s2))
  ∧ (∀ message s1,
       invite_attempt E invite inviteId s = (Thrown message, s1) →
       let patch := [("emailError", JStr message);
                     ("emailAttemptedAt",
                      JTimestamp (server_time E (st_calls s1)))] in
       (∀ d, rejects E (st_calls s1) = None →
             st_invites s !! inviteId = Some d →
             ∃ s2, sendInviteEmail E event s = (Ok (RFailure message), s2)
                   ∧ st_writes s2 = st_writes s ++ [(inviteId, patch)]
                   ∧ st_invites s2
                     = <[inviteId := apply_patch patch d]> (st_invites s)
                   ∧ (∀ k, k ≠ "emailError" → k ≠ "emailAttemptedAt" →
                           apply_patch patch d !! k = d !! k)
                   ∧ field (apply_patch patch d) "emailSent"
                     = field d "emailSent"
                   ∧ field (apply_patch patch d) "emailError" = JStr message)
       ∧ (∀ e, rejects E (st_calls s1) = Some e →
               ∃ s2, sendInviteEmail E event s = (Thrown e, s2)
                     ∧ st_invites s2 = st_invites s
                     ∧ st_writes s2 = st_writes s)).
Proof.
  intros Hsnap Hst Hsent inviteId. split.
  - intros name role message s1 Hname Hrole Hr Hreply.
    unfold invite_attempt, bind at 1. rewrite Hname, Hrole.
    unfold bind at 1.
    replace (role_name (JStr role) s1) with
      (@Ok string (match role with "" => "" | String c r => String (upper_ascii c) r end), s1)
      by (by destruct role).
    unfold bind at 1, send, external, ret. simpl. rewrite Hr, Hreply.
    unfold throw. eauto.
  - intros message s1 Hattempt patch.
    pose proof Hattempt as Hcases.
    apply invite_attempt_cases in Hcases
      as [(e' & He & Hi & Hw & _)|(id & c & d & now & He & _)]; [|done].
    assert (Hrun : sendInviteEmail E event s = invite_failed E inviteId message s1).
    { unfold sendInviteEmail. rewrite Hsnap, Hst, Hsent. simpl.
      unfold try_catch. fold inviteId. by rewrite Hattempt. }
    rewrite Hrun.
    destruct (invite_failed E inviteId message s1) as [o s2] eqn:Hf.
    apply invite_failed_cases in Hf
      as (_ & [(e & -> & Hi2 & Hw2 & Hwhy)|(d & -> & Hr & Hd & Hi2 & Hw2)]).
    + split.
      * intros d Hr Hd. rewrite <- Hi in Hd.
        destruct Hwhy as [Hwhy|[_ Hwhy]]; congruence.
      * intros e0 Hr. destruct Hwhy as [Hwhy|[Hwhy _]]; [|congruence].
        exists s2. rewrite Hi2, Hw2, Hi, Hw. split; [congruence|done].
    + split.
      * intros d' _ Hd'. rewrite Hi in Hd. simplify_eq. exists s2.
        split; [done|]. rewrite Hw2, Hw, Hi2, Hi.
        split; [done|]. split; [done|]. split; [|split].
        -- intros k Hk1 Hk2. subst patch. simpl.
           rewrite !lookup_insert_ne by done. done.
        -- subst patch. unfold field. simpl.
           by rewrite !lookup_insert_ne.
        -- subst patch. unfold field. simpl. by rewrite lookup_insert_eq.
      * intros e Hr'. congruence.
Qed.

(** ** The task-assignment handler *)

Lemma render_ok (d : task_details) :
  renders d = true → generateTaskAssignedHtml d = Ok tt.
Proof.
  unfold renders, generateTaskAssignedHtml.
  destruct (td_description d) as [| |[|]|z|ds| |], (td_priority d);
    simpl; try done;
    try (by destruct (Z.eqb z 0)); by destruct (String.eqb ds "").
Qed.

Lemma render_fails (d : task_details) :
  renders d = false → ∃ e, generateTaskAssignedHtml d = Thrown e.
Proof.
  unfold renders, generateTaskAssignedHtml.
  destruct (truthy (td_description d)), (is_string (td_description d)),
    (td_priority d); simpl; try done; eauto.
Qed.

Lemma task_assigned_rendered_cases (E : platform) (d : task_details)
    (event : task_event) (assignee : string) (s s' : state)
    (o : outcome result) :
  task_assigned_rendered E d event assignee s = (o, s') →
  st_invites s' = st_invites s ∧ st_writes s' = st_writes s
  ∧ (st_outbox s' = st_outbox s
     ∨ ∃ usr c, users E !! assignee = Some usr
                ∧ prefers_off usr "taskAssigned" = false
                ∧ renders d = true
                ∧ st_outbox s' = st_outbox s
                    ++ [{| e_to := u_email usr; e_content := c |}]).
Proof.
  unfold task_assigned_rendered, bind at 1, get_user.
  destruct (external E _ s) as [[userDoc|e] s1] eqn:H1;
    apply read_call in H1 as ((Hi1 & Ho1 & Hw1) & _ & Hans);
    [|intros [= <- <-]; eauto].
  destruct (rejects E (st_calls s)); [done|]. simplify_eq.
  destruct (users E !! assignee) as [usr|] eqn:Husr;
    [|intros [= <- <-]; eauto].
  destruct (prefers_off usr "taskAssigned") eqn:Hpref;
    [intros [= <- <-]; eauto|].
  unfold bind at 1, get_project.
  destruct (external E _ s1) as [[projectDoc|e] s2] eqn:H2;
    apply read_call in H2 as ((Hi2 & Ho2 & Hw2) & _);
    [|intros [= <- <-]; split; [congruence|]; split; [congruence|]; left;
      congruence].
  unfold bind at 1, get_tenant.
  destruct (external E _ s2) as [[tenantDoc|e] s3] eqn:H3;
    apply read_call in H3 as ((Hi3 & Ho3 & Hw3) & _);
    [|intros [= <- <-]; split; [congruence|]; split; [congruence|]; left;
      congruence].
  unfold bind at 1.
  destruct (actor_name E _ s3) as [[name|e] s4] eqn:H4;
    apply actor_name_quiet in H4 as (Hi4 & Ho4 & Hw4);
    [|intros [= <- <-]; split; [congruence|]; split; [congruence|]; left;
      congruence].
  unfold bind at 1, lift.
  destruct (renders d) eqn:Hd.
  - rewrite (render_ok d Hd). unfold bind at 1.
    destruct (send E _ s4) as [[reply|e] s5] eqn:H5;
      apply send_call in H5 as (Hi5 & Hw5 & Ho5 & _);
      intros [= <- <-]; (split; [congruence|]); (split; [congruence|]); right;
      eexists usr, _; (do 3 (split; [done|]));
      rewrite Ho5, Ho4, Ho3, Ho2, Ho1; done.
  - destruct (render_fails d Hd) as [e ->].
    intros [= <- <-]. split; [congruence|]. split; [congruence|]. left.
    congruence.
Qed.

(** C4 (amended): a delivery call happens only if [assignedTo] changed and
    the new [assignedTo] is not empty, there is at most one, and it goes to
    the new assignee, who exists and allows the mail, on a task whose
    template renders; and it is made whoever updated the task, the assignee
    included: nothing in the handler compares the assignee with
    [updatedBy]. *)
Theorem task_assignment_notifies_assignee (E : platform) (d : task_details)
    (event : task_event) (s : state) :
  (∀ o s', sendTaskAssignedEmail_rendered E d event s = (o, s') →
     st_outbox s' = st_outbox s
     ∨ ∃ assignee usr c,
         tk_assignedTo (te_before event) ≠ tk_assignedTo (te_after event)
         ∧ tk_assignedTo (te_after event) = Some assignee ∧ assignee ≠ ""
         ∧ users E !! assignee = Some usr
         ∧ prefers_off usr "taskAssigned" = false
         ∧ renders d = true
         ∧ st_outbox s' = st_outbox s
             ++ [{| e_to := u_email usr; e_content := c |}])
  ∧ (∀ assignee usr,
       tk_assignedTo (te_before event) ≠ tk_assignedTo (te_after event) →
       tk_assignedTo (te_after event) = Some assignee → assignee ≠ "" →
       users E !! assignee = Some usr →
       prefers_off usr "taskAssigned" = false →
       renders d = true →
       (∀ n, rejects E n = None) →
       ∃ c s', sendTaskAssignedEmail_rendered E d event s
               = (Ok (RSuccess None), s')
               ∧ st_outbox s' = st_outbox s
                   ++ [{| e_to := u_email usr; e_content := c |}]).
Proof.
  split.
  - intros o s'. unfold sendTaskAssignedEmail_rendered.
    case_bool_decide as Hchanged; [intros [= <- <-]; by left|].
    destruct (tk_assignedTo (te_after event)) as [assignee|] eqn:Hafter;
      [|intros [= <- <-]; by left].
    destruct (String.eqb assignee "") eqn:Hempty; [intros [= <- <-]; by left|].
    apply String.eqb_neq in Hempty.
    unfold try_catch, ret.
    destruct (task_assigned_rendered E d event assignee s) as [[r|e] s1] eqn:Ha;
      apply task_assigned_rendered_cases in Ha as (_ & _ & Hcases);
      intros [= <- <-];
      (destruct Hcases as [Ho|(usr & c & Husr & Hpref & Hd & Ho)]; [by left|]);
      right; exists assignee, usr, c; done.
  - intros assignee usr Hchanged Hafter Hempty Husr Hpref Hd Hr.
    unfold sendTaskAssignedEmail_rendered.
    rewrite bool_decide_eq_false_2 by done. rewrite Hafter.
    apply String.eqb_neq in Hempty. rewrite Hempty.
    unfold try_catch, task_assigned_rendered, get_user, get_project, get_tenant.
    destruct (read_call_ok E (users E !! assignee) s (Hr _))
      as (s1 & H1 & (_ & Ho1 & _) & _).
    rewrite (bind_ok _ _ _ _ _ H1), Husr, Hpref.
    destruct (read_call_ok E (find_doc (te_projectId event)
                (projects E (te_tenantId event))) s1 (Hr _))
      as (s2 & H2 & (_ & Ho2 & _) & _).
    rewrite (bind_ok _ _ _ _ _ H2).
    destruct (read_call_ok E (find_doc (te_tenantId event) (tenants E)) s2 (Hr _))
      as (s3 & H3 & (_ & Ho3 & _) & _).
    rewrite (bind_ok _ _ _ _ _ H3).
    destruct (actor_name_ok E (tk_updatedBy (te_after event)) s3 (Hr _))
      as (name & s4 & H4 & (_ & Ho4 & _)).
    rewrite (bind_ok _ _ _ _ _ H4), (render_ok d Hd).
    unfold bind, lift, send, external, ret. simpl. rewrite Hr.
    eexists _, _. split; [done|]. simpl. by rewrite Ho4, Ho3, Ho2, Ho1.
Qed.

(** ** Recipients of a comment *)

Lemma set_add_elem (x y : string) (set : list string) :
  y ∈ set_add x set ↔ y = x ∨ y ∈ set.
Proof.
  unfold set_add. case_bool_decide as Hin.
  - split; [by right|]. intros [->|]; done.
  - rewrite elem_of_app, list_elem_of_singleton. tauto.
Qed.

Lemma set_add_NoDup (x : string) (set : list string) :
  NoDup set → NoDup (set_add x set).
Proof.
  intros Hnd. unfold set_add. case_bool_decide as Hin; [done|].
  apply NoDup_app. split; [done|]. split; [|apply NoDup_singleton].
  intros y Hy ->%list_elem_of_singleton. done.
Qed.

Section Mentions.

Variable createdBy : option string.

Lemma add_loop_elem (ids set : list string) (u : string) :
  u ∈ foldl (add_mention createdBy) set ids ↔ u ∈ set ∨ (u ∈ ids ∧ Some u ≠ createdBy).
Proof.
  revert set. induction ids as [|x ids IH]; intros set; simpl.
  - split; [by left|]. intros [|[[]%elem_of_nil _]]. done.
  - rewrite IH. unfold add_mention. case_bool_decide as Hx.
    + rewrite set_add_elem, elem_of_cons. split.
      * intros [[->|]|[]]; eauto.
      * intros [|[[->|] ?]]; eauto.
    + rewrite elem_of_cons. split.
      * intros [|[]]; eauto.
      * intros [|[[->|] ?]]; eauto. done.
Qed.

Lemma add_loop_NoDup (ids set : list string) :
  NoDup set → NoDup (foldl (add_mention createdBy) set ids).
Proof.
  revert set. induction ids as [|x ids IH]; intros set Hnd; simpl; [done|].
  apply IH. unfold add_mention. case_bool_decide; [by apply set_add_NoDup|done].
Qed.

Lemma distinct_filter (P : string → Prop) `{!∀ x, Decision (P x)}
    (l : list string) :
  distinct (filter P l) = filter P (distinct l).
Proof.
  induction l as [|x l IH]; [done|]. simpl.
  rewrite !filter_cons. destruct (decide (P x)) as [HP|HP]; simpl.
  - rewrite IH. f_equal. rewrite !list_filter_filter.
    apply list_filter_iff. intros y. split; intros [? ?]; done.
  - rewrite IH. rewrite list_filter_filter. apply list_filter_iff.
    intros y. split; [|by intros [? _]]. intros Hy. split; [done|].
    by intros ->.
Qed.

(** The loop appends, in the order of their first mention, the mentioned
    identifiers that are neither the author nor already in the set. *)
Lemma add_loop_distinct (ids set : list string) :
  foldl (add_mention createdBy) set ids
  = set ++ distinct (filter (fun u => (u ∉ set) ∧ (Some u ≠ createdBy)) ids).
Proof.
  revert set. induction ids as [|x ids IH]; intros set; simpl.
  - by rewrite app_nil_r.
  - rewrite IH, filter_cons. unfold add_mention, set_add.
    case_bool_decide as Hx.
    + case_bool_decide as Hin.
      * rewrite decide_False by tauto. done.
      * rewrite decide_True by tauto. simpl. rewrite <- app_assoc. simpl.
        do 2 f_equal. rewrite <- distinct_filter, list_filter_filter.
        f_equal. apply list_filter_iff. intros y.
        rewrite elem_of_app, list_elem_of_singleton. tauto.
    + rewrite decide_False by tauto. done.
Qed.

End Mentions.

(** C6: the recipients of a comment are the task's assignee, when there is
    one, together with the mentioned users, the comment's author left out;
    the author is never among them and nobody occurs twice. *)
Theorem comment_recipients_set (t : task) (c : comment) :
  NoDup (comment_recipients t c)
  ∧ (∀ author, cm_createdBy c = Some author →
               author ∉ comment_recipients t c)
  ∧ (∀ u, u ∈ comment_recipients t c ↔
          ((tk_assignedTo t = Some u ∧ u ≠ "") ∨ u ∈ mentioned (cm_text c))
          ∧ cm_createdBy c ≠ Some u).
Proof.
  assert (Hmem : ∀ u, u ∈ comment_recipients t c ↔
          ((tk_assignedTo t = Some u ∧ u ≠ "") ∨ u ∈ mentioned (cm_text c))
          ∧ cm_createdBy c ≠ Some u).
  { intros u. unfold comment_recipients, add_mentions.
    rewrite add_loop_elem.
    destruct (tk_assignedTo t) as [assignee|]; simpl.
    - destruct (String.eqb assignee "") eqn:Hempty; simpl.
      + apply String.eqb_eq in Hempty as ->. rewrite elem_of_nil.
        intuition congruence.
      + apply String.eqb_neq in Hempty. case_bool_decide as Hauthor.
        * rewrite set_add_elem, elem_of_nil. intuition congruence.
        * rewrite elem_of_nil. intuition congruence.
    - rewrite elem_of_nil. intuition congruence. }
  split; [|split; [|exact Hmem]].
  - unfold comment_recipients, add_mentions. apply add_loop_NoDup.
    destruct (tk_assignedTo t) as [assignee|]; [|apply NoDup_nil_2].
    destruct (_ && _); [|apply NoDup_nil_2].
    apply set_add_NoDup, NoDup_nil_2.
  - intros author Hauthor Hin. apply Hmem in Hin as [_ Hne]. done.
Qed.

(** ** Mention extraction *)

Lemma append_cons (c : ascii) (a b : string) :
  String c a +:+ b = String c (a +:+ b).
Proof. reflexivity. Qed.

Lemma append_empty_l (b : string) : "" +:+ b = b.
Proof. reflexivity. Qed.

Lemma append_empty_r (a : string) : a +:+ "" = a.
Proof. induction a as [|x a IH]; [done|]. by rewrite append_cons, IH. Qed.

Lemma append_assoc (a b c : string) : (a +:+ b) +:+ c = a +:+ (b +:+ c).
Proof.
  induction a as [|x a IH]; [done|]. by rewrite !append_cons, IH.
Qed.

Lemma append_length (a b : string) :
  String.length (a +:+ b) = String.length a + String.length b.
Proof.
  induction a as [|x a IH]; [done|]. rewrite append_cons. simpl. by rewrite IH.
Qed.

Lemma run_until_stop (stop : ascii) (run rest : string) :
  occurs stop run = false →
  run_until stop (run +:+ String stop rest) = Some (run, rest).
Proof.
  induction run as [|c run IH]; simpl.
  - by rewrite Ascii.eqb_refl.
  - intros [Hc Hrun]%orb_false_elim. rewrite Hc, IH; done.
Qed.

Lemma match_here_markup (label userId rest : string) :
  label ≠ "" → occurs "]" label = false →
  userId ≠ "" → occurs ")" userId = false →
  match_here (markup label userId +:+ rest) = Some (label, userId, rest).
Proof.
  intros Hl Hlabel Hu HuserId. unfold markup.
  rewrite !append_assoc, !append_cons, !append_empty_l.
  cbn [match_here Ascii.eqb Bool.eqb andb].
  rewrite run_until_stop by done.
  destruct label as [|c label]; [done|].
  cbn [Ascii.eqb Bool.eqb].
  rewrite run_until_stop by done.
  destruct userId as [|d userId]; done.
Qed.

(** Inside a match the scan only counts down. *)
Lemma pieces_skip (inside s : string) :
  pieces_from (String.length inside) (inside +:+ s) = pieces_from 0 s.
Proof.
  induction inside as [|c inside IH]; [done|]. rewrite append_cons. exact IH.
Qed.

Lemma pieces_at_match (c : ascii) (s label userId after : string) :
  match_here (String c s) = Some (label, userId, after) →
  pieces_from 0 (String c s)
  = Mention label userId
      :: pieces_from (String.length s - String.length after) s.
Proof. intros Hm. cbn [pieces_from]. by rewrite Hm. Qed.

Lemma pieces_at_plain (c : ascii) (s : string) :
  match_here (String c s) = None →
  pieces_from 0 (String c s) = Plain c :: pieces_from 0 s.
Proof. intros Hm. cbn [pieces_from]. by rewrite Hm. Qed.

Lemma pieces_markup (label userId rest : string) :
  label ≠ "" → occurs "]" label = false →
  userId ≠ "" → occurs ")" userId = false →
  pieces_from 0 (markup label userId +:+ rest)
  = Mention label userId :: pieces_from 0 rest.
Proof.
  intros Hl Hlabel Hu HuserId.
  pose proof (match_here_markup label userId rest Hl Hlabel Hu HuserId) as Hm.
  unfold markup in *.
  rewrite !append_assoc, !append_cons, !append_empty_l in *.
  rewrite (pieces_at_match _ _ _ _ _ Hm). f_equal.
  set (inside := String "[" (label +:+ String "]" (String "(" (userId +:+ ")")))).
  match goal with
  | |- pieces_from _ ?text = _ => assert (text = inside +:+ rest) as ->
  end.
  { subst inside.
    by rewrite !append_cons, !append_assoc, !append_cons, !append_assoc,
         !append_cons, !append_empty_l. }
  rewrite append_length.
  replace (_ + _ - _) with (String.length inside) by lia.
  apply pieces_skip.
Qed.

Lemma match_here_plain (c : ascii) (plain rest : string) :
  no_mention_start (String c plain) = true →
  (∀ r, rest ≠ String "[" r) →
  match_here (String c (plain +:+ rest)) = None.
Proof.
  intros Hplain Hrest. simpl in Hplain.
  apply andb_true_iff in Hplain as [Hhead _].
  destruct plain as [|b plain].
  - rewrite append_empty_l. destruct rest as [|b rest]; [done|]. simpl.
    destruct (Ascii.eqb c "@"); [|done].
    destruct (Ascii.eqb_spec b "[") as [->|]; [by edestruct Hrest|done].
  - rewrite append_cons. simpl. apply negb_true_iff in Hhead.
    by rewrite Hhead.
Qed.

Lemma pieces_plain (plain rest : string) :
  no_mention_start plain = true →
  (∀ r, rest ≠ String "[" r) →
  pieces_from 0 (plain +:+ rest)
  = (Plain <$> list_ascii_of_string plain) ++ pieces_from 0 rest.
Proof.
  intros Hplain Hrest. induction plain as [|c plain IH]; [done|].
  rewrite append_cons, pieces_at_plain by (by apply match_here_plain).
  simpl in Hplain. apply andb_true_iff in Hplain as [_ Hplain].
  cbn [list_ascii_of_string fmap list_fmap app]. f_equal. by apply IH.
Qed.

Lemma pieces_marked_text (mentions : list (string * string * string))
    (rest : string) :
  Forall well_marked mentions → no_mention_start rest = true →
  pieces (marked_text mentions rest)
  = foldr (fun m acc =>
             (Plain <$> list_ascii_of_string m.1.1)
             ++ Mention m.1.2 m.2 :: acc)
          (Plain <$> list_ascii_of_string rest) mentions.
Proof.
  intros Hall Hrest. unfold pieces.
  induction Hall as [|[[plain label] userId] mentions
                       (Hplain & Hl & Hlabel & Hu & HuserId) _ IH]; simpl.
  - rewrite <- (app_nil_r (Plain <$> _)).
    rewrite <- (append_empty_r rest) at 1.
    by apply pieces_plain.
  - rewrite pieces_plain; [|done|by intros r].
    f_equal. rewrite pieces_markup by done. by rewrite IH.
Qed.

Lemma mentioned_marked_text (mentions : list (string * string * string))
    (rest : string) :
  Forall well_marked mentions → no_mention_start rest = true →
  mentioned (marked_text mentions rest) = mentions.*2.
Proof.
  intros Hall Hrest. unfold mentioned.
  rewrite pieces_marked_text by done. clear Hall Hrest.
  assert (Hplain : ∀ p, omap (fun x => match x with
                                        | Mention _ userId => Some userId
                                        | Plain _ => None
                                        end)
                          (Plain <$> list_ascii_of_string p) = []).
  { intros p. induction (list_ascii_of_string p); done. }
  induction mentions as [|[[plain label] userId] mentions IH]; simpl.
  - apply Hplain.
  - rewrite omap_app, Hplain. simpl. f_equal. exact IH.
Qed.

Lemma clean_marked_text (mentions : list (string * string * string))
    (rest : string) :
  Forall well_marked mentions → no_mention_start rest = true →
  clean_mentions (marked_text mentions rest) = display_text mentions rest.
Proof.
  intros Hall Hrest. unfold clean_mentions.
  rewrite pieces_marked_text by done. clear Hall Hrest.
  assert (Hplain : ∀ p acc,
            foldr (fun x acc => match x with
                                | Plain c => String c acc
                                | Mention label _ => label +:+ acc
                                end) acc (Plain <$> list_ascii_of_string p)
            = p +:+ acc).
  { intros p acc. induction p as [|c p IH]; [done|].
    rewrite append_cons. cbn [list_ascii_of_string fmap list_fmap foldr].
    f_equal. exact IH. }
  induction mentions as [|[[plain label] userId] mentions IH]; simpl.
  - by rewrite Hplain, append_empty_r.
  - rewrite foldr_app, Hplain. simpl. do 2 f_equal. exact IH.
Qed.

(** C7: from any text the loop collects the distinct captured identifiers
    other than the excluded one, in the order of their first mention; and
    for a text written with the mention markup those are the identifiers
    of its mentions, while the display text is the text with every mention
    replaced by its label. *)
Theorem mention_extraction (excluded : string) :
  (∀ text,
     add_mentions text (Some excluded) []
     = distinct (filter (fun u => u ≠ excluded) (mentioned text))
     ∧ NoDup (add_mentions text (Some excluded) [])
     ∧ excluded ∉ add_mentions text (Some excluded) [])
  ∧ (∀ mentions rest,
       Forall well_marked mentions → no_mention_start rest = true →
       add_mentions (marked_text mentions rest) (Some excluded) []
       = distinct (filter (fun u => u ≠ excluded) mentions.*2)
       ∧ clean_mentions (marked_text mentions rest)
         = display_text mentions rest).
Proof.
  assert (Hids : ∀ text,
     add_mentions text (Some excluded) []
     = distinct (filter (fun u => u ≠ excluded) (mentioned text))).
  { intros text. unfold add_mentions. rewrite add_loop_distinct. simpl.
    f_equal. apply list_filter_iff. intros u. rewrite elem_of_nil.
    split; [intros [_ Hu] ->; done|]. intros Hu. split; [tauto|congruence]. }
  split.
  - intros text. split; [apply Hids|]. split.
    + unfold add_mentions. apply add_loop_NoDup, NoDup_nil_2.
    + unfold add_mentions. rewrite add_loop_elem, elem_of_nil.
      intros [[]|[_ Hne]]. done.
  - intros mentions rest Hall Hrest.
    rewrite Hids, mentioned_marked_text, clean_marked_text; done.
Qed.

(** ** Runs in which no call is rejected *)

Lemma delivers_ret {A} (a : A) : delivers (ret a) a [].
Proof. intros s. exists s. by rewrite app_nil_r. Qed.

Lemma delivers_bind {A B} (m : M A) (k : A → M B) (a : A) (b : B)
    (l1 l2 : list email) :
  delivers m a l1 → delivers (k a) b l2 → delivers (bind m k) b (l1 ++ l2).
Proof.
  intros Hm Hk s. destruct (Hm s) as (s1 & H1 & Ho1 & Hi1 & Hw1).
  destruct (Hk s1) as (s2 & H2 & Ho2 & Hi2 & Hw2).
  exists s2. rewrite (bind_ok _ _ _ _ _ H1), H2.
  rewrite Ho2, Ho1, Hi2, Hi1, Hw2, Hw1, app_assoc. done.
Qed.

Lemma delivers_for_each {A} (body : A → M unit) (mails : A → list email)
    (xs : list A) :
  (∀ x, x ∈ xs → delivers (body x) tt (mails x)) →
  delivers (for_each xs body) tt (xs ≫= mails).
Proof.
  induction xs as [|x xs IH]; intros Hbody; simpl.
  - apply delivers_ret.
  - apply (delivers_bind _ _ tt); [apply Hbody; left|].
    apply IH. intros y Hy. apply Hbody. by right.
Qed.

Section Unrejected.

Variable E : platform.
Hypothesis no_rejection : ∀ n, rejects E n = None.

Lemma delivers_read {A} (a : A) : delivers (external E (fun _ => ret a)) a [].
Proof.
  intros s. destruct (read_call_ok E a s (no_rejection _))
    as (s' & -> & (Hi & Ho & Hw) & _).
  exists s'. by rewrite app_nil_r.
Qed.

(** A delivery call whose answer is not looked at. *)
Lemma delivers_send (m : email) : delivers (send E m >> ret tt) tt [m].
Proof.
  intros s. unfold bind, send, external, ret. simpl.
  rewrite no_rejection. eexists. done.
Qed.

Lemma delivers_actor_name (actor : option string) :
  delivers (actor_name E actor) (actor_display E actor) [].
Proof.
  unfold actor_name, actor_display.
  destruct actor as [a|]; [|apply delivers_ret].
  destruct (String.eqb a ""); [apply delivers_ret|].
  change [] with (@nil email ++ []). unfold get_user.
  eapply delivers_bind; [apply delivers_read|apply delivers_ret].
Qed.

Lemma delivers_notify (c : content) (userId : string) :
  delivers (notify E c userId) tt (option_list (comment_mail E c userId)).
Proof.
  unfold notify, comment_mail, get_user. simpl.
  change (option_list _) with
    ([] ++ option_list (match users E !! userId with
                        | Some user =>
                            if prefers_off user "comments" then None
                            else Some {| e_to := u_email user; e_content := c |}
                        | None => None
                        end)).
  eapply delivers_bind; [apply delivers_read|].
  destruct (users E !! userId) as [user|]; [|apply delivers_ret].
  destruct (prefers_off user "comments"); [apply delivers_ret|].
  apply delivers_send.
Qed.

Lemma delivers_remind (t : tenant) (entry : string * list reminder_item) :
  delivers (remind E t entry) tt (option_list (digest_mail E t entry)).
Proof.
  destruct entry as [userId items].
  unfold remind, digest_mail, get_user. simpl.
  change (option_list _) with
    ([] ++ option_list (match users E !! userId with
                        | Some user =>
                            if prefers_off user "dueReminders" then None
                            else Some {| e_to := u_email user;
                                         e_content := DueReminderContent
                                           (js_or (u_name user) (JStr "there"))
                                           (tn_name t) (tn_slug t) items |}
                        | None => None
                        end)).
  eapply delivers_bind; [apply delivers_read|].
  destruct (users E !! userId) as [user|]; [|apply delivers_ret].
  destruct (prefers_off user "dueReminders"); [apply delivers_ret|].
  apply delivers_send.
Qed.

Lemma bind_option_list {A B} (f : A → option B) (l : list A) :
  l ≫= (fun x => option_list (f x)) = omap f l.
Proof.
  induction l as [|x l IH]; [done|].
  change ((x :: l) ≫= (fun x => option_list (f x)))
    with (option_list (f x) ++ (l ≫= (fun x => option_list (f x)))).
  rewrite IH. simpl. by destruct (f x).
Qed.

End Unrejected.

(** ** The reminder's table of tasks by assignee *)

Ltac fold_fmap :=
  repeat match goal with
         | |- context [list_fmap ?A ?B ?f ?l] =>
             change (list_fmap A B f l) with (f <$> l)
         | H : context [list_fmap ?A ?B ?f ?l] |- _ =>
             change (list_fmap A B f l) with (f <$> l) in H
         end.

Lemma find_doc_keys {A} (k : string) (o : list (string * A)) :
  is_Some (find_doc k o) ↔ k ∈ o.*1.
Proof.
  induction o as [|[k' v] o IH]; simpl.
  - rewrite elem_of_nil. split; [by intros [? ?]|done].
  - rewrite elem_of_cons. destruct (String.eqb_spec k' k) as [->|Hne].
    + split; [by left|by eexists].
    + rewrite IH. split; [by right|]. intros [->|]; done.
Qed.

Lemma find_doc_elem {A} (k : string) (v : A) (o : list (string * A)) :
  NoDup o.*1 → (k, v) ∈ o ↔ find_doc k o = Some v.
Proof.
  induction o as [|[k' v'] o IH]; simpl; intros Hnd.
  - by rewrite elem_of_nil.
  - apply NoDup_cons in Hnd as [Hk' Hnd]. rewrite elem_of_cons, IH by done.
    destruct (String.eqb_spec k' k) as [->|Hne].
    + split; [|intros [= ->]; by left].
      intros [[= ->]|Hfind]; [done|]. exfalso. apply Hk'.
      apply find_doc_keys. by eexists.
    + split; [|by right]. intros [[= -> ->]|]; done.
Qed.

Lemma push_item_keys (k : string) (item : reminder_item) (o : assignee_table) :
  (push_item k item o).*1 = set_add k o.*1.
Proof.
  unfold set_add. induction o as [|[k' items] o IH]; simpl; [done|].
  destruct (String.eqb_spec k' k) as [->|Hne]; simpl; fold_fmap.
  - rewrite bool_decide_eq_true_2 by left. done.
  - rewrite IH. case_bool_decide as Hin.
    + rewrite bool_decide_eq_true_2 by (by right). done.
    + rewrite bool_decide_eq_false_2; [done|].
      intros [->|]%elem_of_cons; done.
Qed.

Lemma push_item_items (k a : string) (item : reminder_item) (o : assignee_table) :
  table_items a (push_item k item o)
  = table_items a o ++ (if bool_decide (k = a) then [item] else []).
Proof.
  unfold table_items. induction o as [|[k' items] o IH]; simpl.
  - destruct (String.eqb_spec k a) as [->|Hne].
    + by rewrite bool_decide_eq_true_2.
    + by rewrite bool_decide_eq_false_2.
  - destruct (String.eqb_spec k' k) as [->|Hne]; simpl.
    + destruct (String.eqb_spec k a) as [->|Hne]; simpl.
      * by rewrite bool_decide_eq_true_2.
      * rewrite bool_decide_eq_false_2 by done. by rewrite app_nil_r.
    + destruct (String.eqb_spec k' a) as [->|Hne']; simpl; [|exact IH].
      rewrite bool_decide_eq_false_2 by done. by rewrite app_nil_r.
Qed.

Lemma table_rebuild (o : assignee_table) :
  NoDup o.*1 → o = (fun a => (a, table_items a o)) <$> o.*1.
Proof.
  unfold table_items.
  induction o as [|[k items] o IH]; simpl; intros Hnd; [done|].
  apply NoDup_cons in Hnd as [Hk Hnd]. rewrite String.eqb_refl. simpl.
  f_equal. rewrite IH at 1 by done. apply list_fmap_ext.
  intros i a Ha. destruct (String.eqb_spec k a) as [->|Hne]; [|done].
  exfalso. apply Hk. by eapply list_elem_of_lookup_2.
Qed.

Lemma set_add_loop_distinct (keys set : list string) :
  foldl (fun set k => set_add k set) set keys
  = set ++ distinct (filter (fun k => k ∉ set) keys).
Proof.
  revert set. induction keys as [|x keys IH]; intros set; simpl.
  - by rewrite app_nil_r.
  - rewrite IH, filter_cons. unfold set_add. case_bool_decide as Hin.
    + by rewrite decide_False by tauto.
    + rewrite decide_True by done. simpl. rewrite <- app_assoc. simpl.
      do 2 f_equal. rewrite <- distinct_filter, list_filter_filter.
      f_equal. apply list_filter_iff. intros y.
      rewrite elem_of_app, list_elem_of_singleton. tauto.
Qed.

Lemma filter_all_keys (l : list string) : filter (fun k => k ∉ []) l = l.
Proof.
  induction l as [|x l IH]; [done|].
  rewrite filter_cons_True by apply not_elem_of_nil. by rewrite IH.
Qed.

Lemma distinct_elem (l : list string) (x : string) : x ∈ distinct l ↔ x ∈ l.
Proof.
  induction l as [|y l IH]; simpl; [done|].
  rewrite !elem_of_cons, list_elem_of_filter, IH.
  destruct (decide (x = y)); tauto.
Qed.

Lemma distinct_NoDup (l : list string) : NoDup (distinct l).
Proof.
  induction l as [|y l IH]; simpl; [apply NoDup_nil_2|].
  apply NoDup_cons. split; [|by apply NoDup_filter].
  rewrite list_elem_of_filter. tauto.
Qed.

Section Grouping.

Variables (p : project) (projectId : string).

Lemma group_tasks_table (taskDocs : list (string * task)) (o : assignee_table) :
  plain_assignees taskDocs →
  ∃ o', group_tasks p projectId o taskDocs = Ok o'
        ∧ o'.*1 = foldl (fun set k => set_add k set) o.*1
                        (omap (fun taskDoc => assignee_of taskDoc.2) taskDocs)
        ∧ ∀ a, table_items a o'
               = table_items a o ++ items_for p projectId a taskDocs.
Proof.
  revert o. induction taskDocs as [|[taskId t] taskDocs IH]; intros o Hplain.
  - exists o. split; [done|]. split; [done|]. intros a. by rewrite app_nil_r.
  - assert (Hrest : plain_assignees taskDocs).
    { intros d a Hd. apply Hplain. by right. }
    pose proof (Hplain (taskId, t)) as Hhere. simpl in Hhere.
    unfold items_for. simpl. unfold assignee_of in *.
    destruct (tk_assignedTo t) as [a|] eqn:Ha.
    + destruct (String.eqb a "") eqn:Hempty.
      * destruct (IH o Hrest) as (o' & Hrun & Hkeys & Hitems).
        exists o'. split; [done|]. split; [done|]. intros b.
        rewrite Hitems. unfold items_for. f_equal.
        rewrite filter_cons_False; [done|]. simpl. unfold assignee_of.
        by rewrite Ha, Hempty.
      * set (item := {| ri_task := t; ri_id := taskId;
                         ri_projectTitle := pj_title p;
                         ri_projectId := projectId |}).
        assert (Hstep : (match own a o with
                         | Some _ => Ok (push_item a item o)
                         | None =>
                             if bool_decide (a ∈ inherited_keys)
                             then Thrown "tasksByAssignee[task.assignedTo].push is not a function"
                             else Ok (push_item a item o)
                         end) = Ok (push_item a item o)).
        { destruct (own a o); [done|].
          rewrite bool_decide_eq_false_2; [done|]. apply Hhere; [by left|done]. }
        rewrite Hstep.
        destruct (IH (push_item a item o) Hrest) as (o' & Hrun & Hkeys & Hitems).
        exists o'. split; [done|]. split.
        -- rewrite Hkeys, push_item_keys. done.
        -- intros b. rewrite Hitems, push_item_items, <- app_assoc. f_equal.
           unfold items_for. rewrite filter_cons. simpl. unfold assignee_of.
           rewrite Ha, Hempty.
           destruct (decide (Some a = Some b)) as [[= ->]|Hne].
           ++ by rewrite bool_decide_eq_true_2.
           ++ rewrite bool_decide_eq_false_2; [done|]. congruence.
    + destruct (IH o Hrest) as (o' & Hrun & Hkeys & Hitems).
      exists o'. split; [done|]. split; [done|]. intros b.
      rewrite Hitems. unfold items_for. f_equal.
      rewrite filter_cons_False; [done|]. simpl. unfold assignee_of.
      by rewrite Ha.
Qed.

(** The table built for a project: one entry for every distinct assignee,
    in the order of first appearance, holding all of that assignee's
    tasks. *)
Lemma group_tasks_distinct (taskDocs : list (string * task)) :
  plain_assignees taskDocs →
  group_tasks p projectId [] taskDocs
  = Ok ((fun a => (a, items_for p projectId a taskDocs))
        <$> distinct (omap (fun taskDoc => assignee_of taskDoc.2) taskDocs)).
Proof.
  intros Hplain.
  destruct (group_tasks_table taskDocs [] Hplain) as (o & -> & Hkeys & Hitems).
  change ([].*1) with (@nil string) in Hkeys.
  rewrite set_add_loop_distinct, app_nil_l in Hkeys.
  rewrite filter_all_keys in Hkeys.
  f_equal.
  rewrite (table_rebuild o) by (rewrite Hkeys; apply distinct_NoDup).
  rewrite Hkeys. apply list_fmap_ext. intros i a _. f_equal.
  rewrite Hitems. done.
Qed.

End Grouping.

Lemma object_entries_perm (o : assignee_table) : object_entries o ≡ₚ o.
Proof.
  unfold object_entries. rewrite merge_sort_Permutation.
  induction o as [|kv o IH]; [done|]. simpl. rewrite filter_cons.
  case_decide as Hindex; rewrite Hindex || (destruct (array_index kv.1); [|done]);
    simpl.
  - rewrite <- Permutation_middle. by rewrite IH.
  - by rewrite IH.
Qed.

(** ** The reminder run *)

Section ReminderRun.

Variable E : platform.
Hypothesis no_rejection : ∀ n, rejects E n = None.

Lemma delivers_remind_project (tenantDoc : string * tenant)
    (projectDoc : string * project) :
  plain_assignees (due_tasks E tenantDoc.1 projectDoc.1) →
  delivers (remind_project E tenantDoc.1 tenantDoc.2 projectDoc) tt
           (project_digests E tenantDoc projectDoc).
Proof.
  intros Hplain. destruct tenantDoc as [tenantId t], projectDoc as [projectId p].
  unfold remind_project, project_digests, query_due_tasks. simpl in *.
  fold (due_tasks E tenantId projectId).
  rewrite (group_tasks_distinct p projectId _ Hplain).
  change (omap ?f ?l) with ([] ++ ([] ++ omap f l)).
  eapply delivers_bind; [by apply delivers_read|].
  eapply delivers_bind.
  { unfold lift. rewrite (group_tasks_distinct p projectId _ Hplain).
    apply delivers_ret. }
  rewrite <- (bind_option_list (digest_mail E t)).
  apply (delivers_for_each (remind E t)
           (fun entry => option_list (digest_mail E t entry))).
  intros entry _. by apply delivers_remind.
Qed.

Lemma delivers_remind_tenant (tenantDoc : string * tenant) :
  (∀ projectDoc, projectDoc ∈ projects E tenantDoc.1 →
                 plain_assignees (due_tasks E tenantDoc.1 projectDoc.1)) →
  delivers (remind_tenant E tenantDoc) tt
           (projects E tenantDoc.1 ≫= project_digests E tenantDoc).
Proof.
  intros Hplain. unfold remind_tenant, query_projects.
  destruct tenantDoc as [tenantId t]. simpl in *.
  change (projects E tenantId ≫= ?f) with ([] ++ (projects E tenantId ≫= f)).
  eapply delivers_bind; [by apply delivers_read|].
  apply (delivers_for_each (remind_project E tenantId t)
           (project_digests E (tenantId, t))).
  intros projectDoc Hin.
  apply (delivers_remind_project (tenantId, t)). by apply Hplain.
Qed.

(** With no call rejected and no inherited key, the run succeeds after
    sending the digests of every project of every tenant. *)
Lemma reminder_run :
  plain_run E →
  delivers (sendDueDateReminders E) (RSuccess None) (run_digests E).
Proof.
  intros Hplain s.
  assert (Hbody : delivers
            (let! tenantDocs := query_tenants E in
             for_each tenantDocs (remind_tenant E) >> ret (RSuccess None))
            (RSuccess None) (run_digests E)).
  { replace (run_digests E) with ([] ++ (run_digests E ++ []))
      by (by rewrite app_nil_r).
    unfold run_digests, query_tenants.
    eapply delivers_bind; [by apply delivers_read|].
    eapply (delivers_bind _ _ tt); [|apply delivers_ret].
    apply (delivers_for_each (remind_tenant E)
             (fun tenantDoc => projects E tenantDoc.1
                                 ≫= project_digests E tenantDoc)).
    intros tenantDoc Hin.
    apply delivers_remind_tenant. intros projectDoc. by apply Hplain. }
  destruct (Hbody s) as (s' & Hrun & Hrest).
  exists s'. unfold sendDueDateReminders, try_catch. by rewrite Hrun.
Qed.

End ReminderRun.

(** ** Who gets a digest *)

Lemma due_soon_qualifies (E : platform) (t : task) :
  due_soon E t = true ↔ qualifies E t.
Proof.
  unfold due_soon, qualifies. destruct (tk_dueDate t) as [due|]; simpl.
  - rewrite !andb_true_iff, negb_true_iff, Z.leb_le, Z.ltb_lt, String.eqb_neq.
    split.
    + intros [[? ?] ?]. exists due. done.
    + intros (due' & [= <-] & [? ?] & ?). done.
  - split; [done|]. by intros (due & ? & _).
Qed.

Lemma assignee_of_Some (t : task) (a : string) :
  assignee_of t = Some a ↔ tk_assignedTo t = Some a ∧ a ≠ "".
Proof.
  unfold assignee_of. destruct (tk_assignedTo t) as [b|]; [|by split; [|intros []]].
  destruct (String.eqb_spec b "") as [->|Hne].
  - split; [done|]. by intros [[= <-] ?].
  - split; [by intros [= ->]|]. by intros [[= ->] _].
Qed.

Lemma due_assignees_elem (E : platform) (tenantId projectId a : string) :
  a ∈ due_assignees E tenantId projectId ↔
  ∃ taskDoc, taskDoc ∈ tasks E tenantId projectId
             ∧ qualifies E taskDoc.2
             ∧ tk_assignedTo taskDoc.2 = Some a ∧ a ≠ "".
Proof.
  unfold due_assignees, due_tasks. rewrite distinct_elem, list_elem_of_omap.
  split.
  - intros (taskDoc & [Hdue Hin]%list_elem_of_filter & Ha%assignee_of_Some).
    exists taskDoc. by rewrite <- due_soon_qualifies.
  - intros (taskDoc & Hin & Hq & Ha). exists taskDoc.
    rewrite list_elem_of_filter, due_soon_qualifies, assignee_of_Some. done.
Qed.

Lemma items_for_assignee (p : project) (projectId a : string)
    (taskDocs : list (string * task)) :
  Forall (fun item => tk_assignedTo (ri_task item) = Some a)
         (items_for p projectId a taskDocs).
Proof.
  unfold items_for. apply Forall_fmap, Forall_forall.
  intros taskDoc [Ha _]%list_elem_of_filter. simpl.
  by apply assignee_of_Some in Ha as [? _].
Qed.

Lemma items_for_nonempty (p : project) (projectId a : string)
    (taskDocs : list (string * task)) :
  a ∈ omap (fun taskDoc => assignee_of taskDoc.2) taskDocs →
  items_for p projectId a taskDocs ≠ [].
Proof.
  intros (taskDoc & Hin & Ha)%list_elem_of_omap. unfold items_for.
  intros Hnil%fmap_nil_inv.
  assert (Hfiltered : taskDoc ∈ filter (fun d : string * task => assignee_of d.2 = Some a) taskDocs)
    by (by apply list_elem_of_filter).
  rewrite Hnil in Hfiltered. by apply elem_of_nil in Hfiltered.
Qed.

(** The digests of a project, up to the order in which [Object.entries]
    lists the assignees: one for every distinct assignee of a due task,
    listing all of that assignee's due tasks in the project. *)
Lemma project_digests_perm (E : platform) (tenantDoc : string * tenant)
    (projectDoc : string * project) :
  plain_assignees (due_tasks E tenantDoc.1 projectDoc.1) →
  project_digests E tenantDoc projectDoc
  ≡ₚ omap (fun a => digest_mail E tenantDoc.2
                      (a, items_for projectDoc.2 projectDoc.1 a
                            (due_tasks E tenantDoc.1 projectDoc.1)))
          (due_assignees E tenantDoc.1 projectDoc.1).
Proof.
  intros Hplain. unfold project_digests.
  rewrite (group_tasks_distinct _ _ _ Hplain), object_entries_perm.
  unfold due_assignees.
  induction (distinct _) as [|a l IH]; [done|]. simpl.
  destruct (digest_mail E tenantDoc.2 _); by rewrite IH.
Qed.

(** C2 (amended): the qualifying tasks are grouped per assignee within each
    project.  When nothing is rejected, a run sends the digests of every
    project of every tenant, and the digests of a project are one per
    distinct assignee, each listing all the qualifying tasks of that
    assignee in that project. *)
Theorem digests_grouped_per_project (E : platform) (s : state) :
  (∀ n, rejects E n = None) → plain_run E →
  (∃ s', sendDueDateReminders E s = (Ok (RSuccess None), s')
         ∧ st_outbox s' = st_outbox s
             ++ (tenantDoc ← tenants E;
                 projectDoc ← projects E tenantDoc.1;
                 project_digests E tenantDoc projectDoc))
  ∧ ∀ tenantDoc projectDoc,
      tenantDoc ∈ tenants E → projectDoc ∈ projects E tenantDoc.1 →
      NoDup (due_assignees E tenantDoc.1 projectDoc.1)
      ∧ project_digests E tenantDoc projectDoc
        ≡ₚ omap (fun a => digest_mail E tenantDoc.2
                   (a, items_for projectDoc.2 projectDoc.1 a
                         (due_tasks E tenantDoc.1 projectDoc.1)))
                (due_assignees E tenantDoc.1 projectDoc.1).
Proof.
  intros Hr Hplain. split.
  - destruct (reminder_run E Hr Hplain s) as (s' & Hrun & Ho & _). eauto.
  - intros tenantDoc projectDoc Ht Hp. split; [apply distinct_NoDup|].
    apply project_digests_perm. by apply Hplain.
Qed.

(** ** Fan-out and failures *)

Section CommentRun.

Variable E : platform.
Hypothesis no_rejection : ∀ n, rejects E n = None.

(** With no call rejected, a comment on an existing task is notified to
    every recipient who exists and has not turned comment mails off. *)
Lemma comment_run (event : comment_event) (t : task) :
  find_doc (ce_taskId event)
    (tasks E (ce_tenantId event) (ce_projectId event)) = Some t →
  delivers (sendCommentNotification E event) (RSuccess None)
           (comment_mails E event t).
Proof.
  intros Htask.
  assert (Hbody : delivers (comment_attempt E event) (RSuccess None)
                    (comment_mails E event t)).
  { unfold comment_attempt, get_task, get_project, get_tenant.
    replace (comment_mails E event t)
      with ([] ++ ([] ++ ([] ++ ([] ++ (comment_mails E event t ++ [])))))
      by (simpl; apply app_nil_r).
    eapply delivers_bind; [by apply delivers_read|]. rewrite Htask.
    eapply delivers_bind; [by apply delivers_read|].
    eapply delivers_bind; [by apply delivers_read|].
    eapply delivers_bind; [by apply delivers_actor_name|].
    eapply (delivers_bind _ _ tt); [|apply delivers_ret].
    unfold comment_mails.
    rewrite <- (bind_option_list (comment_mail E (comment_content E event t))).
    apply (delivers_for_each (notify E (comment_content E event t))
             (fun userId => option_list
                              (comment_mail E (comment_content E event t) userId))).
    intros userId _. by apply delivers_notify. }
  intros s. destruct (Hbody s) as (s' & Hrun & Hrest).
  exists s'. unfold sendCommentNotification, try_catch. by rewrite Hrun.
Qed.

End CommentRun.

Section Rejections.

Variable E : platform.

Lemma ends_pure {A} (o : outcome A) : ends_at_rejection E (lift o).
Proof. intros s o' s' [= <- <-]. split; [done|]. intros n e Hn. lia. Qed.

Lemma ends_ret {A} (a : A) : ends_at_rejection E (ret a).
Proof. apply (ends_pure (Ok a)). Qed.

Lemma ends_read {A} (a : A) : ends_at_rejection E (external E (fun _ => ret a)).
Proof.
  intros s o s' Hrun. apply read_call in Hrun as (_ & Hc & Hans).
  split; [lia|]. intros n e Hn Hr. assert (n = st_calls s) as -> by lia.
  rewrite Hr in Hans. done.
Qed.

Lemma ends_send (m : email) : ends_at_rejection E (send E m).
Proof.
  intros s o s' Hrun. apply send_call in Hrun as (_ & _ & _ & Hc & Hans).
  split; [lia|]. intros n e Hn Hr. assert (n = st_calls s) as -> by lia.
  rewrite Hr in Hans. done.
Qed.

Lemma ends_bind {A B} (m : M A) (k : A → M B) :
  ends_at_rejection E m → (∀ a, ends_at_rejection E (k a)) →
  ends_at_rejection E (bind m k).
Proof.
  intros Hm Hk s o s'. unfold bind.
  destruct (m s) as [[a|e] s1] eqn:H1; destruct (Hm _ _ _ H1) as [Hle1 Hrej1].
  - intros H2. destruct (Hk a _ _ _ H2) as [Hle2 Hrej2].
    split; [lia|]. intros n e Hn Hr.
    destruct (decide (n < st_calls s1)) as [Hlt|Hge].
    + by destruct (Hrej1 n e) as [? _]; [lia|done|].
    + apply Hrej2; [lia|done].
  - intros [= <- <-]. split; [exact Hle1|]. intros n e0 Hn Hr.
    destruct (Hrej1 n e0 Hn Hr) as [[= ->] ->]. done.
Qed.

Lemma ends_for_each {A} (xs : list A) (body : A → M unit) :
  (∀ x, ends_at_rejection E (body x)) → ends_at_rejection E (for_each xs body).
Proof.
  intros Hbody. induction xs as [|x xs IH]; simpl; [apply ends_ret|].
  apply ends_bind; [apply Hbody|]. intros _. apply IH.
Qed.

Lemma ends_actor_name (actor : option string) :
  ends_at_rejection E (actor_name E actor).
Proof.
  unfold actor_name. destruct actor as [a|]; [|apply ends_ret].
  destruct (String.eqb a ""); [apply ends_ret|].
  apply ends_bind; [apply ends_read|]. intros u. apply ends_ret.
Qed.

Lemma ends_notify (c : content) (userId : string) :
  ends_at_rejection E (notify E c userId).
Proof.
  unfold notify. apply ends_bind; [apply ends_read|]. intros [user|]; [|apply ends_ret].
  destruct (prefers_off user "comments"); [apply ends_ret|].
  apply ends_bind; [apply ends_send|]. intros _. apply ends_ret.
Qed.

Lemma ends_remind (t : tenant) (entry : string * list reminder_item) :
  ends_at_rejection E (remind E t entry).
Proof.
  destruct entry as [userId items]. unfold remind.
  apply ends_bind; [apply ends_read|]. intros [user|]; [|apply ends_ret].
  destruct (prefers_off user "dueReminders"); [apply ends_ret|].
  apply ends_bind; [apply ends_send|]. intros _. apply ends_ret.
Qed.

Lemma ends_comment_attempt (event : comment_event) :
  ends_at_rejection E (comment_attempt E event).
Proof.
  unfold comment_attempt. apply ends_bind; [apply ends_read|].
  intros [t|]; [|apply ends_ret].
  apply ends_bind; [apply ends_read|]. intros projectDoc.
  apply ends_bind; [apply ends_read|]. intros tenantDoc.
  apply ends_bind; [apply ends_actor_name|]. intros name.
  apply ends_bind; [|intros _; apply ends_ret].
  apply ends_for_each. intros userId. apply ends_notify.
Qed.

Lemma ends_reminders :
  ends_at_rejection E
    (let! tenantDocs := query_tenants E in
     for_each tenantDocs (remind_tenant E) >> ret (RSuccess None)).
Proof.
  apply ends_bind; [apply ends_read|]. intros tenantDocs.
  apply ends_bind; [|intros _; apply ends_ret].
  apply ends_for_each. intros [tenantId t]. unfold remind_tenant.
  apply ends_bind; [apply ends_read|]. intros projectDocs.
  apply ends_for_each. intros [projectId p]. unfold remind_project.
  apply ends_bind; [apply ends_read|]. intros taskDocs.
  apply ends_bind; [apply ends_pure|]. intros tasksByAssignee.
  apply ends_for_each. intros entry. apply ends_remind.
Qed.

(** The one [try]/[catch] of a fan-out handler turns the rejection into the
    handler's failure result. *)
Lemma caught_at_rejection (body : M result) (s s' : state) (o : outcome result)
    (n : nat) (e : string) :
  ends_at_rejection E body →
  try_catch body (fun message => ret (RFailure message)) s = (o, s') →
  (st_calls s ≤ n < st_calls s')%nat → rejects E n = Some e →
  o = Ok (RFailure e) ∧ st_calls s' = S n.
Proof.
  intros Hbody. unfold try_catch, ret.
  destruct (body s) as [[r|e'] s1] eqn:Hrun;
    destruct (Hbody _ _ _ Hrun) as [_ Hrej]; intros [= <- <-] Hn Hr;
    destruct (Hrej n e Hn Hr) as [Ho Hc]; by simplify_eq.
Qed.

End Rejections.

(** ** Runs with rejections: what was sent is a prefix *)

Lemma attempts_ret {A} (a : A) : attempts (ret a) a [].
Proof. intros s o s' [= <- <-]. exists []. rewrite app_nil_r. eauto. Qed.

Lemma attempts_thrown {A} (a : A) (e : string) : attempts (lift (Thrown e)) a [].
Proof.
  intros s o s' [= <- <-]. exists []. rewrite app_nil_r.
  split; [done|]. right. eauto.
Qed.

Lemma attempts_bind {A B} (m : M A) (k : A → M B) (a : A) (b : B)
    (l1 l2 : list email) :
  attempts m a l1 → attempts (k a) b l2 → attempts (bind m k) b (l1 ++ l2).
Proof.
  intros Hm Hk s o s'. unfold bind.
  destruct (m s) as [[a'|e] s1] eqn:H1;
    destruct (Hm _ _ _ H1) as (sent1 & Ho1 & [[Hok ->]|[[e' He'] Hpre]]);
    simplify_eq.
  - intros H2. destruct (Hk _ _ _ H2) as (sent2 & Ho2 & Hcases).
    exists (l1 ++ sent2). rewrite Ho2, Ho1, app_assoc. split; [done|].
    destruct Hcases as [[-> ->]|[He Hpre]]; [by left|].
    right. split; [done|]. by apply prefix_app.
  - intros [= <- <-]. exists sent1. split; [done|]. right.
    split; [eauto|]. by apply prefix_app_r.
Qed.

Lemma attempts_for_each {A} (body : A → M unit) (mails : A → list email)
    (xs : list A) :
  (∀ x, attempts (body x) tt (mails x)) →
  attempts (for_each xs body) tt (xs ≫= mails).
Proof.
  intros Hbody. induction xs as [|x xs IH]; simpl; [apply attempts_ret|].
  by apply (attempts_bind _ _ tt).
Qed.

Section Attempts.

Variable E : platform.

Lemma attempts_read {A} (a : A) : attempts (external E (fun _ => ret a)) a [].
Proof.
  intros s o s' Hrun. apply read_call in Hrun as ((_ & Ho & _) & _ & Hans).
  exists []. rewrite app_nil_r. split; [done|].
  destruct (rejects E (st_calls s)); [right|left]; eauto.
Qed.

Lemma attempts_send (m : email) : attempts (send E m >> ret tt) tt [m].
Proof.
  intros s o s'. unfold bind.
  destruct (send E m s) as [[reply|e] s1] eqn:Hsend;
    apply send_call in Hsend as (_ & _ & Ho & _); intros [= <- <-];
    exists [m]; (split; [done|]); [left|right]; eauto.
Qed.

Lemma attempts_actor_name (actor : option string) :
  attempts (actor_name E actor) (actor_display E actor) [].
Proof.
  unfold actor_name, actor_display.
  destruct actor as [a|]; [|apply attempts_ret].
  destruct (String.eqb a ""); [apply attempts_ret|].
  change [] with (@nil email ++ []). unfold get_user.
  eapply attempts_bind; [apply attempts_read|apply attempts_ret].
Qed.

Lemma attempts_notify (c : content) (userId : string) :
  attempts (notify E c userId) tt (option_list (comment_mail E c userId)).
Proof.
  unfold notify, comment_mail, get_user. simpl.
  change (option_list _) with
    ([] ++ option_list (match users E !! userId with
                        | Some user =>
                            if prefers_off user "comments" then None
                            else Some {| e_to := u_email user; e_content := c |}
                        | None => None
                        end)).
  eapply attempts_bind; [apply attempts_read|].
  destruct (users E !! userId) as [user|]; [|apply attempts_ret].
  destruct (prefers_off user "comments"); [apply attempts_ret|].
  apply attempts_send.
Qed.

Lemma attempts_remind (t : tenant) (entry : string * list reminder_item) :
  attempts (remind E t entry) tt (option_list (digest_mail E t entry)).
Proof.
  destruct entry as [userId items].
  unfold remind, digest_mail, get_user. simpl.
  change (option_list _) with
    ([] ++ option_list (match users E !! userId with
                        | Some user =>
                            if prefers_off user "dueReminders" then None
                            else Some {| e_to := u_email user;
                                         e_content := DueReminderContent
                                           (js_or (u_name user) (JStr "there"))
                                           (tn_name t) (tn_slug t) items |}
                        | None => None
                        end)).
  eapply attempts_bind; [apply attempts_read|].
  destruct (users E !! userId) as [user|]; [|apply attempts_ret].
  destruct (prefers_off user "dueReminders"); [apply attempts_ret|].
  apply attempts_send.
Qed.

Lemma attempts_remind_project (tenantDoc : string * tenant)
    (projectDoc : string * project) :
  attempts (remind_project E tenantDoc.1 tenantDoc.2 projectDoc) tt
           (project_digests E tenantDoc projectDoc).
Proof.
  destruct tenantDoc as [tenantId t], projectDoc as [projectId p].
  unfold remind_project, project_digests, query_due_tasks. simpl.
  fold (due_tasks E tenantId projectId).
  destruct (group_tasks p projectId [] (due_tasks E tenantId projectId))
    as [o|e] eqn:Hgroup.
  - change (omap (digest_mail E t) (object_entries o))
      with ([] ++ ([] ++ omap (digest_mail E t) (object_entries o))).
    eapply attempts_bind; [apply attempts_read|]. rewrite Hgroup.
    eapply attempts_bind; [apply (attempts_ret o)|].
    rewrite <- (bind_option_list (digest_mail E t)).
    apply (attempts_for_each (remind E t)
             (fun entry => option_list (digest_mail E t entry))).
    intros entry. apply attempts_remind.
  - change (@nil email) with (@nil email ++ ([] ++ [])).
    eapply attempts_bind; [apply attempts_read|]. rewrite Hgroup.
    eapply (attempts_bind _ _ []); [apply attempts_thrown|apply attempts_ret].
Qed.

Lemma attempts_reminders :
  attempts (let! tenantDocs := query_tenants E in
            for_each tenantDocs (remind_tenant E) >> ret (RSuccess None))
           (RSuccess None) (run_digests E).
Proof.
  replace (run_digests E) with ([] ++ (run_digests E ++ []))
    by (by rewrite app_nil_r).
  unfold run_digests, query_tenants.
  eapply attempts_bind; [apply attempts_read|].
  eapply (attempts_bind _ _ tt); [|apply attempts_ret].
  apply (attempts_for_each (remind_tenant E)
           (fun tenantDoc => projects E tenantDoc.1
                               ≫= project_digests E tenantDoc)).
  intros [tenantId t]. unfold remind_tenant, query_projects. simpl.
  change (projects E tenantId ≫= ?f) with ([] ++ (projects E tenantId ≫= f)).
  eapply attempts_bind; [apply attempts_read|].
  apply (attempts_for_each (remind_project E tenantId t)
           (project_digests E (tenantId, t))).
  intros projectDoc. apply (attempts_remind_project (tenantId, t)).
Qed.

Lemma attempts_comment (event : comment_event) :
  attempts (comment_attempt E event)
    (match find_doc (ce_taskId event)
             (tasks E (ce_tenantId event) (ce_projectId event)) with
     | Some _ => RSuccess None
     | None => RNull
     end)
    (match find_doc (ce_taskId event)
             (tasks E (ce_tenantId event) (ce_projectId event)) with
     | Some t => comment_mails E event t
     | None => []
     end).
Proof.
  unfold comment_attempt, get_task, get_project, get_tenant.
  destruct (find_doc (ce_taskId event) _) as [t|] eqn:Htask.
  - replace (comment_mails E event t)
      with ([] ++ ([] ++ ([] ++ ([] ++ (comment_mails E event t ++ [])))))
      by (simpl; apply app_nil_r).
    eapply attempts_bind; [apply attempts_read|]. cbv beta iota.
    eapply attempts_bind; [apply attempts_read|].
    eapply attempts_bind; [apply attempts_read|].
    eapply attempts_bind; [apply attempts_actor_name|].
    eapply (attempts_bind _ _ tt); [|apply attempts_ret].
    unfold comment_mails.
    rewrite <- (bind_option_list (comment_mail E (comment_content E event t))).
    apply (attempts_for_each (notify E (comment_content E event t))
             (fun userId => option_list
                              (comment_mail E (comment_content E event t) userId))).
    intros userId. apply attempts_notify.
  - change (@nil email) with (@nil email ++ []).
    eapply attempts_bind; [apply attempts_read|]. apply attempts_ret.
Qed.

(** Under the handler's [try]/[catch]: the handler returns the result of
    its body after all the mails, or a failure after the first few. *)
Lemma caught_after_prefix (body : M result) (r : result) (mails : list email)
    (s s' : state) (o : outcome result) :
  attempts body r mails →
  try_catch body (fun message => ret (RFailure message)) s = (o, s') →
  ∃ sent, st_outbox s' = st_outbox s ++ sent
          ∧ sent `prefix_of` mails
          ∧ (o = Ok r ∧ sent = mails ∨ ∃ e, o = Ok (RFailure e)).
Proof.
  intros Hbody. unfold try_catch, ret.
  destruct (body s) as [[r'|e] s1] eqn:Hrun;
    destruct (Hbody _ _ _ Hrun) as (sent & Ho & [[Hok Hall]|[[e' He'] Hpre]]);
    try discriminate; intros [= <- <-]; exists sent; (split; [done|]).
  - injection Hok as ->. subst sent. split; [done|]. by left.
  - split; [done|]. right. eauto.
Qed.

End Attempts.

(** C3 (amended): in the comment and reminder handlers, a recipient whose
    document is missing or whose delivery the mail service refuses does not
    stop the loop: when no call is rejected, every recipient who exists and
    allows the mail gets a delivery call, whatever the mail service answers.
    A call that is rejected (a lookup, a query or a delivery that throws) is
    caught by the handler's single [try]/[catch]: it is the last call of the
    run, which returns the failure; the delivery calls made are the first
    few of the run's, and later recipients get none. *)
Theorem fanout_failure_handling (E : platform) :
  (∀ event t s o s',
     find_doc (ce_taskId event)
       (tasks E (ce_tenantId event) (ce_projectId event)) = Some t →
     sendCommentNotification E event s = (o, s') →
     ∃ sent, st_outbox s' = st_outbox s ++ sent
             ∧ sent `prefix_of` comment_mails E event t
             ∧ (o = Ok (RSuccess None) ∧ sent = comment_mails E event t
                ∨ ∃ e, o = Ok (RFailure e)))
  ∧ (∀ s o s',
       sendDueDateReminders E s = (o, s') →
       ∃ sent, st_outbox s' = st_outbox s ++ sent
               ∧ sent `prefix_of` run_digests E
               ∧ (o = Ok (RSuccess None) ∧ sent = run_digests E
                  ∨ ∃ e, o = Ok (RFailure e)))
  ∧ ((∀ n, rejects E n = None) →
     (∀ event t,
        find_doc (ce_taskId event)
          (tasks E (ce_tenantId event) (ce_projectId event)) = Some t →
        delivers (sendCommentNotification E event) (RSuccess None)
                 (comment_mails E event t))
     ∧ (plain_run E →
        delivers (sendDueDateReminders E) (RSuccess None) (run_digests E)))
  ∧ (∀ event s o s' n e,
       sendCommentNotification E event s = (o, s') →
       (st_calls s ≤ n < st_calls s')%nat → rejects E n = Some e →
       o = Ok (RFailure e) ∧ st_calls s' = S n)
  ∧ (∀ s o s' n e,
       sendDueDateReminders E s = (o, s') →
       (st_calls s ≤ n < st_calls s')%nat → rejects E n = Some e →
       o = Ok (RFailure e) ∧ st_calls s' = S n).
Proof.
  split; [|split; [|split; [|split]]].
  - intros event t s o s' Htask Hrun.
    pose proof (attempts_comment E event) as Hbody. rewrite Htask in Hbody.
    by eapply caught_after_prefix.
  - intros s o s' Hrun. eapply caught_after_prefix; [|exact Hrun].
    apply attempts_reminders.
  - intros Hr. split.
    + intros event t. by apply comment_run.
    + by apply reminder_run.
  - intros event s o s' n e. apply caught_at_rejection, ends_comment_attempt.
  - intros s o s' n e. apply caught_at_rejection, ends_reminders.
Qed.

(** ** The recipients of a reminder run *)

Lemma group_tasks_plain (p : project) (projectId : string)
    (taskDocs : list (string * task)) (o o' : assignee_table) :
  (∀ k, k ∈ o.*1 → k ∉ inherited_keys) →
  group_tasks p projectId o taskDocs = Ok o' →
  plain_assignees taskDocs.
Proof.
  revert o. induction taskDocs as [|[taskId t] taskDocs IH]; intros o Hkeys.
  - intros _ taskDoc a Hin. by apply elem_of_nil in Hin.
  - simpl. intros Hrun taskDoc a Hin Ha.
    destruct (tk_assignedTo t) as [b|] eqn:Hb.
    + destruct (String.eqb b "") eqn:Hempty.
      * apply elem_of_cons in Hin as [->|Hin].
        -- simpl in Ha. unfold assignee_of in Ha. by rewrite Hb, Hempty in Ha.
        -- by eapply (IH o).
      * set (item := {| ri_task := t; ri_id := taskId;
                         ri_projectTitle := pj_title p;
                         ri_projectId := projectId |}) in *.
        assert (Hb' : b ∉ inherited_keys).
        { destruct (own b o) eqn:Hown.
          - apply Hkeys, find_doc_keys. by eexists.
          - case_bool_decide; [done|done]. }
        assert (Hnext : group_tasks p projectId (push_item b item o) taskDocs
                        = Ok o').
        { destruct (own b o); [done|]. by case_bool_decide. }
        apply elem_of_cons in Hin as [->|Hin].
        -- simpl in Ha. unfold assignee_of in Ha. rewrite Hb, Hempty in Ha.
           by injection Ha as <-.
        -- eapply (IH (push_item b item o)); [|done|done|done].
           intros k. rewrite push_item_keys, set_add_elem.
           intros [->|Hk]; [done|by apply Hkeys].
    + apply elem_of_cons in Hin as [->|Hin].
      * simpl in Ha. unfold assignee_of in Ha. by rewrite Hb in Ha.
      * by eapply (IH o).
Qed.

(** Every digest of a project is the digest of one of its due assignees,
    listing that assignee's due tasks. *)
Lemma project_digests_elem (E : platform) (tenantDoc : string * tenant)
    (projectDoc : string * project) (m : email) :
  m ∈ project_digests E tenantDoc projectDoc →
  ∃ a, a ∈ due_assignees E tenantDoc.1 projectDoc.1
       ∧ digest_mail E tenantDoc.2
           (a, items_for projectDoc.2 projectDoc.1 a
                 (due_tasks E tenantDoc.1 projectDoc.1)) = Some m.
Proof.
  intros Hm.
  assert (Hplain : plain_assignees (due_tasks E tenantDoc.1 projectDoc.1)).
  { unfold project_digests in Hm.
    destruct (group_tasks _ _ _ _) as [o|e] eqn:Hgroup;
      [|by apply elem_of_nil in Hm].
    eapply group_tasks_plain; [|exact Hgroup].
    intros k Hk. by apply elem_of_nil in Hk. }
  rewrite project_digests_perm in Hm by done.
  by apply list_elem_of_omap in Hm.
Qed.

(** A digest sent for a due assignee is a digest of a reminder recipient. *)
Lemma digest_mail_recipient (E : platform) (tenantDoc : string * tenant)
    (projectDoc : string * project) (a : string) (m : email) :
  tenantDoc ∈ tenants E → projectDoc ∈ projects E tenantDoc.1 →
  a ∈ due_assignees E tenantDoc.1 projectDoc.1 →
  digest_mail E tenantDoc.2
    (a, items_for projectDoc.2 projectDoc.1 a
          (due_tasks E tenantDoc.1 projectDoc.1)) = Some m →
  digest_of E a m ∧ reminder_recipient E a.
Proof.
  intros Ht Hp Ha. unfold digest_mail. simpl.
  destruct (users E !! a) as [user|] eqn:Huser; [|done].
  destruct (prefers_off user "dueReminders") eqn:Hpref; [done|].
  intros [= <-]. split.
  - exists user. do 4 eexists. split; [done|]. split; [done|]. split.
    + apply items_for_nonempty. unfold due_assignees in Ha.
      by apply distinct_elem.
    + apply items_for_assignee.
  - apply due_assignees_elem in Ha as (taskDoc & Hin & Hq & Hassigned & Hne).
    split; [done|]. split; [by exists user|].
    by exists tenantDoc, projectDoc, taskDoc.
Qed.

(** C8: in every run, each mail sent is a digest for a user who allows
    reminders and is the non-empty assignee of a task, in some project of
    some tenant, whose due date lies in [[today, today+2)] and whose status
    is not "done"; and when nothing is rejected, the users who get a digest
    are exactly those users. *)
Theorem reminder_recipients_exact (E : platform) (s : state) :
  (∀ o s', sendDueDateReminders E s = (o, s') →
     ∃ sent, st_outbox s' = st_outbox s ++ sent
             ∧ ∀ m, m ∈ sent →
                    ∃ userId, digest_of E userId m
                              ∧ reminder_recipient E userId)
  ∧ ((∀ n, rejects E n = None) → plain_run E →
     ∃ s' sent,
       sendDueDateReminders E s = (Ok (RSuccess None), s')
       ∧ st_outbox s' = st_outbox s ++ sent
       ∧ ∀ userId, (∃ m, m ∈ sent ∧ digest_of E userId m)
                   ↔ reminder_recipient E userId).
Proof.
  assert (Hsound : ∀ m, m ∈ run_digests E →
            ∃ userId, digest_of E userId m ∧ reminder_recipient E userId).
  { intros m. unfold run_digests.
    intros (tenantDoc & (projectDoc & Hm & Hp)%list_elem_of_bind & Ht)%list_elem_of_bind.
    apply project_digests_elem in Hm as (a & Ha & Hm).
    exists a. by eapply digest_mail_recipient. }
  split.
  - intros o s' Hrun.
    destruct (caught_after_prefix _ _ _ _ _ _ (attempts_reminders E) Hrun)
      as (sent & Ho & Hpre & _).
    exists sent. split; [done|]. intros m Hm. apply Hsound.
    by eapply elem_of_prefix.
  - intros Hr Hplain.
    destruct (reminder_run E Hr Hplain s) as (s' & Hrun & Ho & _).
    exists s', (run_digests E). split; [done|]. split; [done|].
    intros userId. split.
    + intros (m & Hm & Hof). destruct (Hsound m Hm) as (a & Hofa & Hrec).
      assert (a = userId) as ->; [|done].
      destruct Hof as (u1 & ? & ? & ? & items1 & _ & Hm1 & Hne1 & Hall1).
      destruct Hofa as (u2 & ? & ? & ? & items2 & _ & Hm2 & _ & Hall2).
      rewrite Hm1 in Hm2. injection Hm2 as _ _ _ _ <-.
      destruct items1 as [|item items1]; [done|].
      apply Forall_cons in Hall1 as [H1 _], Hall2 as [H2 _]. congruence.
    + intros (Hne & (user & Huser & Hpref)
              & tenantDoc & projectDoc & taskDoc & Ht & Hp & Hin & Hq & Ha).
      assert (Hdue : userId ∈ due_assignees E tenantDoc.1 projectDoc.1).
      { apply due_assignees_elem. by exists taskDoc. }
      set (m := {| e_to := u_email user;
                   e_content := DueReminderContent
                     (js_or (u_name user) (JStr "there"))
                     (tn_name tenantDoc.2) (tn_slug tenantDoc.2)
                     (items_for projectDoc.2 projectDoc.1 userId
                        (due_tasks E tenantDoc.1 projectDoc.1)) |}).
      assert (Hm : digest_mail E tenantDoc.2
                     (userId, items_for projectDoc.2 projectDoc.1 userId
                                (due_tasks E tenantDoc.1 projectDoc.1)) = Some m).
      { unfold digest_mail. simpl. by rewrite Huser, Hpref. }
      exists m. split.
      * unfold run_digests. apply list_elem_of_bind.
        exists tenantDoc. split; [|done]. apply list_elem_of_bind.
        exists projectDoc. split; [|done].
        rewrite project_digests_perm by (by apply Hplain).
        apply list_elem_of_omap. by exists userId.
      * by apply (digest_mail_recipient E tenantDoc projectDoc).
Qed.

(** * Further properties of the handlers *)

(** ** The invite handler: skips, marks and writes *)

Lemma role_name_string (role : string) (s : state) :
  role_name (JStr role) s
  = (Ok (match role with
         | "" => ""
         | String c rest => String (upper_ascii c) rest
         end), s).
Proof. by destruct role. Qed.

Lemma inviter_name_found (E : platform) (invite : doc) (s : state) :
  rejects E (st_calls s) = None →
  truthy (field invite "invitedBy") = false
  ∨ (∃ id, field invite "invitedBy" = JStr id) →
  ∃ name s1, inviter_name E invite s = (Ok name, s1) ∧ quiet s s1.
Proof.
  intros Hr Hby.
  unfold inviter_name, bind, get_user_js, get_user, external, ret, throw.
  destruct (truthy (field invite "invitedBy")) eqn:Ht; [|by eexists _, _].
  destruct Hby as [|[id Hid]]; [done|]. rewrite Hid in *. simpl in Ht.
  destruct (String.eqb id ""); [done|]. rewrite Hr. by eexists _, _.
Qed.

Lemma send_answered (E : platform) (m : email) (s : state) :
  rejects E (st_calls s) = None →
  ∃ s', send E m s = (Ok (mail_reply E (st_calls s)), s')
        ∧ st_outbox s' = st_outbox s ++ [m]
        ∧ st_invites s' = st_invites s ∧ st_writes s' = st_writes s
        ∧ st_calls s' = S (st_calls s).
Proof. intros Hr. unfold send, external, ret. simpl. rewrite Hr. by eexists. Qed.

Lemma update_applied (E : platform) (inviteId : string)
    (patch : list (string * jsval)) (d : doc) (s : state) :
  rejects E (st_calls s) = None → st_invites s !! inviteId = Some d →
  ∃ s', update_invite E inviteId patch s = (Ok tt, s')
        ∧ st_outbox s' = st_outbox s
        ∧ st_invites s' = <[inviteId := apply_patch patch d]> (st_invites s)
        ∧ st_writes s' = st_writes s ++ [(inviteId, patch)]
        ∧ st_calls s' = S (st_calls s).
Proof.
  intros Hr Hd. unfold update_invite, external. simpl. rewrite Hr, Hd.
  by eexists.
Qed.

Lemma update_rejected (E : platform) (inviteId e : string)
    (patch : list (string * jsval)) (s : state) :
  rejects E (st_calls s) = Some e →
  ∃ s', update_invite E inviteId patch s = (Thrown e, s')
        ∧ quiet s s' ∧ st_calls s' = S (st_calls s).
Proof.
  intros Hr. unfold update_invite, external. simpl. rewrite Hr. by eexists.
Qed.

Lemma timestamp_taken {A} (E : platform) (k : jsval → M A) (s : state) :
  bind (serverTimestamp E) k s = k (JTimestamp (server_time E (st_calls s))) s.
Proof. reflexivity. Qed.

(** The handler returns [null] exactly when its guards reject the event,
    and then it has touched nothing.  A truthy [emailSent] of any kind
    rejects, not only [true]. *)
Theorem invite_null_iff_skipped (E : platform) (event : invite_event)
    (s s' : state) (o : outcome result) :
  sendInviteEmail E event s = (o, s') →
  (o = Ok RNull ↔ invite_skipped event) ∧ (invite_skipped event → s' = s).
Proof.
  unfold sendInviteEmail, invite_skipped.
  destruct (ie_snapshot event) as [invite|]; [|by intros [= <- <-]].
  destruct (strict_eq (field invite "status") (JStr "pending")) eqn:Hst; simpl.
  - apply strict_eq_str_iff in Hst.
    destruct (truthy (field invite "emailSent")) eqn:Hsent.
    + intros [= <- <-]. split; [split; [by right|done]|done].
    + unfold try_catch.
      destruct (invite_attempt E invite (ie_inviteId event) s)
        as [[r|e] s1] eqn:Ha;
        apply invite_attempt_cases in Ha
          as [(e' & He & _)|(id & c & d & now & He & _)]; simplify_eq.
      * intros [= <- <-]. split; [|by intros [|]].
        split; [done|by intros [|]].
      * intros Hf. apply invite_failed_cases in Hf
          as (_ & [(e & -> & _)|(d & -> & _)]);
          (split; [|by intros [|]]); (split; [done|by intros [|]]).
  - intros [= <- <-]. split; [|done]. split; [|done]. intros _. left.
    intros Heq. apply strict_eq_str_iff in Heq. congruence.
Qed.

(** When the delivery is accepted and nothing is rejected, the handler
    returns the mail's identifier and writes exactly [emailSent: true],
    [emailSentAt] and [emailId] on the invite; every other field keeps its
    value. *)
Theorem invite_marked_sent (E : platform) (event : invite_event)
    (invite d : doc) (role mailId : string) (s : state) :
  ie_snapshot event = Some invite →
  field invite "status" = JStr "pending" →
  truthy (field invite "emailSent") = false →
  truthy (field invite "invitedBy") = false
  ∨ (∃ id, field invite "invitedBy" = JStr id) →
  field invite "role" = JStr role →
  st_invites s !! ie_inviteId event = Some d →
  (∀ n, rejects E n = None) →
  (∀ n, mail_reply E n = Delivered mailId) →
  ∃ s' c now,
    let patch := [("emailSent", JBool true); ("emailSentAt", now);
                  ("emailId", JStr mailId)] in
    sendInviteEmail E event s = (Ok (RSuccess (Some mailId)), s')
    ∧ st_outbox s' = st_outbox s
        ++ [{| e_to := field invite "email"; e_content := c |}]
    ∧ st_writes s' = st_writes s ++ [(ie_inviteId event, patch)]
    ∧ st_invites s'
      = <[ie_inviteId event := apply_patch patch d]> (st_invites s)
    ∧ field (apply_patch patch d) "emailSent" = JBool true
    ∧ field (apply_patch patch d) "emailId" = JStr mailId
    ∧ ∀ k, k ∉ ["emailSent"; "emailSentAt"; "emailId"] →
           apply_patch patch d !! k = d !! k.
Proof.
  intros Hsnap Hst Hsent Hby Hrole Hd Hr Hreply.
  destruct (inviter_name_found E invite s (Hr _) Hby)
    as (name & s1 & Hname & Hi1 & Ho1 & Hw1).
  set (m := {| e_to := field invite "email";
               e_content := InviteContent (field invite "tenantName") name
                              (match role with
                               | "" => ""
                               | String c rest => String (upper_ascii c) rest
                               end) (ie_inviteId event) |}).
  destruct (send_answered E m s1 (Hr _)) as (s2 & Hsend & Ho2 & Hi2 & Hw2 & _).
  set (now := JTimestamp (server_time E (st_calls s2))).
  destruct (update_applied E (ie_inviteId event)
              [("emailSent", JBool true); ("emailSentAt", now);
               ("emailId", JStr mailId)] d s2 (Hr _))
    as (s3 & Hupdate & Ho3 & Hi3 & Hw3 & _); [by rewrite Hi2, Hi1|].
  exists s3, (e_content m), now. split.
  { unfold sendInviteEmail. rewrite Hsnap, Hst, Hsent. simpl.
    unfold try_catch, invite_attempt.
    rewrite (bind_ok _ _ _ _ _ Hname), Hrole.
    rewrite (bind_ok _ _ _ _ _ (role_name_string role s1)).
    fold m. rewrite (bind_ok _ _ _ _ _ Hsend), Hreply, timestamp_taken.
    fold now. by rewrite (bind_ok _ _ _ _ _ Hupdate). }
  rewrite Ho3, Ho2, Ho1, Hw3, Hw2, Hw1, Hi3, Hi2, Hi1.
  split; [done|]. split; [done|]. split; [done|].
  unfold field. simpl. rewrite lookup_insert_eq. split; [done|].
  rewrite lookup_insert_ne, lookup_insert_ne, lookup_insert_eq by done.
  split; [done|]. intros k Hk.
  rewrite !lookup_insert_ne; [done|..]; intros <-; apply Hk;
    repeat constructor.
Qed.

(** [emailSent] only becomes [true] in a run that returns success: the run
    made one delivery call, and the invite carries the identifier the
    handler returns. *)
Theorem invite_flag_only_after_delivery (E : platform) (event : invite_event)
    (s s' : state) (o : outcome result) (d0 d1 : doc) :
  sendInviteEmail E event s = (o, s') →
  st_invites s !! ie_inviteId event = Some d0 →
  st_invites s' !! ie_inviteId event = Some d1 →
  field d0 "emailSent" ≠ JBool true →
  field d1 "emailSent" = JBool true →
  ∃ mailId m, o = Ok (RSuccess (Some mailId))
              ∧ field d1 "emailId" = JStr mailId
              ∧ st_outbox s' = st_outbox s ++ [m].
Proof.
  intros Hrun Hd0 Hd1 Hunsent Hsent. revert Hrun. unfold sendInviteEmail.
  destruct (ie_snapshot event) as [invite|]; [|intros [= <- <-]; congruence].
  destruct (negb _); [intros [= <- <-]; congruence|].
  destruct (truthy _); [intros [= <- <-]; congruence|].
  unfold try_catch.
  destruct (invite_attempt E invite (ie_inviteId event) s) as [[r|e] s1] eqn:Ha;
    apply invite_attempt_cases in Ha
      as [(e' & He & Hi & _)|(id & c & d & now & He & Ho & Hd & Hi & _)];
    simplify_eq.
  - intros [= <- <-]. rewrite Hi, lookup_insert_eq in Hd1. simplify_eq.
    eexists id, _. split; [done|]. split; [|done].
    unfold field. simpl.
    by rewrite lookup_insert_ne, lookup_insert_ne, lookup_insert_eq.
  - intros Hf. exfalso. apply invite_failed_cases in Hf
      as (_ & [(e & _ & Hi2 & _)|(d & _ & _ & Hd & Hi2 & _)]).
    + rewrite Hi2, Hi, Hd0 in Hd1. congruence.
    + rewrite Hi in Hd. rewrite Hi2, lookup_insert_eq in Hd1. simplify_eq.
      unfold field in Hsent, Hunsent. simpl in Hsent.
      rewrite !lookup_insert_ne in Hsent by done. done.
Qed.

(** A run writes at most once, to its own invite and to the delivery
    fields only: every other invite, and every other field of this one,
    stays as it is. *)
Theorem invite_writes_confined (E : platform) (event : invite_event)
    (s s' : state) (o : outcome result) :
  sendInviteEmail E event s = (o, s') →
  (st_writes s' = st_writes s ∧ st_invites s' = st_invites s)
  ∨ ∃ patch d,
      st_writes s' = st_writes s ++ [(ie_inviteId event, patch)]
      ∧ st_invites s !! ie_inviteId event = Some d
      ∧ st_invites s'
        = <[ie_inviteId event := apply_patch patch d]> (st_invites s)
      ∧ patch.*1 ⊆ delivery_fields
      ∧ ∀ k, k ∉ delivery_fields → apply_patch patch d !! k = d !! k.
Proof.
  unfold sendInviteEmail.
  destruct (ie_snapshot event) as [invite|]; [|intros [= <- <-]; by left].
  destruct (negb _); [intros [= <- <-]; by left|].
  destruct (truthy _); [intros [= <- <-]; by left|].
  unfold try_catch.
  destruct (invite_attempt E invite (ie_inviteId event) s) as [[r|e] s1] eqn:Ha;
    apply invite_attempt_cases in Ha
      as [(e' & He & Hi & Hw & _)|(id & c & d & now & He & Ho & Hd & Hi & Hw)];
    simplify_eq.
  - intros [= <- <-]. right. eexists _, d. split; [done|]. split; [done|].
    split; [done|]. split.
    + intros k Hk. simpl in Hk. unfold delivery_fields.
      repeat (apply elem_of_cons in Hk as [->|Hk]; [repeat constructor|]).
      by apply elem_of_nil in Hk.
    + intros k Hk. simpl.
      rewrite !lookup_insert_ne; [done|..]; intros <-; apply Hk;
        unfold delivery_fields; repeat constructor.
  - intros Hf. apply invite_failed_cases in Hf
      as (_ & [(e & _ & Hi2 & Hw2 & _)|(d & _ & _ & Hd & Hi2 & Hw2)]).
    + left. by rewrite Hw2, Hi2, Hw, Hi.
    + right. rewrite Hi in Hd, Hi2. rewrite Hw in Hw2.
      eexists _, d. split; [done|]. split; [done|]. split; [done|]. split.
      * intros k Hk. simpl in Hk. unfold delivery_fields.
        repeat (apply elem_of_cons in Hk as [->|Hk]; [repeat constructor|]).
        by apply elem_of_nil in Hk.
      * intros k Hk. simpl.
        rewrite !lookup_insert_ne; [done|..]; intros <-; apply Hk;
          unfold delivery_fields; repeat constructor.
Qed.

(** The mail is accepted but the write of [emailSent] is rejected: the
    handler reports a failure although the mail went out, records the
    rejection as [emailError], and leaves the invite pending and unsent, so
    that the stored invite still passes the guards. *)
Theorem invite_unmarked_after_lost_write (E : platform) (event : invite_event)
    (invite : doc) (name : jsval) (role mailId e : string) (s s1 : state) :
  ie_snapshot event = Some invite →
  field invite "status" = JStr "pending" →
  truthy (field invite "emailSent") = false →
  field invite "role" = JStr role →
  st_invites s !! ie_inviteId event = Some invite →
  inviter_name E invite s = (Ok name, s1) →
  rejects E (st_calls s1) = None →
  mail_reply E (st_calls s1) = Delivered mailId →
  rejects E (S (st_calls s1)) = Some e →
  rejects E (S (S (st_calls s1))) = None →
  ∃ s' c now,
    let patch := [("emailError", JStr e); ("emailAttemptedAt", now)] in
    sendInviteEmail E event s = (Ok (RFailure e), s')
    ∧ st_outbox s' = st_outbox s
        ++ [{| e_to := field invite "email"; e_content := c |}]
    ∧ st_invites s'
      = <[ie_inviteId event := apply_patch patch invite]> (st_invites s)
    ∧ ¬ invite_skipped (invite_event_of (ie_inviteId event) s').
Proof.
  intros Hsnap Hst Hsent Hrole Hd Hname Hr1 Hreply Hr2 Hr3.
  pose proof (inviter_name_quiet _ _ _ _ _ Hname) as (Hi1 & Ho1 & Hw1).
  set (m := {| e_to := field invite "email";
               e_content := InviteContent (field invite "tenantName") name
                              (match role with
                               | "" => ""
                               | String c rest => String (upper_ascii c) rest
                               end) (ie_inviteId event) |}).
  destruct (send_answered E m s1 Hr1) as (s2 & Hsend & Ho2 & Hi2 & Hw2 & Hc2).
  set (now2 := JTimestamp (server_time E (st_calls s2))).
  destruct (update_rejected E (ie_inviteId event) e
              [("emailSent", JBool true); ("emailSentAt", now2);
               ("emailId", JStr mailId)] s2)
    as (s3 & Hlost & (Hi3 & Ho3 & Hw3) & Hc3); [by rewrite Hc2|].
  set (now := JTimestamp (server_time E (st_calls s3))).
  destruct (update_applied E (ie_inviteId event)
              [("emailError", JStr e); ("emailAttemptedAt", now)] invite s3)
    as (s4 & Hupdate & Ho4 & Hi4 & Hw4 & _);
    [by rewrite Hc3, Hc2|by rewrite Hi3, Hi2, Hi1|].
  exists s4, (e_content m), now. split.
  { unfold sendInviteEmail. rewrite Hsnap, Hst, Hsent. simpl.
    unfold try_catch, invite_attempt.
    rewrite (bind_ok _ _ _ _ _ Hname), Hrole.
    rewrite (bind_ok _ _ _ _ _ (role_name_string role s1)).
    fold m. rewrite (bind_ok _ _ _ _ _ Hsend), Hreply, timestamp_taken.
    fold now2. rewrite (bind_thrown _ _ _ _ _ Hlost).
    unfold invite_failed. rewrite timestamp_taken. fold now.
    by rewrite (bind_ok _ _ _ _ _ Hupdate). }
  rewrite Ho4, Ho3, Ho2, Ho1, Hi4, Hi3, Hi2, Hi1.
  split; [done|]. split; [done|].
  unfold invite_skipped, invite_event_of. simpl.
  rewrite Hi4, lookup_insert_eq. unfold field in *. simpl.
  rewrite !lookup_insert_ne by done. rewrite Hsent. intros [Hne|]; done.
Qed.

(** The guards look at the event's snapshot, not at the stored invite: the
    same event handled twice sends the invitation twice, whatever the first
    run wrote. *)
Theorem redelivered_invite_event_sends_again (E : platform)
    (event : invite_event) (invite : doc) (role : string) (s : state) :
  ie_snapshot event = Some invite →
  field invite "status" = JStr "pending" →
  truthy (field invite "emailSent") = false →
  truthy (field invite "invitedBy") = false
  ∨ (∃ id, field invite "invitedBy" = JStr id) →
  field invite "role" = JStr role →
  (∀ n, rejects E n = None) →
  ∃ o1 s1 o2 s2 c1 c2,
    sendInviteEmail E event s = (o1, s1)
    ∧ sendInviteEmail E event s1 = (o2, s2)
    ∧ st_outbox s2 = st_outbox s
        ++ [{| e_to := field invite "email"; e_content := c1 |};
            {| e_to := field invite "email"; e_content := c2 |}].
Proof.
  intros Hsnap Hst Hsent Hby Hrole Hr.
  destruct (inviter_name_found E invite s (Hr _) Hby) as (n1 & t1 & Hn1 & _).
  destruct (invite_delivery_attempted E event invite s t1 n1 role
              Hsnap Hst Hsent Hn1 Hrole) as (c1 & o1 & s1 & Hrun1 & Ho1).
  destruct (inviter_name_found E invite s1 (Hr _) Hby) as (n2 & t2 & Hn2 & _).
  destruct (invite_delivery_attempted E event invite s1 t2 n2 role
              Hsnap Hst Hsent Hn2 Hrole) as (c2 & o2 & s2 & Hrun2 & Ho2).
  exists o1, s1, o2, s2, c1, c2. split; [done|]. split; [done|].
  by rewrite Ho2, Ho1, <- app_assoc.
Qed.

(** ** The guards and a creation event handled again *)

(** The run that delivers the mail and marks the invite. *)
Lemma invite_delivered (E : platform) (event : invite_event)
    (invite d : doc) (role mailId : string) (s : state) :
  ie_snapshot event = Some invite →
  field invite "status" = JStr "pending" →
  truthy (field invite "emailSent") = false →
  truthy (field invite "invitedBy") = false
  ∨ (∃ id, field invite "invitedBy" = JStr id) →
  field invite "role" = JStr role →
  st_invites s !! ie_inviteId event = Some d →
  (∀ n, rejects E n = None) →
  (∀ n, mail_reply E n = Delivered mailId) →
  ∃ s' c d',
    sendInviteEmail E event s = (Ok (RSuccess (Some mailId)), s')
    ∧ st_outbox s' = st_outbox s
        ++ [{| e_to := field invite "email"; e_content := c |}]
    ∧ st_invites s' !! ie_inviteId event = Some d'
    ∧ field d' "emailSent" = JBool true.
Proof.
  intros Hsnap Hst Hsent Hby Hrole Hd Hr Hreply.
  destruct (inviter_name_found E invite s (Hr _) Hby)
    as (name & s1 & Hname & Hi1 & Ho1 & Hw1).
  set (m := {| e_to := field invite "email";
               e_content := InviteContent (field invite "tenantName") name
                              (match role with
                               | "" => ""
                               | String c rest => String (upper_ascii c) rest
                               end) (ie_inviteId event) |}).
  destruct (send_answered E m s1 (Hr _)) as (s2 & Hsend & Ho2 & Hi2 & Hw2 & _).
  set (now := JTimestamp (server_time E (st_calls s2))).
  destruct (update_applied E (ie_inviteId event)
              [("emailSent", JBool true); ("emailSentAt", now);
               ("emailId", JStr mailId)] d s2 (Hr _))
    as (s3 & Hupdate & Ho3 & Hi3 & Hw3 & _); [by rewrite Hi2, Hi1|].
  exists s3, (e_content m),
    (apply_patch [("emailSent", JBool true); ("emailSentAt", now);
                  ("emailId", JStr mailId)] d).
  split.
  { unfold sendInviteEmail. rewrite Hsnap, Hst, Hsent. simpl.
    unfold try_catch, invite_attempt.
    rewrite (bind_ok _ _ _ _ _ Hname), Hrole.
    rewrite (bind_ok _ _ _ _ _ (role_name_string role s1)).
    fold m. rewrite (bind_ok _ _ _ _ _ Hsend), Hreply, timestamp_taken.
    fold now. by rewrite (bind_ok _ _ _ _ _ Hupdate). }
  rewrite Ho3, Ho2, Ho1, Hi3. split; [done|].
  rewrite lookup_insert_eq. split; [done|].
  unfold field. simpl. by rewrite lookup_insert_eq.
Qed.

(** C1 (the code misses it): an invite whose snapshot is not pending or has
    [emailSent === true] causes no delivery call and no write, the state is
    left as it was.  But the guards read the snapshot the event carries and
    never the stored document: when the first invocation has delivered the
    mail and set [emailSent] to [true] in the store, a second invocation on
    the same creation event passes the guards again and delivers again, two
    delivery calls in total where the claim has one. *)
Theorem invite_skip_reads_event_snapshot (E : platform) :
  (∀ (event : invite_event) (invite : doc) (s : state),
     ie_snapshot event = Some invite →
     field invite "status" ≠ JStr "pending"
     ∨ field invite "emailSent" = JBool true →
     sendInviteEmail E event s = (Ok RNull, s))
  ∧ (∀ (event : invite_event) (invite d : doc) (role mailId : string)
       (s : state),
       ie_snapshot event = Some invite →
       field invite "status" = JStr "pending" →
       truthy (field invite "emailSent") = false →
       truthy (field invite "invitedBy") = false
       ∨ (∃ id, field invite "invitedBy" = JStr id) →
       field invite "role" = JStr role →
       st_invites s !! ie_inviteId event = Some d →
       (∀ n, rejects E n = None) →
       (∀ n, mail_reply E n = Delivered mailId) →
       ∃ s1 d1 s2 c1 c2,
         sendInviteEmail E event s = (Ok (RSuccess (Some mailId)), s1)
         ∧ st_invites s1 !! ie_inviteId event = Some d1
         ∧ field d1 "emailSent" = JBool true
         ∧ sendInviteEmail E event s1 = (Ok (RSuccess (Some mailId)), s2)
         ∧ st_outbox s2 = st_outbox s
             ++ [{| e_to := field invite "email"; e_content := c1 |};
                 {| e_to := field invite "email"; e_content := c2 |}]).
Proof.
  split.
  { intros event invite s Hsnap [Hst|Hsent]; eapply invite_guard_skips; eauto.
    right. by rewrite Hsent. }
  intros event invite d role mailId s Hsnap Hst Hsent Hby Hrole Hd Hr Hreply.
  destruct (invite_delivered E event invite d role mailId s
              Hsnap Hst Hsent Hby Hrole Hd Hr Hreply)
    as (s1 & c1 & d1 & Hrun1 & Ho1 & Hd1 & Hflag).
  destruct (invite_delivered E event invite d1 role mailId s1
              Hsnap Hst Hsent Hby Hrole Hd1 Hr Hreply)
    as (s2 & c2 & d2 & Hrun2 & Ho2 & _).
  exists s1, d1, s2, c1, c2. do 4 (split; [done|]).
  by rewrite Ho2, Ho1, <- app_assoc.
Qed.

(** ** Handlers that only read *)






Section ReadOnly.

Variable E : platform.







End ReadOnly.


(** ** The task-assignment handler: what is sent, and when *)

Section TaskRun.

Variable E : platform.

Lemma attempts_send_then {A} (m : email) (a : A) :
  attempts (send E m >> ret a) a [m].
Proof.
  intros s o s'. unfold bind.
  destruct (send E m s) as [[reply|e] s1] eqn:Hsend;
    apply send_call in Hsend as (_ & _ & Ho & _); intros [= <- <-];
    exists [m]; (split; [done|]); [left|right]; eauto.
Qed.

Lemma attempts_task (d : task_details) (event : task_event)
    (assignee : string) :
  renders d = true →
  attempts (task_assigned_rendered E d event assignee)
           (task_result E assignee) (task_mails E event assignee).
Proof.
  intros Hd%render_ok.
  unfold task_assigned_rendered, task_result, task_mails, get_user,
    get_project, get_tenant.
  destruct (users E !! assignee) as [usr|] eqn:Husr.
  - destruct (prefers_off usr "taskAssigned") eqn:Hpref.
    + change (@nil email) with (@nil email ++ []).
      eapply attempts_bind; [apply attempts_read|]. cbv beta iota.
      rewrite Hpref. apply attempts_ret.
    + change [task_assigned_mail E event usr]
        with ([] ++ ([] ++ ([] ++ ([] ++ [task_assigned_mail E event usr])))).
      eapply attempts_bind; [apply attempts_read|]. cbv beta iota.
      rewrite Hpref.
      eapply attempts_bind; [apply attempts_read|].
      eapply attempts_bind; [apply attempts_read|].
      eapply attempts_bind; [apply attempts_actor_name|].
      rewrite Hd. change [task_assigned_mail E event usr]
        with ([] ++ [task_assigned_mail E event usr]).
      eapply attempts_bind; [apply (attempts_ret tt)|].
      apply attempts_send_then.
  - change (@nil email) with (@nil email ++ []).
    eapply attempts_bind; [apply attempts_read|]. apply attempts_ret.
Qed.

Lemma delivers_task (d : task_details) (event : task_event)
    (assignee : string) :
  renders d = true → (∀ n, rejects E n = None) →
  delivers (task_assigned_rendered E d event assignee)
           (task_result E assignee) (task_mails E event assignee).
Proof.
  intros Hd%render_ok Hr.
  unfold task_assigned_rendered, task_result, task_mails, get_user,
    get_project, get_tenant.
  destruct (users E !! assignee) as [usr|] eqn:Husr.
  - destruct (prefers_off usr "taskAssigned") eqn:Hpref.
    + change (@nil email) with (@nil email ++ []).
      eapply delivers_bind; [by apply delivers_read|]. cbv beta iota.
      rewrite Hpref. apply delivers_ret.
    + change [task_assigned_mail E event usr]
        with ([] ++ ([] ++ ([] ++ ([] ++ [task_assigned_mail E event usr])))).
      eapply delivers_bind; [by apply delivers_read|]. cbv beta iota.
      rewrite Hpref.
      eapply delivers_bind; [by apply delivers_read|].
      eapply delivers_bind; [by apply delivers_read|].
      eapply delivers_bind; [by apply delivers_actor_name|].
      rewrite Hd. intros s. unfold bind, lift, send, external, ret. simpl.
      rewrite Hr. eexists. done.
  - change (@nil email) with (@nil email ++ []).
    eapply delivers_bind; [by apply delivers_read|]. apply delivers_ret.
Qed.

Lemma ends_task (d : task_details) (event : task_event)
    (assignee : string) :
  ends_at_rejection E (task_assigned_rendered E d event assignee).
Proof.
  unfold task_assigned_rendered. apply ends_bind; [apply ends_read|].
  intros [user|]; [|apply ends_ret].
  destruct (prefers_off user "taskAssigned"); [apply ends_ret|].
  apply ends_bind; [apply ends_read|]. intros projectDoc.
  apply ends_bind; [apply ends_read|]. intros tenantDoc.
  apply ends_bind; [apply ends_actor_name|]. intros name.
  apply ends_bind; [apply ends_pure|]. intros html.
  apply ends_bind; [apply ends_send|]. intros _. apply ends_ret.
Qed.

End TaskRun.

(** Past its two guards, and when the template renders (the description is
    falsy or a string and the priority is a string), the handler sends the
    assignment mail built from the store, with "Unknown Project" and
    "Unknown Organization" standing in for a missing project or tenant
    document, or sends nothing and returns [null] when the assignee does not
    exist or has turned these mails off; a rejected call ends it with that
    rejection as the failure, and it is the last call made. *)
Theorem task_assignment_run (E : platform) (d : task_details)
    (event : task_event) (assignee : string) (s s' : state)
    (o : outcome result) :
  renders d = true →
  tk_assignedTo (te_before event) ≠ tk_assignedTo (te_after event) →
  tk_assignedTo (te_after event) = Some assignee → assignee ≠ "" →
  sendTaskAssignedEmail_rendered E d event s = (o, s') →
  (∃ sent, st_outbox s' = st_outbox s ++ sent
           ∧ sent `prefix_of` task_mails E event assignee
           ∧ (o = Ok (task_result E assignee)
              ∧ sent = task_mails E event assignee
              ∨ ∃ e, o = Ok (RFailure e)))
  ∧ (∀ n e, (st_calls s ≤ n < st_calls s')%nat → rejects E n = Some e →
            o = Ok (RFailure e) ∧ st_calls s' = S n)
  ∧ ((∀ n, rejects E n = None) →
     o = Ok (task_result E assignee)
     ∧ st_outbox s' = st_outbox s ++ task_mails E event assignee).
Proof.
  intros Hd Hchanged Hafter Hne. unfold sendTaskAssignedEmail_rendered.
  rewrite bool_decide_eq_false_2 by done. rewrite Hafter.
  apply String.eqb_neq in Hne. rewrite Hne. intros Hrun.
  destruct (caught_after_prefix _ _ _ _ _ _
              (attempts_task E d event assignee Hd) Hrun)
    as (sent & Ho & Hpre & Hcases).
  split; [by exists sent|]. split.
  - intros n e. by eapply caught_at_rejection; [apply ends_task|].
  - intros Hr. destruct (delivers_task E d event assignee Hd Hr s)
      as (s1 & Hbody & Hout & _).
    revert Hrun. unfold try_catch. rewrite Hbody. by intros [= <- <-].
Qed.

(** An assignee who has turned assignment mails off, or has no user
    document, costs one read: no other lookup and no delivery call is
    made, the template is not called, and the handler returns [null]. *)
Theorem silent_assignee_costs_one_read (E : platform) (d : task_details)
    (event : task_event) (assignee : string) (s : state) :
  tk_assignedTo (te_before event) ≠ tk_assignedTo (te_after event) →
  tk_assignedTo (te_after event) = Some assignee → assignee ≠ "" →
  rejects E (st_calls s) = None →
  task_mails E event assignee = [] →
  ∃ s', sendTaskAssignedEmail_rendered E d event s = (Ok RNull, s')
        ∧ st_outbox s' = st_outbox s ∧ st_calls s' = S (st_calls s).
Proof.
  intros Hchanged Hafter Hne Hr Hsilent. unfold sendTaskAssignedEmail_rendered.
  rewrite bool_decide_eq_false_2 by done. rewrite Hafter.
  apply String.eqb_neq in Hne. rewrite Hne.
  unfold try_catch, task_assigned_rendered, get_user.
  destruct (read_call_ok E (users E !! assignee) s Hr)
    as (s' & Hread & (_ & Ho & _) & Hc).
  rewrite (bind_ok _ _ _ _ _ Hread). unfold task_mails in Hsilent.
  exists s'. destruct (users E !! assignee) as [usr|]; [|done].
  destruct (prefers_off usr "taskAssigned"); done.
Qed.

(** A task whose description is truthy but not a string, or whose priority
    is not a string (a task document without [priority], say), is never
    announced: the template throws before the delivery call is made, so no
    run makes a delivery call or returns success; and when the assignee
    exists and allows the mail and no call is rejected, the handler returns
    the template's error as a failure. *)
Theorem unrenderable_task_never_delivered (E : platform) (d : task_details)
    (event : task_event) (s : state) :
  renders d = false →
  (∀ o s', sendTaskAssignedEmail_rendered E d event s = (o, s') →
           st_outbox s' = st_outbox s ∧ o ≠ Ok (RSuccess None))
  ∧ (∀ assignee usr,
       tk_assignedTo (te_before event) ≠ tk_assignedTo (te_after event) →
       tk_assignedTo (te_after event) = Some assignee → assignee ≠ "" →
       users E !! assignee = Some usr →
       prefers_off usr "taskAssigned" = false →
       (∀ n, rejects E n = None) →
       ∃ s', sendTaskAssignedEmail_rendered E d event s
             = (Ok (RFailure match generateTaskAssignedHtml d with
                             | Thrown e => e
                             | Ok _ => ""
                             end), s')
             ∧ generateTaskAssignedHtml d ≠ Ok tt
             ∧ st_outbox s' = st_outbox s).
Proof.
  intros [e He]%render_fails. split.
  - intros o s'. unfold sendTaskAssignedEmail_rendered.
    case_bool_decide; [by intros [= <- <-]|].
    destruct (tk_assignedTo (te_after event)) as [a|]; [|by intros [= <- <-]].
    destruct (String.eqb a ""); [by intros [= <- <-]|].
    unfold try_catch, task_assigned_rendered, get_user, bind at 1.
    destruct (external E _ s) as [[u|e1] s1] eqn:H1;
      apply read_call in H1 as ((_ & Ho1 & _) & _ & _);
      [|intros [= <- <-]; by rewrite Ho1].
    destruct u as [user|]; [|intros [= <- <-]; by rewrite Ho1].
    destruct (prefers_off user "taskAssigned");
      [intros [= <- <-]; by rewrite Ho1|].
    unfold get_project, bind at 1.
    destruct (external E _ s1) as [[u2|e2] s2] eqn:H2;
      apply read_call in H2 as ((_ & Ho2 & _) & _ & _);
      [|intros [= <- <-]; by rewrite Ho2, Ho1].
    unfold get_tenant, bind at 1.
    destruct (external E _ s2) as [[u3|e3] s3] eqn:H3;
      apply read_call in H3 as ((_ & Ho3 & _) & _ & _);
      [|intros [= <- <-]; by rewrite Ho3, Ho2, Ho1].
    unfold bind at 1.
    destruct (actor_name E _ s3) as [[name|e4] s4] eqn:H4;
      apply actor_name_quiet in H4 as (_ & Ho4 & _);
      [|intros [= <- <-]; by rewrite Ho4, Ho3, Ho2, Ho1].
    rewrite He. unfold bind, lift, ret.
    intros [= <- <-]. by rewrite Ho4, Ho3, Ho2, Ho1.
  - intros assignee usr Hchanged Hafter Hne Husr Hpref Hr.
    unfold sendTaskAssignedEmail_rendered.
    rewrite bool_decide_eq_false_2 by done. rewrite Hafter.
    apply String.eqb_neq in Hne. rewrite Hne.
    unfold try_catch, task_assigned_rendered, get_user, get_project, get_tenant.
    destruct (read_call_ok E (users E !! assignee) s (Hr _))
      as (s1 & Hread1 & (_ & Ho1 & _) & _).
    rewrite (bind_ok _ _ _ _ _ Hread1), Husr, Hpref.
    destruct (read_call_ok E (find_doc (te_projectId event)
                                (projects E (te_tenantId event))) s1 (Hr _))
      as (s2 & Hread2 & (_ & Ho2 & _) & _).
    rewrite (bind_ok _ _ _ _ _ Hread2).
    destruct (read_call_ok E (find_doc (te_tenantId event) (tenants E)) s2 (Hr _))
      as (s3 & Hread3 & (_ & Ho3 & _) & _).
    rewrite (bind_ok _ _ _ _ _ Hread3).
    destruct (actor_name_ok E (tk_updatedBy (te_after event)) s3 (Hr _))
      as (name & s4 & Hname & (_ & Ho4 & _)).
    rewrite (bind_ok _ _ _ _ _ Hname).
    rewrite He. unfold bind, lift, ret. exists s4.
    split; [done|]. split; [done|]. by rewrite Ho4, Ho3, Ho2, Ho1.
Qed.

(** ** How many external calls a handler makes *)

Lemma calls_pure {A} (o : outcome A) : calls_at_most 0 (lift o).
Proof. intros s o' s' [= <- <-]. lia. Qed.

Lemma calls_ret {A} (a : A) : calls_at_most 0 (ret a).
Proof. apply (calls_pure (Ok a)). Qed.

Lemma calls_mono {A} (k k' : nat) (m : M A) :
  (k ≤ k')%nat → calls_at_most k m → calls_at_most k' m.
Proof. intros Hk Hm s o s' Hrun. specialize (Hm _ _ _ Hrun). lia. Qed.

Lemma calls_bind {A B} (k1 k2 : nat) (m : M A) (k : A → M B) :
  calls_at_most k1 m → (∀ a, calls_at_most k2 (k a)) →
  calls_at_most (k1 + k2) (bind m k).
Proof.
  intros Hm Hk s o s'. unfold bind.
  destruct (m s) as [[a|e] s1] eqn:H1; specialize (Hm _ _ _ H1).
  - intros H2. specialize (Hk a _ _ _ H2). lia.
  - intros [= <- <-]. lia.
Qed.

Lemma calls_try {A} (k1 k2 : nat) (body : M A) (handler : string → M A) :
  calls_at_most k1 body → (∀ e, calls_at_most k2 (handler e)) →
  calls_at_most (k1 + k2) (try_catch body handler).
Proof.
  intros Hm Hk s o s'. unfold try_catch.
  destruct (body s) as [[a|e] s1] eqn:H1; specialize (Hm _ _ _ H1).
  - intros [= <- <-]. lia.
  - intros H2. specialize (Hk e _ _ _ H2). lia.
Qed.

Lemma calls_for_each {A} (k : nat) (xs : list A) (body : A → M unit) :
  (∀ x, calls_at_most k (body x)) →
  calls_at_most (List.length xs * k) (for_each xs body).
Proof.
  intros Hbody. induction xs as [|x xs IH]; simpl; [apply calls_ret|].
  apply calls_bind; [apply Hbody|]. intros _. apply IH.
Qed.

Section CallCounts.

Variable E : platform.

Lemma calls_read {A} (a : A) : calls_at_most 1 (external E (fun _ => ret a)).
Proof.
  intros s o s' Hrun. apply read_call in Hrun as (_ & Hc & _). lia.
Qed.

(** After a read, the continuation runs on the document read. *)
Lemma calls_read_then {A B} (k : nat) (a : A) (cont : A → M B) :
  calls_at_most k (cont a) →
  calls_at_most (S k) (bind (external E (fun _ => ret a)) cont).
Proof.
  intros Hk s o s'. unfold bind.
  destruct (external E _ s) as [[a'|e] s1] eqn:H1;
    apply read_call in H1 as (_ & Hc & Hans);
    destruct (rejects E (st_calls s)); simplify_eq.
  - intros H2. specialize (Hk _ _ _ H2). lia.
  - intros [= <- <-]. lia.
Qed.

Lemma calls_send (m : email) : calls_at_most 1 (send E m).
Proof.
  intros s o s' Hrun. apply send_call in Hrun as (_ & _ & _ & Hc & _). lia.
Qed.

Lemma calls_update (inviteId : string) (patch : list (string * jsval)) :
  calls_at_most 1 (update_invite E inviteId patch).
Proof.
  intros s o s' Hrun. apply update_call in Hrun as (_ & Hc & _). lia.
Qed.

Lemma calls_timestamp : calls_at_most 0 (serverTimestamp E).
Proof. intros s o s' [= <- <-]. lia. Qed.

Lemma calls_actor_name (actor : option string) :
  calls_at_most 1 (actor_name E actor).
Proof.
  unfold actor_name. destruct actor as [a|].
  - destruct (String.eqb a "").
    + apply (calls_mono 0); [lia|apply calls_ret].
    + apply (calls_bind 1 0); [apply calls_read|]. intros u. apply calls_ret.
  - apply (calls_mono 0); [lia|apply calls_ret].
Qed.

Lemma calls_inviter_name (invite : doc) :
  calls_at_most 1 (inviter_name E invite).
Proof.
  unfold inviter_name. destruct (truthy _).
  - apply (calls_bind 1 0); [|intros u; apply calls_ret].
    unfold get_user_js.
    destruct (field invite "invitedBy") as [| | | |id| |];
      try (apply (calls_mono 0); [lia|apply calls_pure]).
    destruct (String.eqb id "").
    + apply (calls_mono 0); [lia|apply calls_pure].
    + apply calls_read.
  - apply (calls_mono 0); [lia|apply calls_ret].
Qed.

Lemma calls_role_name (role : jsval) : calls_at_most 0 (role_name role).
Proof.
  intros s o s' Hrun. apply role_name_pure in Hrun as ->. lia.
Qed.

Lemma calls_notify (c : content) (userId : string) :
  calls_at_most 2 (notify E c userId).
Proof.
  unfold notify. apply (calls_bind 1 1); [apply calls_read|].
  intros [user|]; [|apply (calls_mono 0); [lia|apply calls_ret]].
  destruct (prefers_off user "comments");
    [apply (calls_mono 0); [lia|apply calls_ret]|].
  apply (calls_bind 1 0); [apply calls_send|]. intros _. apply calls_ret.
Qed.

End CallCounts.

(** No handler that reacts to a document makes more than a fixed number of
    external calls: the invite handler at most four (inviter lookup,
    delivery, and the two writes), the task handler at most five (four
    lookups and the delivery) whatever its template does, and the comment
    handler at most four lookups
    and two calls for each user to notify, or the one lookup when the task
    does not exist. *)
Theorem handler_call_bounds (E : platform) (s s' : state) (o : outcome result) :
  (∀ event, sendInviteEmail E event s = (o, s') →
            (st_calls s' ≤ st_calls s + 4)%nat)
  ∧ (∀ d event, sendTaskAssignedEmail_rendered E d event s = (o, s') →
              (st_calls s' ≤ st_calls s + 5)%nat)
  ∧ (∀ event, sendCommentNotification E event s = (o, s') →
       (st_calls s' ≤ st_calls s
          + match find_doc (ce_taskId event)
                    (tasks E (ce_tenantId event) (ce_projectId event)) with
            | Some t =>
                4 + 2 * List.length (comment_recipients t (ce_comment event))
            | None => 1
            end)%nat).
Proof.
  split; [|split].
  - intros event. revert s o s'.
    change (calls_at_most 4 (sendInviteEmail E event)).
    unfold sendInviteEmail.
    destruct (ie_snapshot event) as [invite|];
      [|apply (calls_mono 0); [lia|apply calls_ret]].
    destruct (negb _); [apply (calls_mono 0); [lia|apply calls_ret]|].
    destruct (truthy _); [apply (calls_mono 0); [lia|apply calls_ret]|].
    apply (calls_try 3 1).
    + unfold invite_attempt.
      apply (calls_bind 1 2); [apply calls_inviter_name|]. intros name.
      apply (calls_bind 0 2); [apply calls_role_name|]. intros role.
      apply (calls_bind 1 1); [apply calls_send|].
      intros [id|message]; [|apply (calls_mono 0); [lia|apply calls_pure]].
      apply (calls_bind 0 1); [apply calls_timestamp|]. intros now.
      apply (calls_bind 1 0); [apply calls_update|]. intros _. apply calls_ret.
    + intros e. unfold invite_failed.
      apply (calls_bind 0 1); [apply calls_timestamp|]. intros now.
      apply (calls_bind 1 0); [apply calls_update|]. intros _. apply calls_ret.
  - intros d event. revert s o s'.
    change (calls_at_most 5 (sendTaskAssignedEmail_rendered E d event)).
    unfold sendTaskAssignedEmail_rendered.
    case_bool_decide; [apply (calls_mono 0); [lia|apply calls_ret]|].
    destruct (tk_assignedTo (te_after event)) as [a|];
      [|apply (calls_mono 0); [lia|apply calls_ret]].
    destruct (String.eqb a ""); [apply (calls_mono 0); [lia|apply calls_ret]|].
    apply (calls_try 5 0); [|intros e; apply calls_ret].
    unfold task_assigned_rendered.
    apply (calls_bind 1 4); [apply calls_read|].
    intros [user|]; [|apply (calls_mono 0); [lia|apply calls_ret]].
    destruct (prefers_off user "taskAssigned");
      [apply (calls_mono 0); [lia|apply calls_ret]|].
    apply (calls_bind 1 3); [apply calls_read|]. intros projectDoc.
    apply (calls_bind 1 2); [apply calls_read|]. intros tenantDoc.
    apply (calls_bind 1 1); [apply calls_actor_name|]. intros name.
    apply (calls_bind 0 1); [apply calls_pure|]. intros html.
    apply (calls_bind 1 0); [apply calls_send|]. intros _. apply calls_ret.
  - intros event. revert s o s'.
    match goal with
    | |- ∀ s o s', _ → (_ ≤ _ + ?k)%nat =>
        change (calls_at_most k (sendCommentNotification E event))
    end.
    unfold sendCommentNotification.
    match goal with
    | |- calls_at_most ?k _ => replace k with (k + 0)%nat by lia
    end.
    apply calls_try; [|intros e; apply calls_ret].
    unfold comment_attempt, get_task.
    destruct (find_doc (ce_taskId event) _) as [t|].
    + apply (calls_read_then E).
      apply (calls_bind 1 (2 + 2 * List.length
                                 (comment_recipients t (ce_comment event))));
        [apply calls_read|]. intros projectDoc.
      apply (calls_bind 1 (1 + 2 * List.length
                                 (comment_recipients t (ce_comment event))));
        [apply calls_read|]. intros tenantDoc.
      apply (calls_bind 1 (2 * List.length
                                 (comment_recipients t (ce_comment event))));
        [apply calls_actor_name|]. intros name.
      replace (2 * List.length (comment_recipients t (ce_comment event)))%nat
        with (List.length (comment_recipients t (ce_comment event)) * 2 + 0)%nat
        by lia.
      apply calls_bind; [|intros _; apply calls_ret].
      apply calls_for_each. intros userId. apply calls_notify.
    + apply (calls_read_then E 0). apply calls_ret.
Qed.

(** ** The scan for mentions *)

Lemma run_until_inv (stop : ascii) (s run after : string) :
  run_until stop s = Some (run, after) →
  s = run +:+ String stop after ∧ occurs stop run = false.
Proof.
  revert run. induction s as [|c s IH]; intros run; simpl; [done|].
  destruct (Ascii.eqb c stop) eqn:Hc.
  - apply Ascii.eqb_eq in Hc as ->. by intros [= <- <-].
  - destruct (run_until stop s) as [[run' after']|]; [|done].
    intros [= <- <-]. destruct (IH run' eq_refl) as [-> Hrun].
    split; [done|]. simpl. by rewrite Hc.
Qed.

(** A match is a mention written out: the captures are not empty, the first
    has no closing bracket and the second no closing parenthesis. *)
Lemma match_here_inv (s label userId after : string) :
  match_here s = Some (label, userId, after) →
  s = markup label userId +:+ after
  ∧ label ≠ "" ∧ occurs "]" label = false
  ∧ userId ≠ "" ∧ occurs ")" userId = false.
Proof.
  unfold match_here. destruct s as [|a [|b s1]]; [done..|].
  destruct (Ascii.eqb a "@") eqn:Ha; [|done].
  destruct (Ascii.eqb b "[") eqn:Hb; [|done]. cbn [andb].
  apply Ascii.eqb_eq in Ha as ->. apply Ascii.eqb_eq in Hb as ->.
  destruct (run_until "]" s1) as [[[|c l] [|p s2]]|] eqn:H1; [done..| |done].
  destruct (Ascii.eqb p "(") eqn:Hp; [|done]. apply Ascii.eqb_eq in Hp as ->.
  destruct (run_until ")" s2) as [[[|d u] after']|] eqn:H2; [done| |done].
  intros [= <- <- <-].
  apply run_until_inv in H1 as [-> Hl]. apply run_until_inv in H2 as [-> Hu].
  split; [|done]. unfold markup.
  by rewrite ?append_assoc, ?append_cons, ?append_empty_l, ?append_assoc,
    ?append_cons, ?append_empty_l.
Qed.

Lemma pieces_source_from (n : nat) :
  ∀ s, (String.length s ≤ n)%nat →
       pieces_source (pieces_from 0 s) = s
       ∧ ∀ label userId, Mention label userId ∈ pieces_from 0 s →
           label ≠ "" ∧ occurs "]" label = false
           ∧ userId ≠ "" ∧ occurs ")" userId = false.
Proof.
  induction n as [|n IH]; intros [|c s] Hlen; simpl in Hlen; try lia.
  - split; [done|]. by intros l u ?%elem_of_nil.
  - split; [done|]. by intros l u ?%elem_of_nil.
  - destruct (match_here (String c s)) as [[[l u] after]|] eqn:Hm.
    + rewrite (pieces_at_match _ _ _ _ _ Hm).
      apply match_here_inv in Hm as (Hs & Hwf).
      assert (∃ inside, markup l u = String c inside ∧ s = inside +:+ after)
        as (inside & Hinside & ->).
      { unfold markup in *. rewrite append_cons in Hs. injection Hs as <- ->.
        eexists. by rewrite append_cons. }
      rewrite append_length.
      replace (String.length inside + String.length after
               - String.length after)%nat with (String.length inside) by lia.
      rewrite pieces_skip. rewrite append_length in Hlen.
      destruct (IH after ltac:(lia)) as [Hsrc Hin].
      split.
      * cbn [pieces_source foldr piece_source]. fold (pieces_source (pieces_from 0 after)).
        by rewrite Hsrc, Hinside, append_cons.
      * intros l' u' [[= -> ->]|Hrest]%elem_of_cons; [done|]. by apply Hin.
    + rewrite (pieces_at_plain _ _ Hm).
      destruct (IH s ltac:(lia)) as [Hsrc Hin]. split.
      * cbn [pieces_source foldr piece_source]. fold (pieces_source (pieces_from 0 s)).
        by rewrite Hsrc.
      * intros l' u' [[=]|Hrest]%elem_of_cons. by apply Hin.
Qed.

(** The scan cuts the whole text: written out again, the pieces give the
    text back, for every text; and every match is a mention with a label
    that is not empty and has no closing bracket and an identifier that is
    not empty and has no closing parenthesis. *)
Theorem scan_partitions_text (text : string) :
  pieces_source (pieces text) = text
  ∧ ∀ label userId, Mention label userId ∈ pieces text →
      label ≠ "" ∧ occurs "]" label = false
      ∧ userId ≠ "" ∧ occurs ")" userId = false.
Proof. by apply (pieces_source_from (String.length text)). Qed.

Lemma mentioned_elem (text userId : string) :
  userId ∈ mentioned text ↔ ∃ label, Mention label userId ∈ pieces text.
Proof.
  unfold mentioned. rewrite list_elem_of_omap. split.
  - intros ([c|l u] & Hin & Hsome); [done|]. injection Hsome as ->. eauto.
  - intros (l & Hin). by exists (Mention l userId).
Qed.

(** No user to notify has the empty identifier: the assignee is tested, and
    an identifier captured from the text has at least one character.  So
    the handler never asks for the user document with an empty path. *)
Theorem comment_recipient_ids_not_empty (t : task) (c : comment) :
  "" ∉ comment_recipients t c.
Proof.
  unfold comment_recipients, add_mentions. rewrite add_loop_elem.
  intros [Hin|[Hin _]].
  - destruct (tk_assignedTo t) as [a|]; [|by apply elem_of_nil in Hin].
    destruct (String.eqb a "") eqn:Ha; [by apply elem_of_nil in Hin|].
    simpl in Hin. case_bool_decide; [|by apply elem_of_nil in Hin].
    apply set_add_elem in Hin as [<-|Hin]; [done|by apply elem_of_nil in Hin].
  - apply mentioned_elem in Hin as [l Hin].
    by apply (pieces_source_from (String.length (cm_text c))) in Hin
      as (_ & _ & Hne & _).
Qed.

Lemma clean_length_from (ps : list piece) :
  (String.length
     (foldr (fun p acc => match p with
                          | Plain c => String c acc
                          | Mention label _ => label +:+ acc
                          end) "" ps)
   + sum_list ((fun userId => 5 + String.length userId)%nat
               <$> omap (fun p => match p with
                                  | Mention _ userId => Some userId
                                  | Plain _ => None
                                  end) ps)
   = String.length (pieces_source ps))%nat.
Proof.
  induction ps as [|[c|l u] ps IH]; [done| |].
  - cbn [foldr omap list_omap pieces_source piece_source].
    fold (pieces_source ps).
    rewrite append_cons, append_empty_l. cbn [String.length]. lia.
  - cbn [foldr omap list_omap pieces_source piece_source fmap list_fmap
           sum_list sum_list_with].
    fold (pieces_source ps).
    unfold markup. rewrite !append_length. cbn [String.length].
    unfold sum_list, id in *. lia.
Qed.

(** [replace] removes from the text exactly the markup around each label:
    the five characters [@], [[], []], [(] and [)] and the identifier of
    every mention, so the cleaned text is never longer than the text. *)
Theorem clean_mentions_length (text : string) :
  (String.length (clean_mentions text)
   + sum_list ((fun userId => 5 + String.length userId)%nat <$> mentioned text)
   = String.length text)%nat.
Proof.
  unfold clean_mentions, mentioned. rewrite clean_length_from.
  f_equal. by apply (pieces_source_from (String.length text)).
Qed.

(** ** Who a comment is notified to *)

Lemma comment_recipient_not_author (t : task) (c : comment) (u : string) :
  u ∈ comment_recipients t c → cm_createdBy c ≠ Some u.
Proof.
  unfold comment_recipients, add_mentions. rewrite add_loop_elem.
  intros [Hin|[_ Hne]]; [|congruence].
  destruct (tk_assignedTo t) as [a|]; [|by apply elem_of_nil in Hin].
  destruct (String.eqb a ""); [by apply elem_of_nil in Hin|].
  simpl in Hin. case_bool_decide as Ha; [|by apply elem_of_nil in Hin].
  apply set_add_elem in Hin as [->|Hin]; [congruence|by apply elem_of_nil in Hin].
Qed.

(** In every run, whatever is rejected, each notification of a comment goes
    to the address of an existing user who is among the users to notify, is
    not the comment's author and has not turned comment mails off, and it
    carries the comment with its mentions replaced by their labels.  A
    comment on a task that does not exist costs the one lookup and notifies
    nobody. *)
Theorem comment_mails_addressed (E : platform) (event : comment_event)
    (s s' : state) (o : outcome result) :
  sendCommentNotification E event s = (o, s') →
  ∃ sent, st_outbox s' = st_outbox s ++ sent
    ∧ match find_doc (ce_taskId event)
              (tasks E (ce_tenantId event) (ce_projectId event)) with
      | Some t =>
          ∀ m, m ∈ sent →
            ∃ userId usr,
              userId ∈ comment_recipients t (ce_comment event)
              ∧ cm_createdBy (ce_comment event) ≠ Some userId
              ∧ users E !! userId = Some usr
              ∧ prefers_off usr "comments" = false
              ∧ e_to m = u_email usr
              ∧ ∃ taskTitle projectTitle tenantName commenterName,
                  e_content m
                  = CommentContent taskTitle projectTitle tenantName
                      commenterName
                      (clean_mentions (cm_text (ce_comment event)))
      | None =>
          sent = [] ∧ st_calls s' = S (st_calls s)
          ∧ (o = Ok RNull ∨ ∃ e, o = Ok (RFailure e))
      end.
Proof.
  intros Hrun.
  destruct (caught_after_prefix _ _ _ _ _ _ (attempts_comment E event) Hrun)
    as (sent & Ho & Hpre & Hcases).
  exists sent. split; [done|].
  destruct (find_doc (ce_taskId event) _) as [t|] eqn:Htask.
  - intros m Hm. destruct Hpre as [later Hlater].
    assert (Hin : m ∈ comment_mails E event t)
      by (rewrite Hlater, elem_of_app; by left).
    unfold comment_mails in Hin.
    apply list_elem_of_omap in Hin as (userId & Hrec & Hmail).
    unfold comment_mail in Hmail.
    destruct (users E !! userId) as [usr|] eqn:Husr; [|done].
    destruct (prefers_off usr "comments") eqn:Hpref; [done|].
    injection Hmail as <-. exists userId, usr.
    split; [done|]. split; [by apply (comment_recipient_not_author t)|].
    do 3 (split; [done|]). unfold comment_content. by eexists _, _, _, _.
  - apply prefix_nil_inv in Hpre as ->. split; [done|]. split.
    + revert Hrun.
      unfold sendCommentNotification, try_catch, comment_attempt, get_task,
        bind at 1.
      destruct (external E _ s) as [[u|e] s1] eqn:Hread;
        apply read_call in Hread as (_ & Hc & Hans).
      * destruct (rejects E (st_calls s)); [done|]. injection Hans as ->.
        rewrite Htask. by intros [= <- <-].
      * by intros [= <- <-].
    + destruct Hcases as [[-> _]|]; eauto.
Qed.

(** ** The reminder run: grouping, order and lines *)

Lemma group_tasks_message (p : project) (projectId : string)
    (taskDocs : list (string * task)) (o : assignee_table) (e : string) :
  group_tasks p projectId o taskDocs = Thrown e → e = push_error.
Proof.
  revert o. induction taskDocs as [|[taskId t] rest IH]; intros o; simpl; [done|].
  destruct (tk_assignedTo t) as [a|]; [|apply IH].
  destruct (String.eqb a ""); [apply IH|].
  destruct (own a o); [apply IH|].
  case_bool_decide; [by intros [= <-]|apply IH].
Qed.

Lemma group_tasks_inherited (p : project) (projectId : string)
    (taskDocs : list (string * task)) (taskDoc : string * task) (a : string) :
  taskDoc ∈ taskDocs → assignee_of taskDoc.2 = Some a → a ∈ inherited_keys →
  group_tasks p projectId [] taskDocs = Thrown push_error.
Proof.
  intros Hin Ha Hkey.
  destruct (group_tasks p projectId [] taskDocs) as [o|e] eqn:Hgroup.
  - apply group_tasks_plain in Hgroup; [|by intros k ?%elem_of_nil].
    by destruct (Hgroup taskDoc a Hin Ha).
  - by apply group_tasks_message in Hgroup as ->.
Qed.

(** The grouping of a project's tasks goes through exactly when no task
    with a non-empty assignee is assigned to a name that object literals
    inherit; otherwise it throws the [TypeError] of [push]. *)
Theorem grouping_succeeds_iff_plain (p : project) (projectId : string)
    (taskDocs : list (string * task)) :
  ((∃ o, group_tasks p projectId [] taskDocs = Ok o)
   ↔ plain_assignees taskDocs)
  ∧ (group_tasks p projectId [] taskDocs = Thrown push_error
     ↔ ¬ plain_assignees taskDocs).
Proof.
  assert (Hiff : (∃ o, group_tasks p projectId [] taskDocs = Ok o)
                 ↔ plain_assignees taskDocs).
  { split.
    - intros [o Hgroup]. eapply group_tasks_plain; [|exact Hgroup].
      by intros k ?%elem_of_nil.
    - intros Hplain. rewrite (group_tasks_distinct p projectId) by done. eauto. }
  split; [exact Hiff|]. split.
  - intros Hthrown Hplain. apply Hiff in Hplain as [o Hgroup]. congruence.
  - intros Hnot.
    destruct (group_tasks p projectId [] taskDocs) as [o|e] eqn:Hgroup.
    + destruct Hnot. apply Hiff. eauto.
    + by apply group_tasks_message in Hgroup as ->.
Qed.

Lemma fails_only_ret {A} (e : string) (a : A) : fails_only_with e (ret a).
Proof. intros s o s' [= <- <-]. eauto. Qed.

Lemma fails_only_bind {A B} (e : string) (m : M A) (k : A → M B) :
  fails_only_with e m → (∀ a, fails_only_with e (k a)) →
  fails_only_with e (bind m k).
Proof.
  intros Hm Hk s o s'. unfold bind.
  destruct (m s) as [[a|e'] s1] eqn:H1.
  - apply Hk.
  - intros [= <- <-]. by destruct (Hm _ _ _ H1) as [[a [=]] | [= ->]]; right.
Qed.

Lemma fails_only_for_each {A} (e : string) (xs : list A) (body : A → M unit) :
  (∀ x, fails_only_with e (body x)) → fails_only_with e (for_each xs body).
Proof.
  intros Hbody. induction xs as [|x xs IH]; simpl; [apply fails_only_ret|].
  apply fails_only_bind; [apply Hbody|]. intros _. apply IH.
Qed.

Lemma fails_for_each {A} (e : string) (xs : list A) (body : A → M unit)
    (x : A) :
  (∀ y, fails_only_with e (body y)) → x ∈ xs → fails_with e (body x) →
  fails_with e (for_each xs body).
Proof.
  intros Honly Hin Hx. induction xs as [|y xs IH]; [by apply elem_of_nil in Hin|].
  intros s. simpl. unfold bind.
  destruct (body y s) as [[[]|e'] s1] eqn:Hy.
  - apply elem_of_cons in Hin as [->|Hin]; [|by apply IH].
    destruct (Hx s) as [s2 Hs]. congruence.
  - destruct (Honly _ _ _ _ Hy) as [[a [=]] | [= ->]]. eauto.
Qed.

Lemma fails_bind_l {A B} (e : string) (m : M A) (k : A → M B) :
  fails_with e m → fails_with e (bind m k).
Proof. intros Hm s. destruct (Hm s) as [s' Hs]. unfold bind. rewrite Hs. eauto. Qed.

Section Grouping.

Variable E : platform.
Hypothesis no_rejection : ∀ n, rejects E n = None.

Lemma fails_only_read {A} (e : string) (a : A) :
  fails_only_with e (external E (fun _ => ret a)).
Proof.
  intros s o s' Hrun. apply read_call in Hrun as (_ & _ & Hans).
  rewrite no_rejection in Hans. eauto.
Qed.

Lemma fails_only_send (e : string) (m : email) :
  fails_only_with e (send E m).
Proof.
  intros s o s' Hrun. apply send_call in Hrun as (_ & _ & _ & _ & Hans).
  rewrite no_rejection in Hans. eauto.
Qed.

Lemma fails_after_read {A B} (e : string) (a : A) (k : A → M B) :
  fails_with e (k a) → fails_with e (bind (external E (fun _ => ret a)) k).
Proof.
  intros Hk s.
  destruct (read_call_ok E a s (no_rejection _)) as (s1 & Hread & _).
  rewrite (bind_ok _ _ _ _ _ Hread). apply Hk.
Qed.

Lemma fails_only_remind_project (tenantId : string) (t : tenant)
    (projectDoc : string * project) :
  fails_only_with push_error (remind_project E tenantId t projectDoc).
Proof.
  destruct projectDoc as [projectId p]. unfold remind_project.
  apply fails_only_bind; [apply fails_only_read|]. intros taskDocs.
  apply fails_only_bind.
  - intros s o s' [= <- <-].
    destruct (group_tasks p projectId [] taskDocs) as [o|e] eqn:Hgroup; [eauto|].
    apply group_tasks_message in Hgroup as ->. by right.
  - intros tasksByAssignee. apply fails_only_for_each. intros [userId items].
    unfold remind. apply fails_only_bind; [apply fails_only_read|].
    intros [user|]; [|apply fails_only_ret].
    destruct (prefers_off user "dueReminders"); [apply fails_only_ret|].
    apply fails_only_bind; [apply fails_only_send|]. intros _.
    apply fails_only_ret.
Qed.

Lemma fails_only_remind_tenant (tenantDoc : string * tenant) :
  fails_only_with push_error (remind_tenant E tenantDoc).
Proof.
  destruct tenantDoc as [tenantId t]. unfold remind_tenant.
  apply fails_only_bind; [apply fails_only_read|]. intros projectDocs.
  apply fails_only_for_each. intros projectDoc. apply fails_only_remind_project.
Qed.

Lemma fails_reminders (tenantDoc : string * tenant)
    (projectDoc : string * project) (taskDoc : string * task) (a : string) :
  tenantDoc ∈ tenants E → projectDoc ∈ projects E tenantDoc.1 →
  taskDoc ∈ due_tasks E tenantDoc.1 projectDoc.1 →
  assignee_of taskDoc.2 = Some a → a ∈ inherited_keys →
  fails_with push_error
    (let! tenantDocs := query_tenants E in
     for_each tenantDocs (remind_tenant E) >> ret (RSuccess None)).
Proof.
  intros Ht Hp Hin Ha Hkey. unfold query_tenants.
  apply fails_after_read, fails_bind_l.
  apply (fails_for_each _ _ _ tenantDoc);
    [apply fails_only_remind_tenant|done|].
  destruct tenantDoc as [tenantId t]. unfold remind_tenant, query_projects.
  apply fails_after_read.
  apply (fails_for_each _ _ _ projectDoc);
    [intros y; apply fails_only_remind_project|done|].
  destruct projectDoc as [projectId p]. unfold remind_project, query_due_tasks.
  apply fails_after_read. apply fails_bind_l. intros s. exists s.
  unfold lift. f_equal. by eapply group_tasks_inherited.
Qed.

End Grouping.

(** A due task assigned to a name that object literals inherit
    ([constructor], [toString], ...) fails the whole run, even when no call
    is rejected: the grouping throws, the run returns that failure, and the
    digests sent are only some first ones of the run. *)
Theorem inherited_assignee_fails_run (E : platform)
    (tenantDoc : string * tenant) (projectDoc : string * project)
    (taskDoc : string * task) (a : string) (s : state) :
  (∀ n, rejects E n = None) →
  tenantDoc ∈ tenants E → projectDoc ∈ projects E tenantDoc.1 →
  taskDoc ∈ due_tasks E tenantDoc.1 projectDoc.1 →
  assignee_of taskDoc.2 = Some a → a ∈ inherited_keys →
  ∃ s' sent, sendDueDateReminders E s = (Ok (RFailure push_error), s')
             ∧ st_outbox s' = st_outbox s ++ sent
             ∧ sent `prefix_of` run_digests E.
Proof.
  intros Hr Ht Hp Hin Ha Hkey.
  destruct (fails_reminders E Hr tenantDoc projectDoc taskDoc a
              Ht Hp Hin Ha Hkey s) as [s' Hbody].
  assert (Hrun : sendDueDateReminders E s = (Ok (RFailure push_error), s')).
  { unfold sendDueDateReminders, try_catch. by rewrite Hbody. }
  destruct (caught_after_prefix _ _ _ _ _ _ (attempts_reminders E) Hrun)
    as (sent & Ho & Hpre & _).
  by exists s', sent.
Qed.

Lemma object_entries_plain (o : assignee_table) :
  (∀ kv, kv ∈ o → array_index kv.1 = None) → object_entries o = o.
Proof.
  intros Hplain. unfold object_entries.
  assert (Hnone : omap (fun kv : string * list reminder_item =>
                          (fun n => (n, kv)) <$> array_index kv.1) o = []).
  { induction o as [|kv o IH]; [done|]. simpl.
    rewrite (Hplain kv) by left. simpl. apply IH.
    intros kv' Hin. apply Hplain. by right. }
  rewrite Hnone. simpl.
  induction o as [|kv o IH]; [done|].
  rewrite filter_cons, decide_True by (apply Hplain; left).
  f_equal. apply IH.
  - intros kv' Hin. apply Hplain. by right.
  - simpl in Hnone. rewrite (Hplain kv) in Hnone by left. exact Hnone.
Qed.

(** When no assignee of a project's due tasks is written as an array index
    (a canonical numeral), [Object.entries] keeps the insertion order: the
    digests of the project are sent in the order in which the assignees
    first occur among the tasks. *)
Theorem digests_in_first_seen_order (E : platform)
    (tenantDoc : string * tenant) (projectDoc : string * project) :
  plain_assignees (due_tasks E tenantDoc.1 projectDoc.1) →
  (∀ a, a ∈ due_assignees E tenantDoc.1 projectDoc.1 → array_index a = None) →
  project_digests E tenantDoc projectDoc
  = omap (fun a => digest_mail E tenantDoc.2
                     (a, items_for projectDoc.2 projectDoc.1 a
                           (due_tasks E tenantDoc.1 projectDoc.1)))
         (due_assignees E tenantDoc.1 projectDoc.1).
Proof.
  intros Hplain Hindex. unfold project_digests.
  rewrite (group_tasks_distinct projectDoc.2 projectDoc.1) by done.
  fold (due_assignees E tenantDoc.1 projectDoc.1).
  rewrite object_entries_plain.
  - generalize (due_assignees E tenantDoc.1 projectDoc.1). intros l.
    induction l as [|a l IH]; [done|]. simpl.
    destruct (digest_mail E tenantDoc.2 _); [f_equal|]; exact IH.
  - intros kv (a & -> & Ha)%list_elem_of_fmap. by apply Hindex.
Qed.

(** In every run, whatever is rejected, every line of every digest sent is a
    stored task of one project that is due (from today on and before the
    day after tomorrow, and not done) and is assigned to the user the digest
    goes to; a digest has at least one line, and all its lines carry that
    project's identifier and title. *)
Theorem digest_lines_are_due (E : platform) (s s' : state)
    (o : outcome result) :
  sendDueDateReminders E s = (o, s') →
  ∃ sent, st_outbox s' = st_outbox s ++ sent
    ∧ ∀ m, m ∈ sent →
        ∃ tenantDoc projectDoc userId usr items,
          tenantDoc ∈ tenants E ∧ projectDoc ∈ projects E tenantDoc.1
          ∧ users E !! userId = Some usr
          ∧ prefers_off usr "dueReminders" = false
          ∧ m = {| e_to := u_email usr;
                   e_content := DueReminderContent
                                  (js_or (u_name usr) (JStr "there"))
                                  (tn_name tenantDoc.2) (tn_slug tenantDoc.2)
                                  items |}
          ∧ items ≠ []
          ∧ ∀ item, item ∈ items →
              (ri_id item, ri_task item) ∈ tasks E tenantDoc.1 projectDoc.1
              ∧ qualifies E (ri_task item)
              ∧ tk_assignedTo (ri_task item) = Some userId
              ∧ ri_projectId item = projectDoc.1
              ∧ ri_projectTitle item = pj_title projectDoc.2.
Proof.
  intros Hrun.
  destruct (caught_after_prefix _ _ _ _ _ _ (attempts_reminders E) Hrun)
    as (sent & Ho & Hpre & _).
  exists sent. split; [done|]. intros m Hm.
  apply (elem_of_prefix _ _ _ Hm) in Hpre. unfold run_digests in Hpre.
  apply list_elem_of_bind in Hpre
    as (tenantDoc & (projectDoc & Hin & Hp)%list_elem_of_bind & Ht).
  apply project_digests_elem in Hin as (a & Ha & Hmail).
  unfold digest_mail in Hmail. simpl in Hmail.
  destruct (users E !! a) as [usr|] eqn:Husr; [|done].
  destruct (prefers_off usr "dueReminders") eqn:Hpref; [done|].
  injection Hmail as <-.
  exists tenantDoc, projectDoc, a, usr,
    (items_for projectDoc.2 projectDoc.1 a (due_tasks E tenantDoc.1 projectDoc.1)).
  do 5 (split; [done|]). split.
  - apply items_for_nonempty. by apply distinct_elem.
  - intros item. unfold items_for.
    intros ([taskId t] & -> & Hdue)%list_elem_of_fmap. simpl.
    apply list_elem_of_filter in Hdue as [Hassigned Hdue]. simpl in Hassigned.
    unfold due_tasks in Hdue.
    apply list_elem_of_filter in Hdue as [Hsoon Hstored]. simpl in Hsoon.
    split; [done|]. split; [by apply due_soon_qualifies|].
    split; [by apply assignee_of_Some in Hassigned as [? _]|done].
Qed.

(** ** Names shown in a mail *)

Lemma js_or_truthy (a b : jsval) : truthy b = true → truthy (js_or a b) = true.
Proof. unfold js_or. by destruct (truthy a) eqn:Ha. Qed.

Lemma display_name_truthy (u : option user) (fallback : string) :
  fallback ≠ "" → truthy (display_name u fallback) = true.
Proof.
  intros Hne. assert (Hf : truthy (JStr fallback) = true).
  { simpl. by apply negb_true_iff, String.eqb_neq. }
  destruct u as [usr|]; [|done]. simpl. by do 2 apply js_or_truthy.
Qed.

(** The name of the inviter, assigner or commenter put in a mail, and the
    name a digest greets, is never blank: [name || email || fallback] ends
    in a fallback that is not empty, also when the user document has
    neither field. *)
Theorem shown_names_never_blank (E : platform) :
  (∀ actor s name s',
     actor_name E actor s = (Ok name, s') →
     truthy name = true ∧ (rejects E (st_calls s) = None →
                           name = actor_display E actor))
  ∧ (∀ invite s name s',
       inviter_name E invite s = (Ok name, s') → truthy name = true)
  ∧ (∀ usr, truthy (js_or (u_name usr) (JStr "there")) = true).
Proof.
  split; [|split].
  - intros actor s name s'. unfold actor_name, actor_display, get_user.
    destruct actor as [a|]; [|by intros [= <- <-]].
    destruct (String.eqb a ""); [by intros [= <- <-]|].
    unfold bind. destruct (external E _ s) as [[u|e] s1] eqn:Hread; [|done].
    apply read_call in Hread as (_ & _ & Hans). intros [= <- <-].
    split; [by apply display_name_truthy|].
    intros Hr. rewrite Hr in Hans. by injection Hans as ->.
  - intros invite s name s'. unfold inviter_name.
    destruct (truthy _); [|by intros [= <- <-]].
    unfold bind. destruct (get_user_js E _ s) as [[u|e] s1]; [|done].
    intros [= <- <-]. by apply display_name_truthy.
  - intros usr. by apply js_or_truthy.
Qed.

(** * The scenarios *)

Lemma never_rejects (reply : send_reply) (n : nat) :
  rejects (a_platform never reply) n = None.
Proof. reflexivity. Qed.

Lemma scenario_keys_plain (a : string) :
  a = "u2" ∨ a = "u3" → a ∉ inherited_keys.
Proof.
  intros Ha Hin. unfold inherited_keys in Hin.
  repeat (apply elem_of_cons in Hin as [Heq|Hin];
          [destruct Ha as [-> | ->]; discriminate Heq|]).
  by apply elem_of_nil in Hin.
Qed.

Lemma scenario_plain_tasks (E : platform) (tenantId projectId : string) :
  tasks E = tasks (a_platform never (Delivered "m1")) →
  plain_assignees (due_tasks E tenantId projectId).
Proof.
  intros Htasks taskDoc a [_ Hin]%list_elem_of_filter Ha.
  rewrite Htasks in Hin. simpl in Hin.
  apply scenario_keys_plain. apply assignee_of_Some in Ha as [Ha _].
  destruct (String.eqb projectId "p1");
    repeat (apply elem_of_cons in Hin as [->|Hin];
            [simpl in Ha; injection Ha as <-; tauto|]);
    by apply elem_of_nil in Hin.
Qed.

Lemma scenario_plain_run (reply : send_reply) :
  plain_run (a_platform never reply)
  ∧ plain_run (one_project (a_platform never reply)).
Proof. split; intros tenantDoc projectDoc _ _; by apply scenario_plain_tasks. Qed.

(** C1, on the creation event of the stored invite handled twice: the first
    run sets [emailSent] to [true] in the store, the second run delivers
    again. *)
Lemma invite_skip_reads_event_snapshot_witness :
  let E := a_platform never (Delivered "m1") in
  ∃ s1 d1 s2 c1 c2,
    sendInviteEmail E invite_created invite_stored
    = (Ok (RSuccess (Some "m1")), s1)
    ∧ st_invites s1 !! "i1" = Some d1
    ∧ field d1 "emailSent" = JBool true
    ∧ sendInviteEmail E invite_created s1 = (Ok (RSuccess (Some "m1")), s2)
    ∧ st_outbox s2 = st_outbox invite_stored
        ++ [{| e_to := field an_invite "email"; e_content := c1 |};
            {| e_to := field an_invite "email"; e_content := c2 |}].
Proof.
  refine (proj2 (invite_skip_reads_event_snapshot
                   (a_platform never (Delivered "m1")))
                invite_created an_invite an_invite "member" "m1" invite_stored
                _ _ _ _ _ _ _ _).
  - reflexivity.
  - vm_compute. reflexivity.
  - vm_compute. reflexivity.
  - right. exists "u1". vm_compute. reflexivity.
  - vm_compute. reflexivity.
  - vm_compute. reflexivity.
  - intros n. reflexivity.
  - intros n. reflexivity.
Defined.

(** C2: with two projects in one tenant, [u2] gets two digests in one run,
    one per project. *)
Lemma one_digest_per_project_not_per_tenant :
  summary <$> st_outbox (sendDueDateReminders (a_platform never (Delivered "m1"))
                           (no_calls_yet ∅)).2
  = [(JStr "bob@x.lu", 2); (JStr "cara@x.lu", 1); (JStr "bob@x.lu", 1)].
Proof. vm_compute. reflexivity. Qed.

(** C2, on the tasks of the specification's example in one project: two
    digests, two lines for the one assignee and one line for the other. *)
Lemma digests_grouped_per_project_witness :
  let E := one_project (a_platform never (Delivered "m1")) in
  ∃ s', sendDueDateReminders E (no_calls_yet ∅) = (Ok (RSuccess None), s')
        ∧ summary <$> st_outbox s' = [(JStr "bob@x.lu", 2); (JStr "cara@x.lu", 1)].
Proof.
  destruct (proj1 (digests_grouped_per_project
                     (one_project (a_platform never (Delivered "m1")))
                     (no_calls_yet ∅)
                     (never_rejects (Delivered "m1"))
                     (proj2 (scenario_plain_run (Delivered "m1")))))
    as (s' & Hrun & Hsent).
  exists s'. split; [exact Hrun|]. rewrite Hsent. vm_compute. reflexivity.
Defined.

(** C3: the delivery to the first recipient throws; the second recipient,
    who exists and allows comment mails, gets no delivery call. *)
Lemma thrown_delivery_ends_fanout :
  let E := a_platform (only 5 "ECONNRESET") (Delivered "m1") in
  comment_recipients (a_task (Some "u2") 8) (ce_comment a_comment) = ["u2"; "u3"]
  ∧ (sendCommentNotification E a_comment (no_calls_yet ∅)).1
    = Ok (RFailure "ECONNRESET")
  ∧ e_to <$> st_outbox (sendCommentNotification E a_comment (no_calls_yet ∅)).2
    = [JStr "bob@x.lu"]
  ∧ e_to <$> st_outbox (sendCommentNotification (a_platform never (Delivered "m1"))
                          a_comment (no_calls_yet ∅)).2
    = [JStr "bob@x.lu"; JStr "cara@x.lu"].
Proof. vm_compute. repeat split; reflexivity. Qed.

(** C3, with a mail service that refuses every delivery: both recipients of
    the comment still get their delivery call. *)
Lemma fanout_failure_handling_witness :
  let E := a_platform never (Refused "quota exceeded") in
  delivers (sendCommentNotification E a_comment) (RSuccess None)
           (comment_mails E a_comment (a_task (Some "u2") 8)).
Proof.
  refine (proj1 (proj1 (proj2 (proj2 (fanout_failure_handling
                          (a_platform never (Refused "quota exceeded")))))
                       (never_rejects _))
                a_comment (a_task (Some "u2") 8) _).
  reflexivity.
Defined.

(** C4: the updater assigns a task with a description and a priority to
    themselves and is notified. *)
Lemma self_assignment_is_notified :
  tk_updatedBy (te_after self_assignment) = tk_assignedTo (te_after self_assignment)
  ∧ e_to <$> st_outbox (sendTaskAssignedEmail_rendered
                          (a_platform never (Delivered "m1")) some_details
                          self_assignment (no_calls_yet ∅)).2
    = [JStr "ann@x.lu"].
Proof. vm_compute. split; reflexivity. Qed.

Lemma task_assignment_notifies_assignee_witness :
  let E := a_platform never (Delivered "m1") in
  ∃ c s', sendTaskAssignedEmail_rendered E some_details self_assignment
            (no_calls_yet ∅)
          = (Ok (RSuccess None), s')
          ∧ st_outbox s' = st_outbox (no_calls_yet ∅)
              ++ [{| e_to := u_email (a_user "Ann" "ann@x.lu" JUndefined);
                     e_content := c |}].
Proof.
  refine (proj2 (task_assignment_notifies_assignee
                   (a_platform never (Delivered "m1")) some_details
                   self_assignment (no_calls_yet ∅))
                "u1" (a_user "Ann" "ann@x.lu" JUndefined) _ _ _ _ _ _
                (never_rejects _)).
  - discriminate.
  - reflexivity.
  - discriminate.
  - vm_compute. reflexivity.
  - reflexivity.
  - reflexivity.
Defined.

(** C5, on a user who has set [comments] to [false]. *)
Lemma preference_gate_opt_out_witness :
  prefers_off (a_user "Dan" "dan@x.lu" (JObj {[ "comments" := JBool false ]}))
              "comments" = true
  ∧ prefers_off (a_user "Dan" "dan@x.lu" (JObj {[ "comments" := JBool false ]}))
                "dueReminders" = false
  ∧ prefers_off (a_user "Bob" "bob@x.lu" JNull) "comments" = false.
Proof.
  split; [|split].
  - apply (proj1 (preference_gate_opt_out _ "comments")).
    eexists. split; reflexivity.
  - eapply (proj1 (proj2 (proj2 (proj2 (preference_gate_opt_out _ "dueReminders"))))).
    + reflexivity.
    + vm_compute. reflexivity.
  - by apply (proj1 (proj2 (proj2 (preference_gate_opt_out _ "comments")))).
Defined.

(** C6, on a comment whose author mentions themselves and the assignee. *)
Lemma comment_recipients_set_witness :
  ("u1" ∉ comment_recipients (a_task (Some "u2") 8)
            {| cm_text := "@[Ann](u1) and @[Bob](u2) and @[Bob](u2)";
               cm_createdBy := Some "u1" |})
  ∧ NoDup (comment_recipients (a_task (Some "u2") 8)
             {| cm_text := "@[Ann](u1) and @[Bob](u2) and @[Bob](u2)";
                cm_createdBy := Some "u1" |}).
Proof.
  split.
  - by apply (proj1 (proj2 (comment_recipients_set _ _)) "u1").
  - apply (proj1 (comment_recipients_set _ _)).
Defined.

(** C7, on the example of the specification. *)
Lemma mention_extraction_witness :
  add_mentions "ping @[Bob](u2) and @[Bob](u2) again" (Some "u1") [] = ["u2"]
  ∧ clean_mentions "ping @[Bob](u2) and @[Bob](u2) again"
    = "ping Bob and Bob again".
Proof.
  refine (proj2 (mention_extraction "u1")
            [("ping ", "Bob", "u2"); (" and ", "Bob", "u2")] " again" _ _).
  - repeat constructor; discriminate.
  - reflexivity.
Defined.

(** C8, on the two-project scenario. *)
Lemma reminder_recipients_exact_witness :
  let E := a_platform never (Delivered "m1") in
  ∃ s' sent,
    sendDueDateReminders E (no_calls_yet ∅) = (Ok (RSuccess None), s')
    ∧ st_outbox s' = st_outbox (no_calls_yet ∅) ++ sent
    ∧ ∀ userId, (∃ m, m ∈ sent ∧ digest_of E userId m)
                ↔ reminder_recipient E userId.
Proof.
  exact (proj2 (reminder_recipients_exact (a_platform never (Delivered "m1"))
                  (no_calls_yet ∅))
               (never_rejects _) (proj1 (scenario_plain_run _))).
Defined.

(** C9: the delivery is refused and the failure write is rejected; the
    rejection leaves the handler instead of a failure result. *)
Lemma failed_failure_write_escapes :
  (sendInviteEmail (a_platform (only 2 "UNAVAILABLE") (Refused "bounced"))
     invite_created invite_stored).1
  = Thrown "UNAVAILABLE".
Proof. vm_compute. reflexivity. Qed.

(** C9, on a refused delivery with the store available. *)
Lemma invite_failure_recorded_witness :
  let E := a_platform never (Refused "bounced") in
  ∃ s2, sendInviteEmail E invite_created invite_stored
        = (Ok (RFailure "bounced"), s2)
        ∧ st_writes s2
          = [("i1", [("emailError", JStr "bounced");
                     ("emailAttemptedAt", JTimestamp 2)])]
        ∧ field (default ∅ (st_invites s2 !! "i1")) "emailSent" = JBool false.
Proof.
  pose proof (invite_failure_recorded (a_platform never (Refused "bounced"))
                invite_created an_invite invite_stored
                eq_refl eq_refl eq_refl) as [Hthrows Hrecorded].
  destruct (Hthrows (JStr "Ann") "member" "bounced"
              {| st_calls := 1; st_invites := {[ "i1" := an_invite ]};
                 st_outbox := []; st_writes := [] |}
              eq_refl eq_refl eq_refl eq_refl) as [s1 Hattempt].
  assert (Hs1 : st_calls s1 = 2).
  { vm_compute in Hattempt. by injection Hattempt as <-. }
  destruct (proj1 (Hrecorded "bounced" s1 Hattempt) an_invite)
    as (s2 & Hrun & Hwrites & Hinvites & _ & Hsent & _).
  - apply never_rejects.
  - reflexivity.
  - exists s2. split; [exact Hrun|]. rewrite Hwrites, Hinvites, Hs1.
    split; [reflexivity|]. rewrite lookup_insert_eq. exact Hsent.
Defined.

(** C10, with every preference of every user turned off. *)
Lemma invite_ignores_preferences_witness :
  let E := a_platform never (Delivered "m1") in
  sendInviteEmail (with_preferences every_preference_off E)
    invite_created invite_stored
  = sendInviteEmail E invite_created invite_stored
  ∧ ∃ c o s2,
      sendInviteEmail (with_preferences every_preference_off E)
        invite_created invite_stored = (o, s2)
      ∧ st_outbox s2 = st_outbox invite_stored
          ++ [{| e_to := field an_invite "email"; e_content := c |}].
Proof.
  destruct (invite_ignores_preferences every_preference_off
              (a_platform never (Delivered "m1")) invite_created an_invite
              invite_stored eq_refl eq_refl eq_refl) as [Hsame Hone].
  split; [exact Hsame|]. apply (proj2 Hone).
  - reflexivity.
  - right. by exists "u1".
  - by exists "member".
Defined.

(** ** Further scenarios *)

(** A created invite passes the guards: the handler does not return
    [null]. *)
Lemma invite_null_iff_skipped_witness :
  let E := a_platform never (Delivered "m1") in
  let run := sendInviteEmail E invite_created invite_stored in
  (run.1 = Ok RNull ↔ invite_skipped invite_created)
  ∧ (invite_skipped invite_created → run.2 = invite_stored).
Proof.
  refine (invite_null_iff_skipped (a_platform never (Delivered "m1"))
            invite_created invite_stored _ _ _).
  vm_compute. reflexivity.
Defined.

Lemma invite_marked_sent_witness :
  let E := a_platform never (Delivered "m1") in
  ∃ s' now,
    sendInviteEmail E invite_created invite_stored
    = (Ok (RSuccess (Some "m1")), s')
    ∧ st_writes s'
      = [("i1", [("emailSent", JBool true); ("emailSentAt", now);
                 ("emailId", JStr "m1")])].
Proof.
  destruct (invite_marked_sent (a_platform never (Delivered "m1"))
              invite_created an_invite an_invite "member" "m1" invite_stored)
    as (s' & c & now & Hrun & _ & Hwrites & _).
  - reflexivity.
  - vm_compute. reflexivity.
  - vm_compute. reflexivity.
  - right. exists "u1". vm_compute. reflexivity.
  - vm_compute. reflexivity.
  - vm_compute. reflexivity.
  - intros n. reflexivity.
  - intros n. reflexivity.
  - exists s', now. split; [exact Hrun|exact Hwrites].
Defined.

Lemma invite_flag_only_after_delivery_witness :
  let E := a_platform never (Delivered "m1") in
  let run := sendInviteEmail E invite_created invite_stored in
  ∃ mailId m, run.1 = Ok (RSuccess (Some mailId))
              ∧ field (default ∅ (st_invites run.2 !! "i1")) "emailId"
                = JStr mailId
              ∧ st_outbox run.2 = st_outbox invite_stored ++ [m].
Proof.
  refine (invite_flag_only_after_delivery (a_platform never (Delivered "m1"))
            invite_created invite_stored _ _ an_invite _ _ _ _ _ _).
  - vm_compute. reflexivity.
  - vm_compute. reflexivity.
  - vm_compute. reflexivity.
  - vm_compute. discriminate.
  - vm_compute. reflexivity.
Defined.

Lemma invite_writes_confined_witness :
  let E := a_platform never (Refused "bounced") in
  let run := sendInviteEmail E invite_created invite_stored in
  (st_writes run.2 = st_writes invite_stored
   ∧ st_invites run.2 = st_invites invite_stored)
  ∨ ∃ patch d,
      st_writes run.2 = st_writes invite_stored ++ [("i1", patch)]
      ∧ st_invites invite_stored !! "i1" = Some d
      ∧ st_invites run.2 = <["i1" := apply_patch patch d]> (st_invites invite_stored)
      ∧ patch.*1 ⊆ delivery_fields
      ∧ ∀ k, k ∉ delivery_fields → apply_patch patch d !! k = d !! k.
Proof.
  refine (invite_writes_confined (a_platform never (Refused "bounced"))
            invite_created invite_stored _ _ _).
  vm_compute. reflexivity.
Defined.

(** The write that marks the invite as sent is the call numbered 2. *)
Lemma invite_unmarked_after_lost_write_witness :
  let E := a_platform (only 2 "UNAVAILABLE") (Delivered "m1") in
  ∃ s' m,
    sendInviteEmail E invite_created invite_stored
    = (Ok (RFailure "UNAVAILABLE"), s')
    ∧ st_outbox s' = [m]
    ∧ ¬ invite_skipped (invite_event_of "i1" s').
Proof.
  destruct (invite_unmarked_after_lost_write
              (a_platform (only 2 "UNAVAILABLE") (Delivered "m1"))
              invite_created an_invite (JStr "Ann") "member" "m1" "UNAVAILABLE"
              invite_stored
              (inviter_name (a_platform (only 2 "UNAVAILABLE") (Delivered "m1"))
                 an_invite invite_stored).2)
    as (s' & c & now & Hrun & Hout & _ & Hpending).
  - reflexivity.
  - vm_compute. reflexivity.
  - vm_compute. reflexivity.
  - vm_compute. reflexivity.
  - vm_compute. reflexivity.
  - vm_compute. reflexivity.
  - vm_compute. reflexivity.
  - vm_compute. reflexivity.
  - vm_compute. reflexivity.
  - vm_compute. reflexivity.
  - exists s', {| e_to := field an_invite "email"; e_content := c |}.
    split; [exact Hrun|]. split; [exact Hout|exact Hpending].
Defined.

Lemma redelivered_invite_event_sends_again_witness :
  let E := a_platform never (Delivered "m1") in
  ∃ o1 s1 o2 s2 c1 c2,
    sendInviteEmail E invite_created invite_stored = (o1, s1)
    ∧ sendInviteEmail E invite_created s1 = (o2, s2)
    ∧ st_outbox s2 = st_outbox invite_stored
        ++ [{| e_to := field an_invite "email"; e_content := c1 |};
            {| e_to := field an_invite "email"; e_content := c2 |}].
Proof.
  refine (redelivered_invite_event_sends_again
            (a_platform never (Delivered "m1")) invite_created an_invite
            "member" invite_stored _ _ _ _ _ _).
  - reflexivity.
  - vm_compute. reflexivity.
  - vm_compute. reflexivity.
  - right. exists "u1". vm_compute. reflexivity.
  - vm_compute. reflexivity.
  - intros n. reflexivity.
Defined.


(** The comment of the scenario has two users to notify. *)
Lemma handler_call_bounds_witness :
  let E := a_platform never (Delivered "m1") in
  let run := sendCommentNotification E a_comment (no_calls_yet ∅) in
  (st_calls run.2
   ≤ st_calls (no_calls_yet ∅)
     + match find_doc (ce_taskId a_comment)
               (tasks E (ce_tenantId a_comment) (ce_projectId a_comment)) with
       | Some t =>
           4 + 2 * List.length (comment_recipients t (ce_comment a_comment))
       | None => 1
       end)%nat.
Proof.
  refine (proj2 (proj2 (handler_call_bounds
                          (a_platform never (Delivered "m1"))
                          (no_calls_yet ∅) _ _))
                a_comment _).
  vm_compute. reflexivity.
Defined.

Lemma task_assignment_run_witness :
  let E := a_platform never (Delivered "m1") in
  let run := sendTaskAssignedEmail_rendered E some_details self_assignment
               (no_calls_yet ∅) in
  run.1 = Ok (task_result E "u1")
  ∧ st_outbox run.2
    = st_outbox (no_calls_yet ∅) ++ task_mails E self_assignment "u1".
Proof.
  refine (proj2 (proj2 (task_assignment_run
                          (a_platform never (Delivered "m1")) some_details
                          self_assignment "u1" (no_calls_yet ∅) _ _ _ _ _ _ _))
                (never_rejects _)).
  - reflexivity.
  - discriminate.
  - reflexivity.
  - discriminate.
  - vm_compute. reflexivity.
Defined.

Lemma silent_assignee_costs_one_read_witness :
  let E := a_platform never (Delivered "m1") in
  ∃ s', sendTaskAssignedEmail_rendered E some_details assignment_to_stranger
          (no_calls_yet ∅)
        = (Ok RNull, s')
        ∧ st_outbox s' = st_outbox (no_calls_yet ∅)
        ∧ st_calls s' = S (st_calls (no_calls_yet ∅)).
Proof.
  refine (silent_assignee_costs_one_read (a_platform never (Delivered "m1"))
            some_details assignment_to_stranger "u4" (no_calls_yet ∅)
            _ _ _ _ _).
  - discriminate.
  - reflexivity.
  - discriminate.
  - reflexivity.
  - vm_compute. reflexivity.
Defined.

(** A task document without [priority], assigned to a user who allows the
    mail: no delivery call, and the template's error comes back. *)
Lemma unrenderable_task_never_delivered_witness :
  let E := a_platform never (Delivered "m1") in
  ∃ s', sendTaskAssignedEmail_rendered E no_priority self_assignment
          (no_calls_yet ∅)
        = (Ok (RFailure
                 "Cannot read properties of undefined (reading 'charAt')"), s')
        ∧ st_outbox s' = st_outbox (no_calls_yet ∅).
Proof.
  destruct (proj2 (unrenderable_task_never_delivered
                     (a_platform never (Delivered "m1")) no_priority
                     self_assignment (no_calls_yet ∅) eq_refl)
                  "u1" (a_user "Ann" "ann@x.lu" JUndefined))
    as (s' & Hrun & _ & Hout).
  - discriminate.
  - reflexivity.
  - discriminate.
  - vm_compute. reflexivity.
  - reflexivity.
  - intros n. reflexivity.
  - exists s'. split; [exact Hrun|exact Hout].
Defined.

Lemma scan_partitions_text_witness :
  pieces_source (pieces "over to @[Cara](u3)") = "over to @[Cara](u3)"
  ∧ ∀ label userId,
      Mention label userId ∈ pieces "over to @[Cara](u3)" →
      label ≠ "" ∧ occurs "]" label = false
      ∧ userId ≠ "" ∧ occurs ")" userId = false.
Proof. exact (scan_partitions_text "over to @[Cara](u3)"). Defined.

Lemma comment_recipient_ids_not_empty_witness :
  "" ∉ comment_recipients (a_task (Some "u2") 8) (ce_comment a_comment).
Proof.
  exact (comment_recipient_ids_not_empty (a_task (Some "u2") 8)
           (ce_comment a_comment)).
Defined.

(** The second lookup of a recipient is rejected: one notification went
    out, to a user who is not the author. *)
Lemma comment_mails_addressed_witness :
  let E := a_platform (only 6 "UNAVAILABLE") (Delivered "m1") in
  let run := sendCommentNotification E a_comment (no_calls_yet ∅) in
  ∃ sent, st_outbox run.2 = st_outbox (no_calls_yet ∅) ++ sent
    ∧ match find_doc (ce_taskId a_comment)
              (tasks E (ce_tenantId a_comment) (ce_projectId a_comment)) with
      | Some t =>
          ∀ m, m ∈ sent →
            ∃ userId usr,
              userId ∈ comment_recipients t (ce_comment a_comment)
              ∧ cm_createdBy (ce_comment a_comment) ≠ Some userId
              ∧ users E !! userId = Some usr
              ∧ prefers_off usr "comments" = false
              ∧ e_to m = u_email usr
              ∧ ∃ taskTitle projectTitle tenantName commenterName,
                  e_content m
                  = CommentContent taskTitle projectTitle tenantName
                      commenterName
                      (clean_mentions (cm_text (ce_comment a_comment)))
      | None =>
          sent = [] ∧ st_calls run.2 = S (st_calls (no_calls_yet ∅))
          ∧ (run.1 = Ok RNull ∨ ∃ e, run.1 = Ok (RFailure e))
      end.
Proof.
  refine (comment_mails_addressed
            (a_platform (only 6 "UNAVAILABLE") (Delivered "m1"))
            a_comment (no_calls_yet ∅) _ _ _).
  vm_compute. reflexivity.
Defined.

Lemma grouping_succeeds_iff_plain_witness :
  plain_assignees [("k1", a_task (Some "u2") 8); ("k3", a_task (Some "u3") 9)].
Proof.
  refine (proj1 (proj1 (grouping_succeeds_iff_plain
                          {| pj_title := JStr "Launch" |} "p1"
                          [("k1", a_task (Some "u2") 8);
                           ("k3", a_task (Some "u3") 9)]))
                _).
  eexists. vm_compute. reflexivity.
Defined.

Lemma inherited_assignee_fails_run_witness :
  let E := an_inherited_assignee (a_platform never (Delivered "m1")) in
  ∃ s' sent, sendDueDateReminders E (no_calls_yet ∅)
             = (Ok (RFailure push_error), s')
             ∧ st_outbox s' = st_outbox (no_calls_yet ∅) ++ sent
             ∧ sent `prefix_of` run_digests E.
Proof.
  refine (inherited_assignee_fails_run
            (an_inherited_assignee (a_platform never (Delivered "m1")))
            ("t1", {| tn_name := JStr "Acme"; tn_slug := JStr "acme" |})
            ("p1", {| pj_title := JStr "Launch" |})
            ("k9", a_task (Some "constructor") 8) "constructor"
            (no_calls_yet ∅) _ _ _ _ _ _).
  - intros n. reflexivity.
  - simpl. left.
  - simpl. left.
  - vm_compute. left.
  - reflexivity.
  - unfold inherited_keys. left.
Defined.

Lemma digests_in_first_seen_order_witness :
  let E := a_platform never (Delivered "m1") in
  let tenantDoc := ("t1", {| tn_name := JStr "Acme"; tn_slug := JStr "acme" |}) in
  let projectDoc := ("p1", {| pj_title := JStr "Launch" |}) in
  project_digests E tenantDoc projectDoc
  = omap (fun a => digest_mail E tenantDoc.2
                     (a, items_for projectDoc.2 projectDoc.1 a
                           (due_tasks E tenantDoc.1 projectDoc.1)))
         (due_assignees E tenantDoc.1 projectDoc.1).
Proof.
  refine (digests_in_first_seen_order (a_platform never (Delivered "m1"))
            ("t1", {| tn_name := JStr "Acme"; tn_slug := JStr "acme" |})
            ("p1", {| pj_title := JStr "Launch" |}) _ _).
  - by apply scenario_plain_tasks.
  - intros a Ha. vm_compute in Ha.
    apply elem_of_cons in Ha as [->|Ha]; [reflexivity|].
    apply elem_of_cons in Ha as [->|Ha]; [reflexivity|].
    by apply elem_of_nil in Ha.
Defined.

(** A run cut short by a rejected lookup. *)
Lemma digest_lines_are_due_witness :
  let E := a_platform (only 5 "UNAVAILABLE") (Delivered "m1") in
  let run := sendDueDateReminders E (no_calls_yet ∅) in
  ∃ sent, st_outbox run.2 = st_outbox (no_calls_yet ∅) ++ sent
    ∧ ∀ m, m ∈ sent →
        ∃ tenantDoc projectDoc userId usr items,
          tenantDoc ∈ tenants E ∧ projectDoc ∈ projects E tenantDoc.1
          ∧ users E !! userId = Some usr
          ∧ prefers_off usr "dueReminders" = false
          ∧ m = {| e_to := u_email usr;
                   e_content := DueReminderContent
                                  (js_or (u_name usr) (JStr "there"))
                                  (tn_name tenantDoc.2) (tn_slug tenantDoc.2)
                                  items |}
          ∧ items ≠ []
          ∧ ∀ item, item ∈ items →
              (ri_id item, ri_task item) ∈ tasks E tenantDoc.1 projectDoc.1
              ∧ qualifies E (ri_task item)
              ∧ tk_assignedTo (ri_task item) = Some userId
              ∧ ri_projectId item = projectDoc.1
              ∧ ri_projectTitle item = pj_title projectDoc.2.
Proof.
  refine (digest_lines_are_due
            (a_platform (only 5 "UNAVAILABLE") (Delivered "m1"))
            (no_calls_yet ∅) _ _ _).
  vm_compute. reflexivity.
Defined.

(** [u1] has a name: the assigner is shown as "Ann". *)
Lemma shown_names_never_blank_witness :
  let E := a_platform never (Delivered "m1") in
  truthy (JStr "Ann") = true
  ∧ (rejects E (st_calls (no_calls_yet ∅)) = None →
     JStr "Ann" = actor_display E (Some "u1")).
Proof.
  refine (proj1 (shown_names_never_blank (a_platform never (Delivered "m1")))
                (Some "u1") (no_calls_yet ∅) (JStr "Ann") _ _).
  vm_compute. reflexivity.
Defined.
